(** * kiro2cc: the adaptive caching and deduplication engine

    A shallow embedding of the request-optimisation core of kiro2cc
    (similarity kernel, response cache, predictive cache, request
    deduplicator and context compressor) together with the properties the
    specification states about it.

    Conventions.
    - A Go [string] is a byte sequence: it is a Rocq [string]; [len] is the
      number of bytes and [s[:n]] keeps the first [n] bytes.
    - A Go [int]/[int64] is a [Z]; every integer that occurs is a length or
      a counter far below 2^63, so no wrap-around is written.
    - A [float64] similarity is an exact rational ([Qc]); the scores are
      ratios of small integers and are only compared with constants.
    - A [time.Time] is a [Z] (nanoseconds on the clock that [time.Now]
      reads); the clock reading is an explicit argument [now].
    - A Go [map] is a [gmap]; a [range] over a map visits the entries in an
      order Go leaves open, so the loops that depend on it take the order
      of visit as an argument. *)

From Stdlib Require Import ZArith List Ascii String QArith Qcanon Lia.
From stdpp Require Import base numbers option list strings pretty sorting gmap fin_maps.

Local Open Scope string_scope.
Local Open Scope list_scope.
Local Open Scope Z_scope.

(** ** Go built-ins used by the engine *)

Definition len (s : string) : Z := Z.of_nat (String.length s).

(** [s[:n]] for [0 <= n <= len s]. *)
Definition sliceTo (n : nat) (s : string) : string := String.substring 0 n s.

Definition minInt (a b : Z) : Z := if a <? b then a else b.
Definition maxInt (a b : Z) : Z := if a >? b then a else b.
Definition absInt (a : Z) : Z := if a <? 0 then - a else a.

(** The built-in [max] on [int]. *)
Definition max (a b : Z) : Z := Z.max a b.

(** ** Similarity kernel (request deduplicator) *)

Module Kernel.

(** [cost] of the inner loop: 1 when the two bytes differ. *)
Definition cost (a b : ascii) : Z := if Ascii.eqb a b then 0 else 1.

(** Row 0 of the matrix: [matrix[0][j] = j]. *)
Definition row0 (n : nat) : list Z := map Z.of_nat (seq 0 (S n)).

(** The inner loop over [j] for a fixed [i]: [prev] is row [i-1] from
    column [j-1] on, [left] is [matrix[i][j-1]]. *)
Fixpoint fillRow (c : ascii) (s2 : list ascii) (prev : list Z) (left : Z)
  : list Z :=
  match s2, prev with
  | b :: s2', diag :: ((up :: _) as prev') =>
      let deletion := up + 1 in
      let insertion := left + 1 in
      let substitution := diag + cost c b in
      let v := minInt (minInt deletion insertion) substitution in
      v :: fillRow c s2' prev' v
  | _, _ => []
  end.

(** Row [i] from row [i-1]; [matrix[i][0] = i]. *)
Definition nextRow (i : Z) (c : ascii) (s2 : list ascii) (prev : list Z)
  : list Z := i :: fillRow c s2 prev i.

(** The outer loop over [i], started at [i = 1] on row 0. *)
Fixpoint fillRows (s1 s2 : list ascii) (i : Z) (prev : list Z) : list Z :=
  match s1 with
  | [] => prev
  | c :: s1' => fillRows s1' s2 (i + 1) (nextRow i c s2 prev)
  end.

(** [matrix[len(s1)][len(s2)]] once the matrix is filled. *)
Definition matrixCorner (s1 s2 : list ascii) : Z :=
  List.last (fillRows s1 s2 1 (row0 (List.length s2))) 0.

Definition levenshteinDistance (s1 s2 : string) : Z :=
  if len s1 =? 0 then len s2
  else if len s2 =? 0 then len s1
  else
    let s1 := if len s1 >? 500 then sliceTo 500 s1 else s1 in
    let s2 := if len s2 >? 500 then sliceTo 500 s2 else s2 in
    matrixCorner (list_ascii_of_string s1) (list_ascii_of_string s2).

Definition calculateTextSimilarity (text1 text2 : string) : Qc :=
  if String.eqb text1 text2 then 1%Qc
  else if String.eqb text1 "" || String.eqb text2 "" then 0%Qc
  else
    let maxLen := max (len text1) (len text2) in
    if maxLen =? 0 then 1%Qc
    else
      let distance := levenshteinDistance text1 text2 in
      (1 - Qc_of_Z distance / Qc_of_Z maxLen)%Qc.

(** *** The distance of the specification

    The Levenshtein recurrence on prefix lengths, and the edit distance
    of the specification: the recurrence after each input longer than
    500 bytes is cut to its first 500 bytes. *)

Fixpoint lev (a b : list ascii) (i : nat) : nat -> Z :=
  match i with
  | O => fun j => Z.of_nat j
  | S i' =>
      fix inner (j : nat) : Z :=
        match j with
        | O => Z.of_nat (S i')
        | S j' =>
            Z.min (Z.min (lev a b i' (S j') + 1) (inner j' + 1))
                  (lev a b i' j'
                   + cost (nth i' a Ascii.zero) (nth j' b Ascii.zero))
        end
  end.

Definition truncate500 (s : string) : string :=
  if len s >? 500 then sliceTo 500 s else s.

Definition editDistance_spec (a b : string) : Z :=
  let a' := list_ascii_of_string (truncate500 a) in
  let b' := list_ascii_of_string (truncate500 b) in
  lev a' b' (List.length a') (List.length b').

(** The formula of the specification, with its distance. *)
Definition similarity_formula (a b : string) : Qc :=
  (1 - Qc_of_Z (editDistance_spec a b) / Qc_of_Z (max (len a) (len b)))%Qc.

End Kernel.

(** ** The request (main.go) *)

(** The decoded [content] of a message: a JSON string, a JSON array of
    blocks, or any other JSON value. A block of the array counts through
    its [type] once it decodes into [ContentBlock]: [text] with its text,
    [tool_result] with its string content; every other element (another
    type, not an object, or an object that does not decode) adds nothing.
    A [text] block without a [text] field and a [tool_result] block without
    a [content] field, on which the source dereferences a nil pointer, are
    outside this type. *)
Inductive ContentBlock :=
  | TextBlock (text : string)
  | ToolResultBlock (content : string)
  | OtherBlock.

Inductive Content :=
  | ContentString (v : string)
  | ContentBlocks (v : list ContentBlock)
  | ContentOther.

Record AnthropicRequestMessage := {
  Role : string;
  MsgContent : Content
}.

(** Modelled from the spec: the type [Message] of request_batcher.go and
    context_compressor.go has no declaration in the sources; it is the
    message of a request, "role + content". *)
Abbreviation Message := AnthropicRequestMessage (only parsing).

Record AnthropicSystemMessage := { SysType : string; SysText : string }.

Record AnthropicTool := {
  ToolName : string;
  ToolDescription : string;
  InputSchema : gmap string string
}.

Record AnthropicRequest := {
  Model : string;
  MaxTokens : Z;
  Messages : list AnthropicRequestMessage;
  System : list AnthropicSystemMessage;
  Tools : list AnthropicTool;
  Stream : bool;
  Temperature : option Qc;
  Metadata : gmap string string
}.

(** A value of type [interface{}] holding a response body; [None] is
    [nil]. *)
Definition any := option string.

Definition newline : string := String (ascii_of_nat 10) "".

Definition blockText (b : ContentBlock) : option string :=
  match b with
  | TextBlock t => Some t
  | ToolResultBlock c => Some c
  | OtherBlock => None
  end.

Definition getMessageContent (content : Content) : string :=
  match content with
  | ContentString v =>
      if len v =? 0 then "answer for user qeustion" else v
  | ContentBlocks v =>
      let texts := omap blockText v in
      if Z.of_nat (List.length texts) =? 0 then "answer for user qeustion"
      else String.concat newline texts
  | ContentOther => "answer for user qeustion"
  end.

(** ** Hashing of cache keys

    A key is the hex form of the MD5 digest of the JSON encoding of a
    struct. Neither [encoding/json] nor [crypto/md5] belongs to the
    repository: each is a function of exactly the fields the struct is
    built from. [marshalKey] is [json.Marshal] on the struct
    [{model, messages, max_tokens}] ([None] when it returns an error),
    [marshalRequest] on a whole request, [marshalMergeKey] on the struct
    [{model, message_count, last_user_msg}], [marshalMessages] on a
    message sequence, and [md5hex] is [hex.EncodeToString] of [md5.Sum]
    (the [%x] of [fmt.Sprintf] gives the same text). *)
Class Hashing := {
  marshalKey : string -> list Message -> Z -> option string;
  marshalRequest : AnthropicRequest -> string;
  marshalMergeKey : string -> Z -> string -> string;
  marshalMessages : list Message -> string;
  md5hex : string -> string
}.

(** ** The package [strings]

    [strings.Fields] and [strings.ToLower] follow the Unicode tables, which
    are no part of the repository; what is proved holds for every pair of
    functions in their place. [strings.Contains], [strings.Join] and
    [sort.Strings] work on bytes and are written out. *)
Class GoStrings := {
  Fields : string -> list string;
  ToLower : string -> string
}.

Definition Contains (s substr : string) : bool :=
  match String.index 0 substr s with Some _ => true | None => false end.

Definition Join (elems : list string) (sep : string) : string :=
  String.concat sep elems.

Fixpoint insertString (x : string) (l : list string) : list string :=
  match l with
  | [] => [x]
  | y :: l' => if String.leb x y then x :: l else y :: insertString x l'
  end.

(** [sort.Strings]: ascending in the byte order of Go's [<] on strings. *)
Definition sortStrings (l : list string) : list string :=
  foldr insertString [] l.

(** ** Response cache (exact match, bounded, TTL) *)

Module ResponseCache.

Record CacheEntry := {
  Response : any;
  CreatedAt : Z;
  AccessCount : Z
}.

Record t := {
  cache : gmap string CacheEntry;
  maxSize : Z;
  ttl : Z
}.

Definition minute : Z := 60 * 1000000000.

(** The package-level instance. *)
Definition responseCache : t :=
  {| cache := ∅; maxSize := 1000; ttl := 10 * minute |}.

Definition generateCacheKey `{Hashing} (req : AnthropicRequest) : string :=
  if Stream req || (Z.of_nat (List.length (Messages req)) =? 0) then ""
  else
    match marshalKey (Model req) (Messages req) (MaxTokens req) with
    | None => ""
    | Some data => md5hex data
    end.

(** The three variables of [evictLRU]. *)
Record scan := {
  oldestKey : string;
  oldestTime : Z;
  minAccessCount : Z
}.

(** The zero [time.Time]. *)
Definition zeroTime : Z := 0.

Definition scan0 : scan :=
  {| oldestKey := ""; oldestTime := zeroTime; minAccessCount := -1 |}.

(** One iteration of the loop of [evictLRU]. *)
Definition scanStep (st : scan) (kv : string * CacheEntry) : scan :=
  let '(key, entry) := kv in
  if (minAccessCount st =? -1)
     || (AccessCount entry <? minAccessCount st)
     || ((AccessCount entry =? minAccessCount st)
         && (CreatedAt entry <? oldestTime st))
  then {| oldestKey := key;
          oldestTime := CreatedAt entry;
          minAccessCount := AccessCount entry |}
  else st.

(** [evictLRU]; [visit] is the order in which [range rc.cache] yields
    the entries. *)
Definition evictLRU (visit : list (string * CacheEntry))
    (c : gmap string CacheEntry) : gmap string CacheEntry :=
  let st := fold_left scanStep visit scan0 in
  if String.eqb (oldestKey st) "" then c else delete (oldestKey st) c.

Definition Set_ `{Hashing} (visit : list (string * CacheEntry)) (now : Z)
    (rc : t) (req : AnthropicRequest) (response : any) : t :=
  if Stream req then rc
  else
    let key := generateCacheKey req in
    if String.eqb key "" then rc
    else
      let c := if Z.of_nat (size (cache rc)) >=? maxSize rc
               then evictLRU visit (cache rc) else cache rc in
      {| cache := <[key := {| Response := response;
                             CreatedAt := now;
                             AccessCount := 1 |}]> c;
         maxSize := maxSize rc;
         ttl := ttl rc |}.

(** [Get]: the response, the flag, and the cache afterwards (a hit
    counts the access). The removal of an expired entry is started in a
    goroutine of its own, [deleteExpired]. *)
Definition Get `{Hashing} (now : Z) (rc : t) (req : AnthropicRequest)
  : any * bool * t :=
  if Stream req then (None, false, rc)
  else
    let key := generateCacheKey req in
    if String.eqb key "" then (None, false, rc)
    else
      match cache rc !! key with
      | None => (None, false, rc)
      | Some entry =>
          if now - CreatedAt entry >? ttl rc then (None, false, rc)
          else
            let entry' := {| Response := Response entry;
                             CreatedAt := CreatedAt entry;
                             AccessCount := AccessCount entry + 1 |} in
            (Response entry, true,
             {| cache := <[key := entry']> (cache rc);
                maxSize := maxSize rc;
                ttl := ttl rc |})
      end.

Definition deleteExpired (rc : t) (key : string) : t :=
  {| cache := delete key (cache rc); maxSize := maxSize rc; ttl := ttl rc |}.

(** What every cache built by [Set_] and [Get] satisfies: no entry sits
    under the empty key and every access count is at least 1. *)
Definition wf (c : gmap string CacheEntry) : Prop :=
  forall k e, c !! k = Some e -> k <> "" /\ 1 <= AccessCount e.

(** [e] is an entry that the eviction policy may choose among those of
    [c]: no entry has a lower access count, and none with the same count
    is older. *)
Definition least (c : gmap string CacheEntry) (e : CacheEntry) : Prop :=
  forall k' e', c !! k' = Some e' ->
    AccessCount e < AccessCount e' \/
    (AccessCount e = AccessCount e' /\ CreatedAt e <= CreatedAt e').

(** The state of the scan after the entries [seen]: it holds the key,
    the creation time and the access count of one of them, and that one
    is least among them. *)
Definition chosen (seen : list (string * CacheEntry)) (st : scan) : Prop :=
  exists e,
    (oldestKey st, e) ∈ seen /\
    oldestTime st = CreatedAt e /\
    minAccessCount st = AccessCount e /\
    forall k' e', (k', e') ∈ seen ->
      AccessCount e < AccessCount e' \/
      (AccessCount e = AccessCount e' /\ CreatedAt e <= CreatedAt e').

End ResponseCache.

(** ** Predictive cache (exact match, then a scan for a similar request) *)

Module PredictiveCache.

Record PredictiveCacheEntry := {
  Response : any;
  CreatedAt : Z;
  AccessCount : Z;
  LastAccess : Z;
  Confidence : Qc;
  IsPrefetch : bool
}.

(** The cache map and the threshold; the learned patterns and the
    prefetch queue, which [Get] never reads, are left out. *)
Record t := {
  cache : gmap string PredictiveCacheEntry;
  similarityThreshold : Qc
}.

Definition minute : Z := 60 * 1000000000.

Definition predictiveCache : t :=
  {| cache := ∅; similarityThreshold := (Qc_of_Z 8 / Qc_of_Z 10)%Qc |}.

Definition generateKey `{Hashing} (req : AnthropicRequest) : string :=
  match marshalKey (Model req) (Messages req) (MaxTokens req) with
  | Some data => md5hex data
  | None => md5hex ""
  end.

Definition isExpired (now : Z) (entry : PredictiveCacheEntry) : bool :=
  let ttl := if IsPrefetch entry then 30 * minute else 10 * minute in
  now - CreatedAt entry >? ttl.

(** "Simplified implementation, returns nil". *)
Definition parseKeyToRequest (key : string) : option AnthropicRequest := None.

Definition extractTextFromMessages `{GoStrings} (msgs : list Message) : string :=
  let texts :=
    omap (fun msg : Message =>
            let content := getMessageContent (MsgContent msg) in
            if String.eqb content "" then None else Some (ToLower content))
         msgs in
  Join texts " ".

Definition calculateTextSimilarity `{GoStrings} (text1 text2 : string) : Qc :=
  let words1 := Fields text1 in
  let words2 := Fields text2 in
  if (Z.of_nat (List.length words1) =? 0) && (Z.of_nat (List.length words2) =? 0)
  then 1%Qc
  else if (Z.of_nat (List.length words1) =? 0)
          || (Z.of_nat (List.length words2) =? 0)
  then 0%Qc
  else
    let set1 : gset string := list_to_set words1 in
    let set2 : gset string := list_to_set words2 in
    let intersection :=
      Z.of_nat (List.length (filter (fun w => w ∈ set1) (elements set2))) in
    let union :=
      Z.of_nat (size set1)
      + Z.of_nat (List.length (filter (fun w => w ∉ set1) (elements set2))) in
    if union =? 0 then 0%Qc
    else (Qc_of_Z intersection / Qc_of_Z union)%Qc.

Definition calculateContentSimilarity `{GoStrings} (msgs1 msgs2 : list Message)
  : Qc :=
  let n1 := Z.of_nat (List.length msgs1) in
  let n2 := Z.of_nat (List.length msgs2) in
  if (n1 =? 0) && (n2 =? 0) then 1%Qc
  else if (n1 =? 0) || (n2 =? 0) then 0%Qc
  else
    calculateTextSimilarity (extractTextFromMessages msgs1)
                            (extractTextFromMessages msgs2).

Definition w03 : Qc := (Qc_of_Z 3 / Qc_of_Z 10)%Qc.
Definition w02 : Qc := (Qc_of_Z 2 / Qc_of_Z 10)%Qc.
Definition w05 : Qc := (Qc_of_Z 5 / Qc_of_Z 10)%Qc.

Definition calculateSimilarity `{GoStrings} (req1 req2 : AnthropicRequest) : Qc :=
  let score := 0%Qc in
  let factors := 0%Qc in
  let score := if String.eqb (Model req1) (Model req2)
               then (score + w03)%Qc else score in
  let factors := (factors + w03)%Qc in
  let score := if Z.of_nat (List.length (Messages req1))
                  =? Z.of_nat (List.length (Messages req2))
               then (score + w02)%Qc else score in
  let factors := (factors + w02)%Qc in
  let contentSimilarity :=
    calculateContentSimilarity (Messages req1) (Messages req2) in
  let score := (score + contentSimilarity * w05)%Qc in
  let factors := (factors + w05)%Qc in
  (score / factors)%Qc.

(** One iteration of the loop of [findSimilarRequest]; the best entry is
    kept with the key it sits under. *)
Definition findStep `{GoStrings} (now : Z) (threshold : Qc)
    (req : AnthropicRequest)
    (best : option (string * PredictiveCacheEntry) * Qc)
    (kv : string * PredictiveCacheEntry)
  : option (string * PredictiveCacheEntry) * Qc :=
  let '(cachedKey, entry) := kv in
  if isExpired now entry then best
  else
    match parseKeyToRequest cachedKey with
    | None => best
    | Some cachedReq =>
        let similarity := calculateSimilarity req cachedReq in
        if bool_decide (best.2 < similarity)%Qc
           && bool_decide (threshold <= similarity)%Qc
        then (Some (cachedKey, entry), similarity)
        else best
    end.

Definition findSimilarRequest `{GoStrings}
    (visit : list (string * PredictiveCacheEntry)) (now : Z) (pc : t)
    (req : AnthropicRequest)
  : option (string * PredictiveCacheEntry) * Qc :=
  fold_left (findStep now (similarityThreshold pc) req) visit (None, 0%Qc).

Definition touch (now : Z) (entry : PredictiveCacheEntry)
  : PredictiveCacheEntry :=
  {| Response := Response entry; CreatedAt := CreatedAt entry;
     AccessCount := AccessCount entry + 1; LastAccess := now;
     Confidence := Confidence entry; IsPrefetch := IsPrefetch entry |}.

(** [Get]: response, found, confidence, and the cache afterwards;
    [visit] is the order in which [range pc.cache] yields the entries. *)
Definition Get `{Hashing} `{GoStrings}
    (visit : list (string * PredictiveCacheEntry)) (now : Z) (pc : t)
    (req : AnthropicRequest) : any * bool * Qc * t :=
  let key := generateKey req in
  let fuzzy :=
    match findSimilarRequest visit now pc req with
    | (Some (bestKey, bestMatch), similarity) =>
        if bool_decide (similarityThreshold pc <= similarity)%Qc
        then (Response bestMatch, true, similarity,
              {| cache := <[bestKey := touch now bestMatch]> (cache pc);
                 similarityThreshold := similarityThreshold pc |})
        else (None, false, 0%Qc, pc)
    | (None, _) => (None, false, 0%Qc, pc)
    end in
  match cache pc !! key with
  | Some entry =>
      if negb (isExpired now entry)
      then (Response entry, true, 1%Qc,
            {| cache := <[key := touch now entry]> (cache pc);
               similarityThreshold := similarityThreshold pc |})
      else fuzzy
  | None => fuzzy
  end.

(** [Set], on the cache map. *)
Definition Set_ `{Hashing} (now : Z) (pc : t) (req : AnthropicRequest)
    (response : any) : t :=
  {| cache := <[generateKey req :=
                  {| Response := response; CreatedAt := now;
                     AccessCount := 1; LastAccess := now;
                     Confidence := 1%Qc; IsPrefetch := false |}]> (cache pc);
     similarityThreshold := similarityThreshold pc |}.

End PredictiveCache.

(** ** Request deduplicator (in-flight sharing, recent results, merging) *)

Module Dedup.

Record DedupeResponse := {
  Response : any;
  Error : option string;      (* [None] is the nil error *)
  FromCache : bool;
  Merged : bool
}.

(** A [chan DedupeResponse] is the name of a channel of the store
    [channels]; an [*ActiveRequest] is the name of a record of the store
    [objects]. *)
Record ActiveRequest := {
  Request : AnthropicRequest;
  ResponseCh : nat;
  Subscribers : list nat;
  StartTime : Z;
  RequestHash : string
}.

Record RecentRequest := {
  RecentReq : AnthropicRequest;
  RecentResponse : any;
  Timestamp : Z;
  Hash : string
}.

Record MergeableGroup := {
  BaseRequest : AnthropicRequest;
  Variations : list AnthropicRequest;
  LastMerged : Z;
  MergeCount : Z;
  ResponseCache : any
}.

(** A channel made by [make(chan DedupeResponse, 1)]. *)
Record channel := {
  buffer : list DedupeResponse;
  closed : bool
}.

(** Where a goroutine [go rd.executeRequest(p)] stands: inside
    [performAPIRequest], or past the sends with the result in hand,
    before [rd.mu.Lock()]. *)
Inductive goroutine :=
  | InFlight
  | Published (response : any) (err : option string).

(** The deduplicator and what its goroutines share with it. *)
Record t := {
  activeRequests : gmap string nat;
  recentRequests : gmap string RecentRequest;
  mergeableGroups : gmap string MergeableGroup;
  objects : gmap nat ActiveRequest;
  channels : gmap nat channel;
  executions : gmap nat goroutine;
  nextName : nat
}.

Definition second : Z := 1000000000.
Definition minute : Z := 60 * second.

Definition requestDeduplicator : t :=
  {| activeRequests := ∅; recentRequests := ∅; mergeableGroups := ∅;
     objects := ∅; channels := ∅; executions := ∅; nextName := 0 |}.

Definition generateRequestHash `{Hashing} (req : AnthropicRequest) : string :=
  md5hex (marshalRequest req).

(** The content of the last message of role [user], [""] when there is
    none: the backward loop of [generateMergeKey] and of
    [calculateContentSimilarity]. *)
Fixpoint lastUserFrom (rev_msgs : list AnthropicRequestMessage) : string :=
  match rev_msgs with
  | [] => ""
  | m :: rest =>
      if String.eqb (Role m) "user" then getMessageContent (MsgContent m)
      else lastUserFrom rest
  end.

Definition lastUserContent (msgs : list AnthropicRequestMessage) : string :=
  lastUserFrom (rev msgs).

Definition generateMergeKey `{Hashing} (req : AnthropicRequest) : string :=
  let content := lastUserContent (Messages req) in
  let content := if len content >? 100 then sliceTo 100 content else content in
  md5hex (marshalMergeKey (Model req)
            (Z.of_nat (List.length (Messages req))) content).

Definition calculateContentSimilarity (req1 req2 : AnthropicRequest) : Qc :=
  let n1 := Z.of_nat (List.length (Messages req1)) in
  let n2 := Z.of_nat (List.length (Messages req2)) in
  if (n1 =? 0) && (n2 =? 0) then 1%Qc
  else if (n1 =? 0) || (n2 =? 0) then 0%Qc
  else
    Kernel.calculateTextSimilarity
      (lastUserContent (Messages req1)) (lastUserContent (Messages req2)).

Definition canMergeWithGroup (req : AnthropicRequest) (group : MergeableGroup)
  : bool :=
  if negb (String.eqb (Model req) (Model (BaseRequest group))) then false
  else if absInt (Z.of_nat (List.length (Messages req))
                  - Z.of_nat (List.length (Messages (BaseRequest group)))) >? 2
  then false
  else
    let similarity := calculateContentSimilarity req (BaseRequest group) in
    bool_decide (Qc_of_Z 7 / Qc_of_Z 10 < similarity)%Qc.

(** The variations after [append] and the cut to the last 10. *)
Definition pushVariation (vs : list AnthropicRequest) (req : AnthropicRequest)
  : list AnthropicRequest :=
  let vs := vs ++ [req] in
  if Z.of_nat (List.length vs) >? 10 then drop 1 vs else vs.

(** [tryMergeRequest]: the response (or [None] for nil) and the groups
    afterwards. *)
Definition tryMergeRequest `{Hashing} (now : Z)
    (groups : gmap string MergeableGroup) (req : AnthropicRequest)
  : option DedupeResponse * gmap string MergeableGroup :=
  let mergeKey := generateMergeKey req in
  match groups !! mergeKey with
  | Some group =>
      if canMergeWithGroup req group
         && (now - LastMerged group <? 5 * minute)
      then
        let group' :=
          {| BaseRequest := BaseRequest group;
             Variations := pushVariation (Variations group) req;
             LastMerged := now;
             MergeCount := MergeCount group + 1;
             ResponseCache := ResponseCache group |} in
        let groups' := <[mergeKey := group']> groups in
        match ResponseCache group with
        | Some _ =>
            (Some {| Response := ResponseCache group; Error := None;
                     FromCache := true; Merged := true |}, groups')
        | None => (None, groups')
        end
      else (None, groups)
  | None => (None, groups)
  end.

(** A fresh channel that already holds [resp] and is closed. *)
Definition answered (resp : DedupeResponse) : channel :=
  {| buffer := [resp]; closed := true |}.

Definition emptyChannel : channel := {| buffer := []; closed := false |}.

(** [ProcessRequest], under the lock from its first map access to its
    return: the channel handed to the caller and the state afterwards. *)
Definition ProcessRequest `{Hashing} (now : Z) (rd : t)
    (req : AnthropicRequest) : nat * t :=
  let reqHash := generateRequestHash req in
  let responseCh := nextName rd in
  match activeRequests rd !! reqHash with
  | Some p =>
      let subscribe (a : ActiveRequest) :=
        {| Request := Request a; ResponseCh := ResponseCh a;
           Subscribers := Subscribers a ++ [responseCh];
           StartTime := StartTime a; RequestHash := RequestHash a |} in
      (responseCh,
       {| activeRequests := activeRequests rd;
          recentRequests := recentRequests rd;
          mergeableGroups := mergeableGroups rd;
          objects := alter subscribe p (objects rd);
          channels := <[responseCh := emptyChannel]> (channels rd);
          executions := executions rd;
          nextName := S (nextName rd) |})
  | None =>
      let fresh :=
        match recentRequests rd !! reqHash with
        | Some recentReq =>
            if now - Timestamp recentReq <? 2 * minute
            then Some {| Response := RecentResponse recentReq; Error := None;
                         FromCache := true; Merged := false |}
            else None
        | None => None
        end in
      match fresh with
      | Some resp =>
          (responseCh,
           {| activeRequests := activeRequests rd;
              recentRequests := recentRequests rd;
              mergeableGroups := mergeableGroups rd;
              objects := objects rd;
              channels := <[responseCh := answered resp]> (channels rd);
              executions := executions rd;
              nextName := S (nextName rd) |})
      | None =>
          match tryMergeRequest now (mergeableGroups rd) req with
          | (Some mergedResponse, groups') =>
              (responseCh,
               {| activeRequests := activeRequests rd;
                  recentRequests := recentRequests rd;
                  mergeableGroups := groups';
                  objects := objects rd;
                  channels := <[responseCh := answered mergedResponse]> (channels rd);
                  executions := executions rd;
                  nextName := S (nextName rd) |})
          | (None, groups') =>
              let p := S (nextName rd) in
              let activeReq :=
                {| Request := req; ResponseCh := responseCh;
                   Subscribers := []; StartTime := now;
                   RequestHash := reqHash |} in
              (responseCh,
               {| activeRequests := <[reqHash := p]> (activeRequests rd);
                  recentRequests := recentRequests rd;
                  mergeableGroups := groups';
                  objects := <[p := activeReq]> (objects rd);
                  channels := <[responseCh := emptyChannel]> (channels rd);
                  executions := <[p := InFlight]> (executions rd);
                  nextName := S (S (nextName rd)) |})
          end
      end
  end.

(** *** The goroutine [executeRequest]

    Its sends happen before it takes the lock, so another goroutine can
    run [ProcessRequest] between the two halves below. The buffer of a
    channel keeps what was sent on it; the receiving callers are not
    part of the model. *)

(** [ch <- v] when it goes through at once; [None] when it does not: a
    send on a closed channel panics, a send on a full buffer waits for a
    receiver. *)
Definition send (ch : nat) (v : DedupeResponse) (chans : gmap nat channel)
  : option (gmap nat channel) :=
  match chans !! ch with
  | Some c =>
      if closed c then None
      else match buffer c with
           | [] => Some (<[ch := {| buffer := [v]; closed := false |}]> chans)
           | _ :: _ => None
           end
  | None => None
  end.

(** [close(ch)]; closing a closed channel panics. *)
Definition close (ch : nat) (chans : gmap nat channel)
  : option (gmap nat channel) :=
  match chans !! ch with
  | Some c =>
      if closed c then None
      else Some (<[ch := {| buffer := buffer c; closed := true |}]> chans)
  | None => None
  end.

Definition deliver (ch : nat) (v : DedupeResponse) (chans : gmap nat channel)
  : option (gmap nat channel) :=
  chans' ← send ch v chans; close ch chans'.

(** The loop over [activeReq.Subscribers]. *)
Fixpoint fanOut (subscribers : list nat) (v : DedupeResponse)
    (chans : gmap nat channel) : option (gmap nat channel) :=
  match subscribers with
  | [] => Some chans
  | subscriberCh :: rest =>
      chans' ← deliver subscriberCh v chans; fanOut rest v chans'
  end.

(** First half: [performAPIRequest] has returned [(response, err)]; the
    result goes to the primary channel and to the subscribers that the
    record lists at this moment. *)
Definition publish (p : nat) (response : any) (err : option string) (rd : t)
  : option t :=
  match executions rd !! p, objects rd !! p with
  | Some InFlight, Some activeReq =>
      let dedupeResp := {| Response := response; Error := err;
                           FromCache := false; Merged := false |} in
      chans ← deliver (ResponseCh activeReq) dedupeResp (channels rd);
      chans ← fanOut (Subscribers activeReq) dedupeResp chans;
      Some {| activeRequests := activeRequests rd;
              recentRequests := recentRequests rd;
              mergeableGroups := mergeableGroups rd;
              objects := objects rd;
              channels := chans;
              executions := <[p := Published response err]> (executions rd);
              nextName := nextName rd |}
  | _, _ => None
  end.

Definition updateMergeableGroup `{Hashing} (now : Z)
    (groups : gmap string MergeableGroup) (req : AnthropicRequest)
    (response : any) (err : option string) : gmap string MergeableGroup :=
  match err with
  | Some _ => groups
  | None =>
      let mergeKey := generateMergeKey req in
      match groups !! mergeKey with
      | Some group =>
          <[mergeKey := {| BaseRequest := BaseRequest group;
                           Variations := Variations group;
                           LastMerged := now;
                           MergeCount := MergeCount group;
                           ResponseCache := response |}]> groups
      | None =>
          <[mergeKey := {| BaseRequest := req;
                           Variations := [req];
                           LastMerged := now;
                           MergeCount := 1;
                           ResponseCache := response |}]> groups
      end
  end.

(** Second half, under the lock: the recent record, the group, and the
    removal of the active record of this hash. *)
Definition finish `{Hashing} (now : Z) (p : nat) (rd : t) : option t :=
  match executions rd !! p, objects rd !! p with
  | Some (Published response err), Some activeReq =>
      let recent :=
        match err with
        | None =>
            <[RequestHash activeReq :=
                {| RecentReq := Request activeReq;
                   RecentResponse := response;
                   Timestamp := now;
                   Hash := RequestHash activeReq |}]> (recentRequests rd)
        | Some _ => recentRequests rd
        end in
      Some {| activeRequests :=
                delete (RequestHash activeReq) (activeRequests rd);
              recentRequests := recent;
              mergeableGroups :=
                updateMergeableGroup now (mergeableGroups rd)
                  (Request activeReq) response err;
              objects := objects rd;
              channels := channels rd;
              executions := delete p (executions rd);
              nextName := nextName rd |}
  | _, _ => None
  end.

(** The steps that goroutines take on the shared state, one at a time. *)
Inductive step :=
  | Process (now : Z) (req : AnthropicRequest)
  | Publish (p : nat) (response : any) (err : option string)
  | Finish (now : Z) (p : nat).

Definition run1 `{Hashing} (rd : t) (s : step) : option t :=
  match s with
  | Process now req => Some (ProcessRequest now rd req).2
  | Publish p response err => publish p response err rd
  | Finish now p => finish now p rd
  end.

Fixpoint run `{Hashing} (rd : t) (steps : list step) : option t :=
  match steps with
  | [] => Some rd
  | s :: rest => rd' ← run1 rd s; run rd' rest
  end.

End Dedup.

(** ** Context compressor *)

Module Compressor.

Record CompressedContext := {
  OriginalMessages : list Message;
  CompressedMessages : list Message;
  Summary : string;
  CompressionRatio : Qc;
  CreatedAt : Z;
  UsageCount : Z
}.

Record MessageImportance := {
  Index : nat;
  Score : Qc;
  Reason : string;
  IsSystem : bool;
  IsRecent : bool;
  HasKeywords : bool
}.

Record t := {
  compressionCache : gmap string CompressedContext;
  summaryCache : gmap string string;
  maxContextLength : Z;
  compressionRatio : Qc
}.


(** [sort.Slice(importance, by descending Score)]: the order it leaves
    among equal scores is not fixed by its contract. *)
Class Sorting := {
  sortByScore : list MessageImportance -> list MessageImportance
}.

(** [int(x)] on a float: the fraction is dropped. *)
Definition toInt (x : Qc) : Z := Z.quot (Qnum x) (Z.pos (Qden x)).

Definition calculateTotalLength (messages : list Message) : Z :=
  fold_left (fun total msg => total + len (getMessageContent (MsgContent msg)))
            messages 0.

Definition keywords : list string :=
  [ "error"; "错误"; "问题"; "help"; "帮助";
    "how"; "what"; "why"; "when"; "where";
    "如何"; "什么"; "为什么"; "怎么"; "哪里";
    "code"; "代码"; "function"; "函数";
    "bug"; "fix"; "修复"; "解决" ].

Definition hasImportantKeywords `{GoStrings} (content : string) : bool :=
  let contentLower := ToLower content in
  existsb (fun keyword => Contains contentLower keyword) keywords.

Definition scoreMessage `{GoStrings} (n i : nat) (msg : Message)
  : MessageImportance :=
  let score := 0%Qc in
  let reasons : list string := [] in
  let '(score, reasons) :=
    if String.eqb (Role msg) "system"
    then ((score + Qc_of_Z 10)%Qc, reasons ++ ["system_message"])
    else (score, reasons) in
  let recentThreshold := Z.of_nat n - 3 in
  let '(score, reasons) :=
    if Z.of_nat i >=? recentThreshold
    then ((score + Qc_of_Z 5 * Qc_of_Z (Z.of_nat i - recentThreshold + 1))%Qc,
          reasons ++ ["recent_message"])
    else (score, reasons) in
  let content := getMessageContent (MsgContent msg) in
  let '(score, reasons) :=
    if hasImportantKeywords content
    then ((score + Qc_of_Z 3)%Qc, reasons ++ ["has_keywords"])
    else (score, reasons) in
  let '(score, reasons) :=
    if len content >? 200
    then ((score + Qc_of_Z 2)%Qc, reasons ++ ["long_message"])
    else (score, reasons) in
  let '(score, reasons) :=
    if Contains content "?" || Contains content "？"
    then ((score + Qc_of_Z 15 / Qc_of_Z 10)%Qc, reasons ++ ["question"])
    else (score, reasons) in
  let '(score, reasons) :=
    if String.eqb (Role msg) "user"
    then ((score + Qc_of_Z 1)%Qc, reasons ++ ["user_message"])
    else (score, reasons) in
  {| Index := i;
     Score := score;
     Reason := Join reasons ",";
     IsSystem := String.eqb (Role msg) "system";
     IsRecent := Z.of_nat i >=? recentThreshold;
     HasKeywords := hasImportantKeywords content |}.

Definition calculateMessageImportance `{GoStrings} (messages : list Message)
  : list MessageImportance :=
  imap (scoreMessage (List.length messages)) messages.

(** The loop of [selectImportantMessages]: the set of chosen indices and
    the length used so far. An index of [importance] is an index of
    [messages]; [messages[imp.Index]] is read with [!!]. *)
Definition selectStep (messages : list Message) (targetLength : Z)
    (acc : gset nat * Z) (imp : MessageImportance) : gset nat * Z :=
  let '(selected, currentLength) := acc in
  let msgLength :=
    match messages !! Index imp with
    | Some m => len (getMessageContent (MsgContent m))
    | None => 0
    end in
  if currentLength + msgLength <=? targetLength
  then ({[Index imp]} ∪ selected, currentLength + msgLength)
  else acc.

(** The chosen indices in ascending order ([sort.Ints]). *)
Definition selectImportantMessages (messages : list Message)
    (importance : list MessageImportance) (targetLength : Z) : list nat :=
  let selected := (fold_left (selectStep messages targetLength) importance (∅, 0)).1 in
  merge_sort Nat.le (elements selected).

Definition isImportantWord (word : string) : bool :=
  let stopWords : gset string :=
    list_to_set [ "the"; "and"; "or"; "but";
                  "in"; "on"; "at"; "to";
                  "for"; "of"; "with"; "by";
                  "是"; "的"; "了"; "在";
                  "有"; "我"; "你"; "他" ] in
  negb (bool_decide (word ∈ stopWords)).

(** [topics[word]++]. *)
Definition countWord (topics : gmap string Z) (word : string) : gmap string Z :=
  <[word := default 0 (topics !! word) + 1]> topics.

Definition countMessage `{GoStrings} (topics : gmap string Z) (msg : Message)
  : gmap string Z :=
  let content := getMessageContent (MsgContent msg) in
  let words := Fields (ToLower content) in
  fold_left (fun topics word =>
               if (len word >? 3) && isImportantWord word
               then countWord topics word else topics)
            words topics.

Definition countTopics `{GoStrings} (messages : list Message) : gmap string Z :=
  fold_left countMessage messages ∅.

(** The topics seen at least twice, after [sort.Strings] (which makes the
    order of the [range] over the map irrelevant) and the cut to 3. *)
Definition topTopics `{GoStrings} (messages : list Message) : list string :=
  let frequent :=
    omap (fun kv : string * Z => if kv.2 >=? 2 then Some kv.1 else None)
         (map_to_list (countTopics messages)) in
  let frequent := sortStrings frequent in
  if Z.of_nat (List.length frequent) >? 3 then take 3 frequent else frequent.

Definition generateSimpleSummary `{GoStrings} (messages : list Message) : string :=
  if Z.of_nat (List.length messages) =? 0 then ""
  else
    let top := topTopics messages in
    if Z.of_nat (List.length top) =? 0
    then ("跳过了" ++ pretty (Z.of_nat (List.length messages)) ++ "条消息")%string
    else ("跳过了" ++ pretty (Z.of_nat (List.length messages)) ++ "条关于"
          ++ Join top "、" ++ "的消息")%string.

Definition generateCompressionKey `{Hashing} (messages : list Message) : string :=
  ("compress_" ++ md5hex (marshalMessages messages))%string.

Definition generateSummaryKey `{Hashing} (messages : list Message) : string :=
  ("summary_" ++ md5hex (marshalMessages messages))%string.

(** [createSummary]: the summary and the summary cache afterwards. *)
Definition createSummary `{Hashing} `{GoStrings}
    (summaries : gmap string string) (messages : list Message)
  : string * gmap string string :=
  if Z.of_nat (List.length messages) =? 0 then ("", summaries)
  else
    let summaryKey := generateSummaryKey messages in
    match summaries !! summaryKey with
    | Some summary => (summary, summaries)
    | None =>
        let summary := generateSimpleSummary messages in
        (summary, <[summaryKey := summary]> summaries)
    end.

Definition placeholder (summary : string) : Message :=
  {| Role := "system";
     MsgContent := ContentString ("[摘要: " ++ summary ++ "]")%string |}.

(** The variables of the last loop of [ensureEssentialMessages]. *)
Record build := {
  finalMessages : list Message;
  lastIncluded : Z;
  summaries : gmap string string
}.

(** One iteration, on message [i]. *)
Definition buildStep `{Hashing} `{GoStrings} (messages : list Message)
    (selected : gset nat) (st : build) (i : nat) (msg : Message) : build :=
  if bool_decide (i ∈ selected) then
    let '(final, cache) :=
      if Z.of_nat i >? lastIncluded st + 1 then
        let skipped :=
          take (i - Z.to_nat (lastIncluded st + 1))
               (drop (Z.to_nat (lastIncluded st + 1)) messages) in
        let '(summary, cache) := createSummary (summaries st) skipped in
        if String.eqb summary "" then (finalMessages st, cache)
        else (finalMessages st ++ [placeholder summary], cache)
      else (finalMessages st, summaries st) in
    {| finalMessages := final ++ [msg];
       lastIncluded := Z.of_nat i;
       summaries := cache |}
  else st.

Fixpoint buildFrom `{Hashing} `{GoStrings} (messages : list Message)
    (selected : gset nat) (st : build) (i : nat) (rest : list Message)
  : build :=
  match rest with
  | [] => st
  | msg :: rest' =>
      buildFrom messages selected (buildStep messages selected st i msg)
                (S i) rest'
  end.

(** The indices of the messages of role [system]. *)
Definition systemIndices (messages : list Message) : gset nat :=
  list_to_set
    (omap (fun im : nat * Message =>
             if String.eqb (Role im.2) "system" then Some im.1 else None)
          (imap pair messages)).

(** The map [selected] before the last loop. *)
Definition essential (messages : list Message) (selectedIndices : list nat)
  : gset nat :=
  let selected : gset nat := list_to_set selectedIndices in
  let selected := systemIndices messages ∪ selected in
  if Z.of_nat (List.length messages) >=? 2
  then {[ (List.length messages - 1)%nat ]}
       ∪ ({[ (List.length messages - 2)%nat ]} ∪ selected)
  else selected.

Definition ensureEssentialMessages `{Hashing} `{GoStrings}
    (summaries0 : gmap string string) (messages : list Message)
    (selectedIndices : list nat) : list Message * gmap string string :=
  let st :=
    buildFrom messages (essential messages selectedIndices)
      {| finalMessages := []; lastIncluded := -1; summaries := summaries0 |}
      0 messages in
  (finalMessages st, summaries st).

Definition performCompression `{Hashing} `{GoStrings} `{Sorting}
    (cc : t) (messages : list Message) : list Message * gmap string string :=
  if Z.of_nat (List.length messages) <=? 2 then (messages, summaryCache cc)
  else
    let importance := calculateMessageImportance messages in
    let importance := sortByScore importance in
    let targetLength :=
      toInt (Qc_of_Z (calculateTotalLength messages) * compressionRatio cc)%Qc in
    let selectedMessages :=
      selectImportantMessages messages importance targetLength in
    ensureEssentialMessages (summaryCache cc) messages selectedMessages.

Definition withMessages (req : AnthropicRequest) (msgs : list Message)
  : AnthropicRequest :=
  {| Model := Model req; MaxTokens := MaxTokens req; Messages := msgs;
     System := System req; Tools := Tools req; Stream := Stream req;
     Temperature := Temperature req; Metadata := Metadata req |}.

(** [CompressRequest]: the request returned and the compressor
    afterwards. *)
Definition CompressRequest `{Hashing} `{GoStrings} `{Sorting}
    (now : Z) (cc : t) (req : AnthropicRequest) : AnthropicRequest * t :=
  if Z.of_nat (List.length (Messages req)) <=? 2 then (req, cc)
  else
    let totalLength := calculateTotalLength (Messages req) in
    if totalLength <=? maxContextLength cc then (req, cc)
    else
      let cacheKey := generateCompressionKey (Messages req) in
      match compressionCache cc !! cacheKey with
      | Some compressed =>
          let compressed' :=
            {| OriginalMessages := OriginalMessages compressed;
               CompressedMessages := CompressedMessages compressed;
               Summary := Summary compressed;
               CompressionRatio := CompressionRatio compressed;
               CreatedAt := CreatedAt compressed;
               UsageCount := UsageCount compressed + 1 |} in
          (withMessages req (CompressedMessages compressed),
           {| compressionCache := <[cacheKey := compressed']> (compressionCache cc);
              summaryCache := summaryCache cc;
              maxContextLength := maxContextLength cc;
              compressionRatio := compressionRatio cc |})
      | None =>
          let '(compressedMessages, summaries') :=
            performCompression cc (Messages req) in
          (withMessages req compressedMessages,
           {| compressionCache :=
                <[cacheKey :=
                    {| OriginalMessages := Messages req;
                       CompressedMessages := compressedMessages;
                       Summary := "";
                       CompressionRatio :=
                         (Qc_of_Z (calculateTotalLength compressedMessages)
                          / Qc_of_Z totalLength)%Qc;
                       CreatedAt := now;
                       UsageCount := 1 |}]> (compressionCache cc);
              summaryCache := summaries';
              maxContextLength := maxContextLength cc;
              compressionRatio := compressionRatio cc |})
      end.

(** *** Vocabulary of the statements about summaries *)





(** The topics seen at least twice, as the loop over the map collects
    them. *)
Definition frequent `{GoStrings} (run : list Message) : list string :=
  omap (fun kv : string * Z => if kv.2 >=? 2 then Some kv.1 else None)
       (map_to_list (countTopics run)).


End Compressor.

(** ** The summary of the specification

    "Top-3 most frequent non-stopword terms across the excluded run": the
    terms are the lower-cased words of the run outside the stopword list;
    a term is among the three most frequent, however ties are broken, when
    it occurs and fewer than three other terms occur at least as often. *)
Module CompressorSpec.

Definition nonStopwordTerms `{GoStrings} (run : list Message) : list string :=
  flat_map
    (fun msg : Message =>
       filter (fun w => Is_true (Compressor.isImportantWord w))
              (Fields (ToLower (getMessageContent (MsgContent msg)))))
    run.

Definition frequency `{GoStrings} (run : list Message) (w : string) : nat :=
  List.length (filter (fun w' => w' = w) (nonStopwordTerms run)).

Definition amongTop3 `{GoStrings} (run : list Message) (w : string) : bool :=
  Nat.ltb 0 (frequency run w)
  && Nat.ltb
       (List.length
          (filter (fun w' => w' <> w /\ (frequency run w <= frequency run w')%nat)
                  (remove_dups (nonStopwordTerms run))))
       3.


End CompressorSpec.

(** ** Stand-ins for the library functions, to run the engine on examples

    The digest of the examples is injective: the "digest" is the encoded
    text itself behind a one-letter tag, and the encoding lists the fields
    between separators. [Fields] and [ToLower] are the ASCII parts of the
    Go functions, with which they agree on ASCII texts. The sort of the
    examples is a stable insertion sort by descending score. *)
Module Demo.

Definition isSpace (c : ascii) : bool :=
  let n := nat_of_ascii c in
  (Nat.leb 9 n && Nat.leb n 13) || Nat.eqb n 32.

Fixpoint fieldsFrom (s : string) (word : string) : list string :=
  match s with
  | EmptyString => if String.eqb word "" then [] else [word]
  | String c s' =>
      if isSpace c
      then (if String.eqb word "" then fieldsFrom s' ""
            else word :: fieldsFrom s' "")
      else fieldsFrom s' (word ++ String c "")%string
  end.

Definition lowerChar (c : ascii) : ascii :=
  let n := nat_of_ascii c in
  if Nat.leb 65 n && Nat.leb n 90 then ascii_of_nat (n + 32) else c.

Fixpoint lower (s : string) : string :=
  match s with
  | EmptyString => EmptyString
  | String c s' => String (lowerChar c) (lower s')
  end.

Definition strings : GoStrings :=
  {| Fields s := fieldsFrom s ""; ToLower := lower |}.

Fixpoint insertByScore (x : Compressor.MessageImportance)
    (l : list Compressor.MessageImportance)
  : list Compressor.MessageImportance :=
  match l with
  | [] => [x]
  | y :: l' =>
      if bool_decide (Compressor.Score y < Compressor.Score x)%Qc
      then x :: l else y :: insertByScore x l'
  end.

Definition sorting : Compressor.Sorting :=
  {| Compressor.sortByScore l := foldr insertByScore [] l |}.

Definition showMessage (m : Message) : string :=
  (Role m ++ ":" ++ getMessageContent (MsgContent m))%string.

Definition showMessages (ms : list Message) : string :=
  String.concat ";" (map showMessage ms).

#[export] Instance ContentBlock_eq_dec : EqDecision ContentBlock.
Proof. solve_decision. Defined.

#[export] Instance Content_eq_dec : EqDecision Content.
Proof. solve_decision. Defined.

#[export] Instance Message_eq_dec : EqDecision AnthropicRequestMessage.
Proof. solve_decision. Defined.

#[export] Instance ContentBlock_countable : Countable ContentBlock :=
  inj_countable'
    (fun b => match b with
              | TextBlock t => inl (inl t)
              | ToolResultBlock c => inl (inr c)
              | OtherBlock => inr ()
              end)
    (fun x => match x with
              | inl (inl t) => TextBlock t
              | inl (inr c) => ToolResultBlock c
              | inr _ => OtherBlock
              end)
    (fun b => match b with
              | TextBlock _ | ToolResultBlock _ | OtherBlock => eq_refl
              end).

#[export] Instance Content_countable : Countable Content :=
  inj_countable'
    (fun c => match c with
              | ContentString v => inl (inl v)
              | ContentBlocks v => inl (inr v)
              | ContentOther => inr ()
              end)
    (fun x => match x with
              | inl (inl v) => ContentString v
              | inl (inr v) => ContentBlocks v
              | inr _ => ContentOther
              end)
    (fun c => match c with
              | ContentString _ | ContentBlocks _ | ContentOther => eq_refl
              end).

#[export] Instance Message_countable : Countable AnthropicRequestMessage :=
  inj_countable'
    (fun m => (Role m, MsgContent m))
    (fun x => {| Role := x.1; MsgContent := x.2 |})
    (fun m => match m with Build_AnthropicRequestMessage _ _ => eq_refl end).

(** The encoding of a message sequence is its number in an enumeration
    of all sequences, in decimal. *)
Definition hashing : Hashing := {|
  marshalKey model msgs maxTokens :=
    Some (model ++ "|" ++ showMessages msgs ++ "|" ++ pretty maxTokens)%string;
  marshalRequest req :=
    (Model req ++ "|" ++ showMessages (Messages req) ++ "|"
     ++ pretty (MaxTokens req) ++ "|" ++ (if Stream req then "s" else "n"))%string;
  marshalMergeKey model count lastUser :=
    (model ++ "|" ++ pretty count ++ "|" ++ lastUser)%string;
  marshalMessages msgs := pretty (encode msgs);
  md5hex data := ("#" ++ data)%string
|}.

Definition userMsg (text : string) : Message :=
  {| Role := "user"; MsgContent := ContentString text |}.

Definition assistantMsg (text : string) : Message :=
  {| Role := "assistant"; MsgContent := ContentString text |}.

Definition systemMsg (text : string) : Message :=
  {| Role := "system"; MsgContent := ContentString text |}.

(** A non-streaming request with only the three hashed fields set. *)
Definition request (model : string) (maxTokens : Z) (msgs : list Message)
  : AnthropicRequest :=
  {| Model := model; MaxTokens := maxTokens; Messages := msgs;
     System := []; Tools := []; Stream := false;
     Temperature := None; Metadata := ∅ |}.

(** *** Example data *)

(** A text of [n] bytes [x]. *)
Definition xs (n : nat) : string := string_of_list_ascii (repeat "x"%char n).

(** A response cache of capacity 2 that is full: ["a"] was read three
    times, ["b"] once. *)
Definition fullCache : ResponseCache.t :=
  {| ResponseCache.cache :=
       <["a" := {| ResponseCache.Response := Some "ra";
                   ResponseCache.CreatedAt := 5;
                   ResponseCache.AccessCount := 3 |}]>
       (<["b" := {| ResponseCache.Response := Some "rb";
                    ResponseCache.CreatedAt := 7;
                    ResponseCache.AccessCount := 1 |}]> ∅);
     ResponseCache.maxSize := 2;
     ResponseCache.ttl := 10 * ResponseCache.minute |}.

(** Two requests for the same model, messages and max-tokens, one plain,
    one with a system prompt, a tool, a temperature and metadata. *)
Definition plainRequest : AnthropicRequest := request "m1" 100 [userMsg "ping"].

Definition dressedRequest : AnthropicRequest :=
  {| Model := "m1"; MaxTokens := 100; Messages := [userMsg "ping"];
     System := [{| SysType := "text"; SysText := "answer in French" |}];
     Tools := [{| ToolName := "search"; ToolDescription := "web search";
                  InputSchema := ∅ |}];
     Stream := false;
     Temperature := Some (Qc_of_Z 1);
     Metadata := {["user_id" := "u42"]} |}.

(** A deduplicator that holds the group of a completed request
    ["m1", "how do I sort a list"]. *)
Definition sortQuestion : AnthropicRequest :=
  request "m1" 100 [userMsg "how do I sort a list"].

Definition sortGroup : Dedup.MergeableGroup :=
  {| Dedup.BaseRequest := sortQuestion;
     Dedup.Variations := [sortQuestion];
     Dedup.LastMerged := 0;
     Dedup.MergeCount := 1;
     Dedup.ResponseCache := Some "use sort" |}.

Definition withSortGroup : Dedup.t :=
  {| Dedup.activeRequests := ∅; Dedup.recentRequests := ∅;
     Dedup.mergeableGroups :=
       {[ @Dedup.generateMergeKey hashing sortQuestion := sortGroup ]};
     Dedup.objects := ∅; Dedup.channels := ∅; Dedup.executions := ∅;
     Dedup.nextName := 0 |}.

(** The same question asked again with another token budget. *)
Definition sortQuestionAgain : AnthropicRequest :=
  request "m1" 200 [userMsg "how do I sort a list"].

(** A compressor with a budget of 10 bytes, and a conversation of 5
    messages over it. *)
Definition tightCompressor : Compressor.t :=
  {| Compressor.compressionCache := ∅; Compressor.summaryCache := ∅;
     Compressor.maxContextLength := 10;
     Compressor.compressionRatio := (Qc_of_Z 6 / Qc_of_Z 10)%Qc |}.

Definition talk : list Message :=
  [ systemMsg "be terse";
    userMsg "zulu zulu zulu alpha alpha bravo bravo charlie charlie";
    assistantMsg "fine";
    userMsg "next";
    assistantMsg "done" ].


End Demo.

(** ** Further parts of the code *)

(** *** Response cache: the periodic sweep *)

Module ResponseCacheSweep.
Import ResponseCache.

(** One iteration of the loop of [cleanup]. *)
Definition sweepStep (now ttl : Z) (c : gmap string CacheEntry)
    (kv : string * CacheEntry) : gmap string CacheEntry :=
  let '(key, entry) := kv in
  if now - CreatedAt entry >? ttl then delete key c else c.

(** [cleanup]; [visit] is the order in which [range rc.cache] yields the
    entries. *)
Definition cleanup (visit : list (string * CacheEntry)) (now : Z) (rc : t) : t :=
  {| cache := fold_left (sweepStep now (ttl rc)) visit (cache rc);
     maxSize := maxSize rc;
     ttl := ttl rc |}.

End ResponseCacheSweep.

(** *** Predictive cache: prefetched entries, patterns, the sweep *)

Module PredictiveCacheMore.
Import PredictiveCache.

Definition setPrefetchCache `{Hashing} (now : Z) (pc : t)
    (req : AnthropicRequest) (response : any) (confidence : Qc) : t :=
  {| cache := <[generateKey req :=
                  {| Response := response; CreatedAt := now;
                     AccessCount := 0; LastAccess := now;
                     Confidence := confidence; IsPrefetch := true |}]> (cache pc);
     similarityThreshold := similarityThreshold pc |}.

(** The set [set1] (or [set2]) of [calculateTextSimilarity]: the words
    of a text. *)
Definition words `{GoStrings} (text : string) : gset string :=
  list_to_set (Fields text).

(** The loop over the cache of [analyzeAndOptimizePatterns]. *)
Definition sweepStep (now : Z) (c : gmap string PredictiveCacheEntry)
    (kv : string * PredictiveCacheEntry) : gmap string PredictiveCacheEntry :=
  let '(key, entry) := kv in
  if isExpired now entry then delete key c else c.

Definition sweepCache (visit : list (string * PredictiveCacheEntry)) (now : Z)
    (pc : t) : t :=
  {| cache := fold_left (sweepStep now) visit (cache pc);
     similarityThreshold := similarityThreshold pc |}.

Record RequestPattern := {
  BaseRequest : AnthropicRequest;
  Variations : list AnthropicRequest;
  Frequency : Z;
  LastSeen : Z;
  NextPredicted : Z;
  SuccessRate : Qc
}.

Definition hour : Z := 60 * minute.

(** [json.Marshal] on the struct
    [{model, message_count, has_system, avg_length}] of
    [generatePatternKey]. *)
Class PatternHashing := {
  marshalFeatures : string -> Z -> bool -> Z -> string
}.

Definition generatePatternKey `{Hashing} `{PatternHashing}
    (req : AnthropicRequest) : string :=
  let messageCount := Z.of_nat (List.length (Messages req)) in
  let hasSystem :=
    match Messages req with
    | m :: _ => String.eqb (Role m) "system"
    | [] => false
    end in
  let totalLength :=
    fold_left (fun total (msg : Message) =>
                 total + len (getMessageContent (MsgContent msg)))
              (Messages req) 0 in
  let avgLength :=
    if Z.of_nat (List.length (Messages req)) >? 0
    then Z.quot totalLength (Z.of_nat (List.length (Messages req)))
    else 0 in
  sliceTo 16 (md5hex (marshalFeatures (Model req) messageCount hasSystem avgLength)).

(** [learnPattern], on the map of patterns. *)
Definition learnPattern `{Hashing} `{PatternHashing} (now : Z)
    (patterns : gmap string RequestPattern) (req : AnthropicRequest)
  : gmap string RequestPattern :=
  let patternKey := generatePatternKey req in
  match patterns !! patternKey with
  | Some pattern =>
      let variations := Variations pattern ++ [req] in
      let variations :=
        if Z.of_nat (List.length variations) >? 10 then drop 1 variations
        else variations in
      <[patternKey := {| BaseRequest := BaseRequest pattern;
                         Variations := variations;
                         Frequency := Frequency pattern + 1;
                         LastSeen := now;
                         NextPredicted := NextPredicted pattern;
                         SuccessRate := SuccessRate pattern |}]> patterns
  | None =>
      <[patternKey := {| BaseRequest := req;
                         Variations := [req];
                         Frequency := 1;
                         LastSeen := now;
                         NextPredicted := now + hour;
                         SuccessRate := 1%Qc |}]> patterns
  end.

(** The patterns after a sequence of observations, each with its time. *)
Definition learnAll `{Hashing} `{PatternHashing}
    (patterns : gmap string RequestPattern)
    (seen : list (Z * AnthropicRequest)) : gmap string RequestPattern :=
  fold_left (fun ps tr => learnPattern tr.1 ps tr.2) seen patterns.

(** [calculatePredictionConfidence]; [time.Since(...).Hours()] is the
    number of nanoseconds over those of an hour. *)
Definition calculatePredictionConfidence `{GoStrings} (now : Z)
    (current predicted : AnthropicRequest) (pattern : RequestPattern) : Qc :=
  let frequencyScore := (Qc_of_Z (Frequency pattern) / Qc_of_Z 100)%Qc in
  let frequencyScore :=
    if bool_decide (1 < frequencyScore)%Qc then 1%Qc else frequencyScore in
  let hours := (Qc_of_Z (now - LastSeen pattern) / Qc_of_Z hour)%Qc in
  let timeScore := (1 - hours / Qc_of_Z 24)%Qc in
  let timeScore := if bool_decide (timeScore < 0)%Qc then 0%Qc else timeScore in
  let similarityScore := calculateSimilarity current predicted in
  ((frequencyScore * (Qc_of_Z 4 / Qc_of_Z 10)
    + timeScore * (Qc_of_Z 3 / Qc_of_Z 10)
    + similarityScore * (Qc_of_Z 3 / Qc_of_Z 10)) * SuccessRate pattern)%Qc.

End PredictiveCacheMore.

(** *** Deduplicator: the timeout sweep, reachable states *)

Module DedupSweep.
Import Dedup.

Definition timeoutResp : DedupeResponse :=
  {| Response := None; Error := Some "请求超时";
     FromCache := false; Merged := false |}.

(** One iteration of the loop of [cleanup] over the active requests:
    [None] when one of its sends does not go through. *)
Definition expireStep (now : Z) (st : option t) (hp : string * nat) : option t :=
  rd ← st;
  match objects rd !! hp.2 with
  | Some active =>
      if now - StartTime active >? 2 * minute then
        chans ← deliver (ResponseCh active) timeoutResp (channels rd);
        chans ← fanOut (Subscribers active) timeoutResp chans;
        Some {| activeRequests := delete hp.1 (activeRequests rd);
                recentRequests := recentRequests rd;
                mergeableGroups := mergeableGroups rd;
                objects := objects rd;
                channels := chans;
                executions := executions rd;
                nextName := nextName rd |}
      else Some rd
  | None => Some rd
  end.

(** [cleanup], under the lock; [visit] is the order in which
    [range rd.activeRequests] yields the records. The two loops before it
    delete the recent records older than 10 minutes and the groups not
    merged for 30 minutes. *)
Definition cleanup (visit : list (string * nat)) (now : Z) (rd : t) : option t :=
  let recent :=
    filter (fun kv : string * RecentRequest =>
              ~ (now - Timestamp kv.2 > 10 * minute)) (recentRequests rd) in
  let groups :=
    filter (fun kv : string * MergeableGroup =>
              ~ (now - LastMerged kv.2 > 30 * minute)) (mergeableGroups rd) in
  fold_left (expireStep now) visit
    (Some {| activeRequests := activeRequests rd;
             recentRequests := recent;
             mergeableGroups := groups;
             objects := objects rd;
             channels := channels rd;
             executions := executions rd;
             nextName := nextName rd |}).

(** The channels of a record: the primary one and the subscribers. *)
Definition waiters (a : ActiveRequest) : list nat :=
  ResponseCh a :: Subscribers a.

(** The states that calls of [ProcessRequest] and steps of
    [executeRequest] lead to from the initial deduplicator, in any
    interleaving, without the sweep. *)
Definition reachable `{Hashing} (rd : t) : Prop :=
  exists steps, run requestDeduplicator steps = Some rd.

(** What holds in every reachable state: a record carries the hash of
    its request; the active records and the executions are the same
    records, one per hash; the channels of an
    execution still in flight are distinct, empty and open; no channel
    waits on two records; names come from the counter. *)
Record consistent `{Hashing} (rd : t) : Prop := {
  record_hash : forall p a, objects rd !! p = Some a ->
    RequestHash a = generateRequestHash (Request a);
  active_object : forall h p, activeRequests rd !! h = Some p ->
    exists a, objects rd !! p = Some a /\ RequestHash a = h /\
              is_Some (executions rd !! p);
  execution_active : forall p g, executions rd !! p = Some g ->
    exists a, objects rd !! p = Some a /\
              activeRequests rd !! RequestHash a = Some p;
  inflight_channels : forall p a, objects rd !! p = Some a ->
    executions rd !! p = Some InFlight ->
    NoDup (waiters a) /\
    forall ch, ch ∈ waiters a -> channels rd !! ch = Some emptyChannel;
  names_bounded : forall p a, objects rd !! p = Some a ->
    (p < nextName rd)%nat /\
    forall ch, ch ∈ waiters a -> (ch < nextName rd)%nat;
  waiters_disjoint : forall p q a b ch, p <> q ->
    objects rd !! p = Some a -> objects rd !! q = Some b ->
    ch ∈ waiters a -> ch ∉ waiters b
}.

End DedupSweep.

(** *** Context compressor: what a compression keeps, the cache sweep *)

Module CompressorSweep.
Import Compressor.

(** The messages of [rest], which starts at index [i], whose index is in
    [selected], in their order. *)
Fixpoint keptFrom (selected : gset nat) (i : nat) (rest : list Message)
  : list Message :=
  match rest with
  | [] => []
  | msg :: rest' =>
      if bool_decide (i ∈ selected)
      then msg :: keptFrom selected (S i) rest'
      else keptFrom selected (S i) rest'
  end.

Definition hour : Z := 3600 * 1000000000.

(** One iteration of the loop of [CleanupCache] over the compression
    cache. *)
Definition dropOld (now : Z) (cache : gmap string CompressedContext)
    (kv : string * CompressedContext) : gmap string CompressedContext :=
  if now - CreatedAt kv.2 >? hour then delete kv.1 cache else cache.

(** The loop over the summary cache, with [count] deletions made so far;
    [keys] is what the [range] has not visited yet. The bound
    [len(cc.summaryCache)/2] is read after the deletion, in every
    iteration. *)
Fixpoint trimLoop (keys : list string) (count : Z)
    (summaries : gmap string string) : gmap string string :=
  match keys with
  | [] => summaries
  | key :: rest =>
      let summaries := delete key summaries in
      let count := count + 1 in
      if count >=? Z.of_nat (size summaries) / 2 then summaries
      else trimLoop rest count summaries
  end.

(** [CleanupCache]; [visit] and [keys] are the orders in which the two
    [range] loops yield the entries. *)
Definition CleanupCache (visit : list (string * CompressedContext))
    (keys : list string) (now : Z) (cc : t) : t :=
  {| compressionCache := fold_left (dropOld now) visit (compressionCache cc);
     summaryCache :=
       if Z.of_nat (size (summaryCache cc)) >? 1000
       then trimLoop keys 0 (summaryCache cc)
       else summaryCache cc;
     maxContextLength := maxContextLength cc;
     compressionRatio := compressionRatio cc |}.

End CompressorSweep.

(** *** Request batcher: the queue *)

Module Batcher.

(** A [chan BatchResponse] is the number of the [make] that created
    it. *)
Record BatchedRequest := {
  Request : AnthropicRequest;
  ResponseCh : nat;
  CreatedAt : Z;
  RequestHash : string
}.

(** The batcher; [batchTimer] tells whether the timer is set (not nil),
    [made] counts the channels made and [started] the goroutines
    [go rb.processBatch()] started by [AddRequest]. *)
Record t := {
  pendingReqs : gmap string BatchedRequest;
  batchTimer : bool;
  batchSize : Z;
  batchTimeout : Z;
  made : nat;
  started : nat
}.

Definition second : Z := 1000000000.


(** The error of [json.Marshal] is dropped: the hash is then that of no
    data. *)
Definition generateRequestHash `{Hashing} (req : AnthropicRequest) : string :=
  if Stream req then ""
  else md5hex (default "" (marshalKey (Model req) (Messages req) (MaxTokens req))).

(** [AddRequest], under the lock: the channel returned and the batcher
    afterwards. *)
Definition AddRequest `{Hashing} (now : Z) (rb : t) (req : AnthropicRequest)
  : nat * t :=
  let reqHash := generateRequestHash req in
  let reuse :=
    match pendingReqs rb !! reqHash with
    | Some existingReq =>
        if now - CreatedAt existingReq <? 5 * second
        then Some (ResponseCh existingReq) else None
    | None => None
    end in
  match reuse with
  | Some ch => (ch, rb)
  | None =>
      let batchedReq :=
        {| Request := req; ResponseCh := made rb; CreatedAt := now;
           RequestHash := reqHash |} in
      let pending := <[reqHash := batchedReq]> (pendingReqs rb) in
      let full := Z.of_nat (size pending) >=? batchSize rb in
      (made rb,
       {| pendingReqs := pending;
          batchTimer := if full then batchTimer rb else true;
          batchSize := batchSize rb;
          batchTimeout := batchTimeout rb;
          made := S (made rb);
          started := if full then S (started rb) else started rb |})
  end.

(** [processBatch]: the batch handed to [executeBatch] ([None] when the
    queue is empty) and the batcher afterwards. *)
Definition processBatch (rb : t) : option (gmap string BatchedRequest) * t :=
  if Z.of_nat (size (pendingReqs rb)) =? 0 then (None, rb)
  else
    (Some (pendingReqs rb),
     {| pendingReqs := ∅; batchTimer := false;
        batchSize := batchSize rb; batchTimeout := batchTimeout rb;
        made := made rb; started := started rb |}).

End Batcher.

(** *** Further example data *)

Module Examples.

(** [Demo.plainRequest] as a streaming request. *)
Definition streamingRequest : AnthropicRequest :=
  {| Model := "m1"; MaxTokens := 100; Messages := [Demo.userMsg "ping"];
     System := []; Tools := []; Stream := true;
     Temperature := None; Metadata := ∅ |}.


(** A response cache of capacity 2 that is full: the answer to
    [Demo.plainRequest], written at 5 and read three times, and an entry
    ["b"], written at 7 and read once. *)
Definition pingCache : ResponseCache.t :=
  {| ResponseCache.cache :=
       <[@ResponseCache.generateCacheKey Demo.hashing Demo.plainRequest :=
           {| ResponseCache.Response := Some "pong";
              ResponseCache.CreatedAt := 5;
              ResponseCache.AccessCount := 3 |}]>
       (<["b" := {| ResponseCache.Response := Some "rb";
                    ResponseCache.CreatedAt := 7;
                    ResponseCache.AccessCount := 1 |}]> ∅);
     ResponseCache.maxSize := 2;
     ResponseCache.ttl := 10 * ResponseCache.minute |}.

(** A stand-in for [json.Marshal] on the features of a pattern. *)
Definition patternHashing : PredictiveCacheMore.PatternHashing :=
  {| PredictiveCacheMore.marshalFeatures model count hasSystem avg :=
       (model ++ "|" ++ pretty count ++ "|"
        ++ (if hasSystem : bool then "s" else "n") ++ "|" ++ pretty avg)%string |}.

(** A pattern seen 40 times, the last time at 0, that always
    succeeded. *)
Definition pattern : PredictiveCacheMore.RequestPattern :=
  {| PredictiveCacheMore.BaseRequest := Demo.plainRequest;
     PredictiveCacheMore.Variations := [Demo.plainRequest];
     PredictiveCacheMore.Frequency := 40;
     PredictiveCacheMore.LastSeen := 0;
     PredictiveCacheMore.NextPredicted := PredictiveCacheMore.hour;
     PredictiveCacheMore.SuccessRate := 1%Qc |}.

(** A compressor whose summary cache holds 1001 entries. *)
Definition crowded : Compressor.t :=
  {| Compressor.compressionCache := ∅;
     Compressor.summaryCache :=
       list_to_map ((fun i : nat => (pretty i, "s")) <$> seq 0 1001);
     Compressor.maxContextLength := 4000;
     Compressor.compressionRatio := (Qc_of_Z 6 / Qc_of_Z 10)%Qc |}.

End Examples.

(** * Properties *)

Module KernelFacts.
Import Kernel.

Lemma minInt_min a b : minInt a b = Z.min a b.
Proof. unfold minInt. destruct (Z.ltb_spec a b); lia. Qed.

Lemma lev_0 a b j : lev a b 0 j = Z.of_nat j.
Proof. reflexivity. Qed.

Lemma lev_S_0 a b i : lev a b (S i) 0 = Z.of_nat (S i).
Proof. reflexivity. Qed.

Lemma lev_S_S a b i j :
  lev a b (S i) (S j) =
  Z.min (Z.min (lev a b i (S j) + 1) (lev a b (S i) j + 1))
        (lev a b i j + cost (nth i a Ascii.zero) (nth j b Ascii.zero)).
Proof. reflexivity. Qed.

Lemma lev_nonneg a b i j : 0 <= lev a b i j.
Proof.
  revert j. induction i as [|i IHi]; intros j; [rewrite lev_0; lia|].
  induction j as [|j IHj]; [rewrite lev_S_0; lia|].
  rewrite lev_S_S. pose proof (IHi (S j)). pose proof (IHi j).
  unfold cost. destruct (Ascii.eqb _ _); lia.
Qed.

(** One pass of the inner loop computes row [i+1] of the recurrence from
    row [i], from column [length p + 1] on. *)
Lemma fillRow_lev a b i : forall t p,
  b = p ++ t ->
  fillRow (nth i a Ascii.zero) t
    (map (lev a b i) (seq (List.length p) (S (List.length t))))
    (lev a b (S i) (List.length p))
  = map (lev a b (S i)) (seq (S (List.length p)) (List.length t)).
Proof.
  induction t as [|x t IH]; intros p Hb; [reflexivity|].
  cbn [List.length seq map fillRow].
  rewrite !minInt_min.
  assert (Hx : nth (List.length p) b Ascii.zero = x).
  { subst b. rewrite app_nth2 by lia. by rewrite Nat.sub_diag. }
  rewrite <- Hx, <- lev_S_S. f_equal.
  specialize (IH (p ++ [x])).
  rewrite length_app in IH. cbn [List.length] in IH.
  replace (List.length p + 1)%nat with (S (List.length p)) in IH by lia.
  apply IH. subst b. by rewrite <- app_assoc.
Qed.

Lemma nextRow_lev a b i :
  nextRow (Z.of_nat (S i)) (nth i a Ascii.zero) b
    (map (lev a b i) (seq 0 (S (List.length b))))
  = map (lev a b (S i)) (seq 0 (S (List.length b))).
Proof.
  unfold nextRow. cbn [seq map]. rewrite lev_S_0. f_equal.
  rewrite <- (lev_S_0 a b i). apply (fillRow_lev a b i b []). reflexivity.
Qed.

Lemma fillRows_lev a b : forall s1 p,
  a = p ++ s1 ->
  fillRows s1 b (Z.of_nat (S (List.length p)))
    (map (lev a b (List.length p)) (seq 0 (S (List.length b))))
  = map (lev a b (List.length a)) (seq 0 (S (List.length b))).
Proof.
  induction s1 as [|c s1 IH]; intros p Ha.
  - subst a. by rewrite app_nil_r.
  - cbn [fillRows].
    assert (Hc : nth (List.length p) a Ascii.zero = c).
    { subst a. rewrite app_nth2 by lia. by rewrite Nat.sub_diag. }
    rewrite <- Hc, nextRow_lev.
    specialize (IH (p ++ [c])).
    rewrite length_app in IH. cbn [List.length] in IH.
    replace (List.length p + 1)%nat with (S (List.length p)) in IH by lia.
    replace (Z.of_nat (S (List.length p)) + 1)
      with (Z.of_nat (S (S (List.length p)))) by lia.
    apply IH. subst a. by rewrite <- app_assoc.
Qed.

(** The filled matrix holds the Levenshtein recurrence in its corner. *)
Lemma matrixCorner_lev a b :
  matrixCorner a b = lev a b (List.length a) (List.length b).
Proof.
  unfold matrixCorner, row0.
  pose proof (fillRows_lev a b a [] eq_refl) as H.
  cbn [List.length] in H. change (Z.of_nat 1) with 1 in H.
  change (map Z.of_nat) with (map (lev a b 0)). rewrite H.
  rewrite seq_S, map_app. cbn [map]. by rewrite last_last.
Qed.

Lemma len_0 s : len s = 0 <-> s = "".
Proof. unfold len. destruct s; cbn; split; (done || lia). Qed.

Lemma len_nonneg s : 0 <= len s.
Proof. unfold len. lia. Qed.

Lemma eqb_empty s : String.eqb s "" = false <-> s <> "".
Proof. apply String.eqb_neq. Qed.

Lemma length_sliceTo n s :
  String.length (sliceTo n s) = Nat.min n (String.length s).
Proof.
  unfold sliceTo. revert n. induction s as [|c s IH]; intros [|n]; cbn; auto.
Qed.

Lemma len_truncate500 s : len (truncate500 s) = Z.min (len s) 500.
Proof.
  unfold truncate500. destruct (Z.gtb_spec (len s) 500) as [H|H]; [|lia].
  unfold len in *. rewrite length_sliceTo. lia.
Qed.

Lemma length_list_ascii s :
  Z.of_nat (List.length (list_ascii_of_string s)) = len s.
Proof. unfold len. f_equal. induction s; cbn; auto. Qed.

(** On two non-empty inputs the function is the distance of the
    specification. *)
Lemma levenshteinDistance_editDistance s1 s2 :
  s1 <> "" -> s2 <> "" ->
  levenshteinDistance s1 s2 = editDistance_spec s1 s2.
Proof.
  intros H1 H2. unfold levenshteinDistance, editDistance_spec.
  destruct (Z.eqb_spec (len s1) 0) as [E|_]; [by apply len_0 in E|].
  destruct (Z.eqb_spec (len s2) 0) as [E|_]; [by apply len_0 in E|].
  apply matrixCorner_lev.
Qed.

(** With an empty input the early return gives the full length of the
    other one, before any cut. *)
Lemma levenshteinDistance_empty_l s : levenshteinDistance "" s = len s.
Proof. reflexivity. Qed.

Lemma levenshteinDistance_empty_r s : levenshteinDistance s "" = len s.
Proof.
  unfold levenshteinDistance.
  destruct (Z.eqb_spec (len s) 0) as [E|_]; [|reflexivity].
  apply len_0 in E. by subst.
Qed.

Lemma editDistance_spec_empty_l s :
  editDistance_spec "" s = Z.min (len s) 500.
Proof.
  unfold editDistance_spec. cbn [truncate500 list_ascii_of_string List.length lev].
  change (truncate500 "") with "". cbn [list_ascii_of_string List.length lev].
  by rewrite length_list_ascii, len_truncate500.
Qed.

Lemma lev_i_0 a b i : lev a b i 0 = Z.of_nat i.
Proof. by destruct i. Qed.

Lemma editDistance_spec_empty_r s :
  editDistance_spec s "" = Z.min (len s) 500.
Proof.
  unfold editDistance_spec. change (truncate500 "") with "".
  cbn [list_ascii_of_string List.length].
  by rewrite lev_i_0, length_list_ascii, len_truncate500.
Qed.

Lemma lev_diag a i : lev a a i i = 0.
Proof.
  induction i as [|i IH]; [reflexivity|].
  rewrite lev_S_S, IH. unfold cost. rewrite Ascii.eqb_refl.
  pose proof (lev_nonneg a a i (S i)). pose proof (lev_nonneg a a (S i) i).
  lia.
Qed.

Lemma editDistance_spec_same s : editDistance_spec s s = 0.
Proof. apply lev_diag. Qed.

Lemma Qc_of_Z_div_same n : n <> 0 -> (Qc_of_Z n / Qc_of_Z n)%Qc = 1%Qc.
Proof.
  intros Hn. apply Qcmult_inv_r. rewrite <- Z2Qc_inj_0.
  intros E. by apply Z2Qc_inj in E.
Qed.

Lemma calculateTextSimilarity_same s : calculateTextSimilarity s s = 1%Qc.
Proof. unfold calculateTextSimilarity. by rewrite String.eqb_refl. Qed.

Lemma calculateTextSimilarity_empty_r s :
  s <> "" -> calculateTextSimilarity s "" = 0%Qc.
Proof.
  intros H. unfold calculateTextSimilarity.
  apply String.eqb_neq in H. by rewrite H.
Qed.

Lemma calculateTextSimilarity_empty_l s :
  s <> "" -> calculateTextSimilarity "" s = 0%Qc.
Proof.
  intros H. unfold calculateTextSimilarity.
  rewrite String.eqb_sym. apply String.eqb_neq in H. by rewrite H.
Qed.

(** The value on two different non-empty texts. *)
Lemma calculateTextSimilarity_ne a b :
  a <> b -> a <> "" -> b <> "" ->
  calculateTextSimilarity a b
  = (1 - Qc_of_Z (levenshteinDistance a b)
         / Qc_of_Z (max (len a) (len b)))%Qc.
Proof.
  intros Hab Ha Hb. unfold calculateTextSimilarity.
  apply String.eqb_neq in Hab. rewrite Hab.
  pose proof Ha as Ha'. pose proof Hb as Hb'.
  apply String.eqb_neq in Ha', Hb'. rewrite Ha', Hb'. cbn [orb].
  destruct (Z.eqb_spec (max (len a) (len b)) 0) as [E|_]; [|reflexivity].
  exfalso. apply Ha, len_0. unfold max in E.
  pose proof (len_nonneg a). pose proof (len_nonneg b). lia.
Qed.

(** C9, as stated, fails: with one empty argument and the other longer
    than 500 bytes the similarity is 0, while the formula over the
    distance of the cut inputs gives 1 - 500/501. *)
Lemma textSimilarity_formula_fails_on_long_vs_empty :
  calculateTextSimilarity "" (Demo.xs 501) <> similarity_formula "" (Demo.xs 501).
Proof.
  change (calculateTextSimilarity "" (Demo.xs 501)) with 0%Qc.
  unfold similarity_formula. rewrite editDistance_spec_empty_l.
  intros E. apply (f_equal this) in E. vm_compute in E. discriminate E.
Qed.

(** C9 (amended): the similarity is [1 - editDistance/max(len a, len b)],
    with the distance of the specification (Levenshtein after the cut to
    500 bytes), for all texts that are not both empty, provided that when
    one is empty the other has at most 500 bytes; the similarity of a
    text with itself is 1, of two empty texts 1, and it is 0 when exactly
    one argument is empty, whatever the length of the other. *)
Theorem textSimilarity_formula (a b s : string) :
  ((a = "" -> len b <= 500) -> (b = "" -> len a <= 500) ->
   ~ (a = "" /\ b = "") ->
   calculateTextSimilarity a b = similarity_formula a b) /\
  calculateTextSimilarity s s = 1%Qc /\
  calculateTextSimilarity "" "" = 1%Qc /\
  (s <> "" ->
   calculateTextSimilarity s "" = 0%Qc /\
   calculateTextSimilarity "" s = 0%Qc).
Proof.
  split; [|split; [apply calculateTextSimilarity_same|split; [reflexivity|]]].
  - intros Ha Hb Hne. unfold similarity_formula.
    destruct (decide (a = "")) as [->|Ha0].
    + assert (Hb0 : b <> "") by (intros ->; by apply Hne).
      rewrite calculateTextSimilarity_empty_l by done.
      rewrite editDistance_spec_empty_l. specialize (Ha eq_refl).
      assert (0 < len b).
      { pose proof (len_nonneg b). destruct (decide (len b = 0)) as [E|]; [|lia].
        by apply len_0 in E. }
      change (len "") with 0. unfold max.
      rewrite Z.min_l, Z.max_r by lia.
      rewrite Qc_of_Z_div_same by lia. ring.
    + destruct (decide (b = "")) as [->|Hb0].
      * rewrite calculateTextSimilarity_empty_r by done.
        rewrite editDistance_spec_empty_r. specialize (Hb eq_refl).
        assert (0 < len a).
        { pose proof (len_nonneg a). destruct (decide (len a = 0)) as [E|]; [|lia].
          by apply len_0 in E. }
        change (len "") with 0. unfold max.
        rewrite Z.min_l, Z.max_l by lia.
        rewrite Qc_of_Z_div_same by lia. ring.
      * destruct (decide (a = b)) as [->|Hab].
        -- rewrite calculateTextSimilarity_same, editDistance_spec_same.
           rewrite Z2Qc_inj_0. unfold Qcdiv. rewrite Qcmult_0_l. ring.
        -- rewrite calculateTextSimilarity_ne by done.
           by rewrite levenshteinDistance_editDistance.
  - intros Hs. split.
    + by apply calculateTextSimilarity_empty_r.
    + by apply calculateTextSimilarity_empty_l.
Qed.

Lemma textSimilarity_formula_witness :
  calculateTextSimilarity "kitten" "sitting"
  = (1 - Qc_of_Z 3 / Qc_of_Z 7)%Qc.
Proof.
  destruct (textSimilarity_formula "kitten" "sitting" "kitten") as [H _].
  rewrite H; [reflexivity|discriminate|discriminate|].
  intros [E _]. discriminate E.
Defined.

End KernelFacts.

Module ResponseCacheFacts.
Import ResponseCache.

Lemma scanStep_first kv :
  chosen [kv] (scanStep scan0 kv).
Proof.
  destruct kv as [k e]. cbn. exists e. repeat split; [by left|].
  intros k' e' Hin. apply list_elem_of_singleton in Hin.
  injection Hin as -> ->. right. lia.
Qed.

Lemma scanStep_chosen seen st kv :
  1 <= AccessCount kv.2 ->
  (forall k e, (k, e) ∈ seen -> 1 <= AccessCount e) ->
  chosen seen st -> chosen (seen ++ [kv]) (scanStep st kv).
Proof.
  destruct kv as [k e]. cbn [snd]. intros He Hseen (e0 & Hin & Ht & Hc & Hmin).
  pose proof (Hseen _ _ Hin) as He0.
  unfold scanStep.
  destruct (Z.eqb_spec (minAccessCount st) (-1)) as [E|_]; [lia|].
  cbn [orb].
  destruct (Z.ltb_spec (AccessCount e) (minAccessCount st)) as [Hlt|Hge];
    cbn [orb].
  - exists e. cbn. repeat split; [set_solver|].
    intros k' e' Hin'. apply elem_of_app in Hin' as [Hin'|Hin'].
    + destruct (Hmin _ _ Hin') as [?|[? ?]]; left; lia.
    + apply list_elem_of_singleton in Hin'. injection Hin' as -> ->.
      right. lia.
  - destruct (Z.eqb_spec (AccessCount e) (minAccessCount st)) as [Heq|Hne];
      cbn [andb].
    + destruct (Z.ltb_spec (CreatedAt e) (oldestTime st)) as [Hold|Hnew].
      * exists e. cbn. repeat split; [set_solver|].
        intros k' e' Hin'. apply elem_of_app in Hin' as [Hin'|Hin'].
        -- destruct (Hmin _ _ Hin') as [?|[? ?]]; [left; lia|right; lia].
        -- apply list_elem_of_singleton in Hin'. injection Hin' as -> ->.
           right. lia.
      * exists e0. repeat split; [set_solver|done|done|].
        intros k' e' Hin'. apply elem_of_app in Hin' as [Hin'|Hin'].
        -- by apply (Hmin k' e').
        -- apply list_elem_of_singleton in Hin'. injection Hin' as -> ->.
           right. lia.
    + exists e0. repeat split; [set_solver|done|done|].
      intros k' e' Hin'. apply elem_of_app in Hin' as [Hin'|Hin'].
      * by apply (Hmin k' e').
      * apply list_elem_of_singleton in Hin'. injection Hin' as -> ->.
        left. lia.
Qed.

Lemma fold_scan_chosen l : forall seen st,
  (forall k e, (k, e) ∈ seen ++ l -> 1 <= AccessCount e) ->
  chosen seen st -> chosen (seen ++ l) (fold_left scanStep l st).
Proof.
  induction l as [|kv l IH]; intros seen st Hall Hch.
  - by rewrite app_nil_r.
  - cbn [fold_left].
    assert (Happ : seen ++ kv :: l = (seen ++ [kv]) ++ l)
      by (by rewrite <- app_assoc).
    rewrite Happ in *. apply IH; [done|].
    apply scanStep_chosen; [|by (intros k e Hin; apply (Hall k e); set_solver)|done].
    destruct kv as [k e]. apply (Hall k e). set_solver.
Qed.

Lemma scan_chosen kv l :
  (forall k e, (k, e) ∈ kv :: l -> 1 <= AccessCount e) ->
  chosen (kv :: l) (fold_left scanStep (kv :: l) scan0).
Proof.
  intros Hall. cbn [fold_left].
  apply (fold_scan_chosen l [kv]); [done|apply scanStep_first].
Qed.

(** [evictLRU] on a non-empty cache removes exactly one entry, one that
    is least, whatever the order in which the map is visited. *)
Lemma evictLRU_spec visit (c : gmap string CacheEntry) :
  visit ≡ₚ map_to_list c -> wf c -> c <> ∅ ->
  exists k e, c !! k = Some e /\ least c e /\ evictLRU visit c = delete k c.
Proof.
  intros Hperm Hwf Hne.
  assert (Hmem : forall k e, (k, e) ∈ visit <-> c !! k = Some e).
  { intros k e. rewrite Hperm. apply elem_of_map_to_list. }
  destruct visit as [|kv l].
  { exfalso. apply Hne. apply map_to_list_empty_iff.
    symmetry. by apply Permutation_nil_l. }
  destruct (scan_chosen kv l) as (e & Hin & _ & _ & Hmin).
  { intros k e Hin. apply Hmem in Hin. by destruct (Hwf _ _ Hin). }
  exists (oldestKey (fold_left scanStep (kv :: l) scan0)), e.
  apply Hmem in Hin. split; [done|]. split.
  - intros k' e' H'. apply (Hmin k' e'). by apply Hmem.
  - unfold evictLRU. destruct (String.eqb_spec (oldestKey (fold_left scanStep (kv :: l) scan0)) "") as [E|_]; [|done].
    apply Hwf in Hin as [Hk _]. by rewrite E in Hk.
Qed.

Lemma size_insert_le {A} (k : string) (x : A) (m : gmap string A) :
  (size (<[k:=x]> m) <= S (size m))%nat.
Proof. rewrite map_size_insert. destruct (m !! k); cbn; lia. Qed.

Section Setting.
Context `{Hashing}.

Lemma Set_cache_fresh visit now rc req response :
  Stream req = false -> generateCacheKey req <> "" ->
  cache (Set_ visit now rc req response)
  = <[generateCacheKey req :=
        {| Response := response; CreatedAt := now; AccessCount := 1 |}]>
      (if Z.of_nat (size (cache rc)) >=? maxSize rc
       then evictLRU visit (cache rc) else cache rc).
Proof.
  intros Hs Hk. unfold Set_. rewrite Hs.
  apply String.eqb_neq in Hk. by rewrite Hk.
Qed.

Lemma Set_wf visit now rc req response :
  wf (cache rc) -> visit ≡ₚ map_to_list (cache rc) ->
  wf (cache (Set_ visit now rc req response)).
Proof.
  intros Hwf Hperm. unfold Set_.
  destruct (Stream req); [done|].
  destruct (String.eqb_spec (generateCacheKey req) "") as [|Hk]; [done|].
  cbn [cache]. intros k e Hl.
  destruct (decide (generateCacheKey req = k)) as [<-|Hne].
  - rewrite lookup_insert_eq in Hl. injection Hl as <-. by cbn.
  - rewrite lookup_insert_ne in Hl by done.
    destruct (Z.of_nat (size (cache rc)) >=? maxSize rc); [|by apply Hwf].
    unfold evictLRU in Hl.
    destruct (String.eqb _ ""); [by apply Hwf|].
    apply lookup_delete_Some in Hl as [_ Hl]. by apply Hwf.
Qed.

Lemma Get_wf now rc req :
  wf (cache rc) -> wf (cache (Get now rc req).2).
Proof.
  intros Hwf. unfold Get. destruct (Stream req); [done|].
  destruct (String.eqb_spec (generateCacheKey req) "") as [|Hk]; [done|].
  destruct (cache rc !! generateCacheKey req) as [entry|] eqn:E; [|done].
  destruct (now - CreatedAt entry >? ttl rc); [done|]. cbn [snd cache].
  intros k e Hl. destruct (decide (generateCacheKey req = k)) as [<-|Hne].
  - rewrite lookup_insert_eq in Hl. injection Hl as <-. cbn.
    destruct (Hwf _ _ E). split; [done|lia].
  - rewrite lookup_insert_ne in Hl by done. by apply Hwf.
Qed.

Lemma responseCache_wf : wf (cache responseCache).
Proof. intros k e Hl. cbn in Hl. by rewrite lookup_empty in Hl. Qed.

(** C3: a [Set] of a new key into a cache that holds [maxSize] entries
    evicts exactly one entry, one with the minimum access count and,
    among those, the oldest creation time; and no [Set] leaves more
    than [maxSize] entries in the cache. *)
Theorem Set_evicts_least_and_bounds_size visit now rc req response :
  wf (cache rc) ->
  1 <= maxSize rc ->
  Z.of_nat (size (cache rc)) <= maxSize rc ->
  visit ≡ₚ map_to_list (cache rc) ->
  Z.of_nat (size (cache (Set_ visit now rc req response))) <= maxSize rc /\
  (Stream req = false ->
   generateCacheKey req <> "" ->
   cache rc !! generateCacheKey req = None ->
   Z.of_nat (size (cache rc)) = maxSize rc ->
   exists k e,
     cache rc !! k = Some e /\
     least (cache rc) e /\
     cache (Set_ visit now rc req response)
     = <[generateCacheKey req :=
           {| Response := response; CreatedAt := now; AccessCount := 1 |}]>
         (delete k (cache rc)) /\
     size (cache (Set_ visit now rc req response)) = size (cache rc)).
Proof.
  intros Hwf Hmax Hsize Hperm. split.
  - unfold Set_. destruct (Stream req); [done|].
    destruct (String.eqb (generateCacheKey req) ""); [done|]. cbn [cache].
    destruct (Z.geb_spec (Z.of_nat (size (cache rc))) (maxSize rc)) as [Hfull|Hroom].
    + destruct (evictLRU_spec visit (cache rc)) as (k & e & Hk & _ & ->);
        [done|done| |].
      { apply map_size_non_empty_iff. lia. }
      pose proof (size_insert_le (generateCacheKey req)
        {| Response := response; CreatedAt := now; AccessCount := 1 |}
        (delete k (cache rc))) as Hle.
      rewrite map_size_delete_Some in Hle by eauto.
      assert (size (cache rc) <> 0%nat) by lia. lia.
    + pose proof (size_insert_le (generateCacheKey req)
        {| Response := response; CreatedAt := now; AccessCount := 1 |}
        (cache rc)). lia.
  - intros Hs Hk Hnew Hfull. rewrite Set_cache_fresh by done.
    destruct (Z.geb_spec (Z.of_nat (size (cache rc))) (maxSize rc)) as [_|?];
      [|lia].
    destruct (evictLRU_spec visit (cache rc)) as (k & e & Hke & Hleast & ->);
      [done|done| |].
    { apply map_size_non_empty_iff. lia. }
    exists k, e. repeat split; [done|done|].
    rewrite map_size_insert_None.
    + rewrite map_size_delete_Some by eauto.
      assert (size (cache rc) <> 0%nat) by lia. lia.
    + rewrite lookup_delete_ne; [done|]. intros ->. congruence.
Qed.

End Setting.

Lemma fullCache_wf : wf (cache Demo.fullCache).
Proof.
  intros k e. cbn [cache Demo.fullCache]. rewrite lookup_insert. case_decide.
  - intros [= <-]. split; [by subst|cbn; lia].
  - rewrite lookup_insert. case_decide; [|by rewrite lookup_empty].
    intros [= <-]. split; [by subst|cbn; lia].
Qed.

#[local] Existing Instance Demo.hashing.

Lemma Set_evicts_least_and_bounds_size_witness :
  let req := Demo.request "m1" 100 [Demo.userMsg "ping"] in
  let rc' := Set_ (map_to_list (cache Demo.fullCache)) 9 Demo.fullCache req (Some "pong") in
  Z.of_nat (size (cache rc')) <= 2 /\
  exists k e,
    cache Demo.fullCache !! k = Some e /\
    least (cache Demo.fullCache) e /\
    cache rc'
    = <[generateCacheKey req :=
          {| Response := Some "pong"; CreatedAt := 9; AccessCount := 1 |}]>
        (delete k (cache Demo.fullCache)) /\
    size (cache rc') = size (cache Demo.fullCache).
Proof.
  intros req rc'.
  destruct (Set_evicts_least_and_bounds_size
              (map_to_list (cache Demo.fullCache)) 9 Demo.fullCache req (Some "pong"))
    as [Hsize Hevict].
  - apply fullCache_wf.
  - cbn. lia.
  - vm_compute. discriminate.
  - reflexivity.
  - split; [exact Hsize|]. apply Hevict.
    + reflexivity.
    + vm_compute. discriminate.
    + vm_compute. reflexivity.
    + vm_compute. reflexivity.
Defined.

End ResponseCacheFacts.

Module PredictiveCacheFacts.
Import PredictiveCache.

Section Similar.
Context `{Hashing} `{GoStrings}.

Lemma findStep_nothing now threshold req kv :
  findStep now threshold req (None, 0%Qc) kv = (None, 0%Qc).
Proof.
  destruct kv as [k e]. unfold findStep, parseKeyToRequest.
  by destruct (isExpired now e).
Qed.

(** The scan never finds an entry: no stored key is turned back into a
    request, so no similarity is ever computed. *)
Lemma findSimilarRequest_nothing visit now pc req :
  findSimilarRequest visit now pc req = (None, 0%Qc).
Proof.
  unfold findSimilarRequest. induction visit as [|kv visit IH]; [done|].
  cbn [fold_left]. by rewrite findStep_nothing.
Qed.

(** What [Get] does without a live entry under the exact key: a miss,
    whatever the cache holds. *)
Lemma Get_without_exact_match visit now pc req :
  (forall entry, cache pc !! generateKey req = Some entry ->
                 isExpired now entry = true) ->
  Get visit now pc req = (None, false, 0%Qc, pc).
Proof.
  intros Hexact. unfold Get. rewrite findSimilarRequest_nothing.
  destruct (cache pc !! generateKey req) as [entry|] eqn:E; [|done].
  by rewrite (Hexact entry eq_refl).
Qed.

Lemma filter_all {A} (P : A -> Prop) `{forall x, Decision (P x)} (l : list A) :
  (forall x, x ∈ l -> P x) -> filter P l = l.
Proof.
  induction l as [|x l IH]; intros Hall; [done|].
  rewrite filter_cons_True by (apply Hall; by left).
  f_equal. apply IH. intros y Hy. apply Hall. by right.
Qed.

Lemma filter_none {A} (P : A -> Prop) `{forall x, Decision (P x)} (l : list A) :
  (forall x, x ∈ l -> ~ P x) -> filter P l = [].
Proof.
  induction l as [|x l IH]; intros Hall; [done|].
  rewrite filter_cons_False by (apply Hall; by left).
  apply IH. intros y Hy. apply Hall. by right.
Qed.

Lemma filter_elem_of_elements (X : gset string) :
  filter (fun w => w ∈ X) (elements X) = elements X.
Proof. apply filter_all. intros w Hw. by apply elem_of_elements. Qed.

Lemma filter_not_elem_of_elements (X : gset string) :
  filter (fun w => w ∉ X) (elements X) = [].
Proof.
  apply filter_none. intros w Hw Hn. apply Hn. by apply elem_of_elements.
Qed.

Lemma jaccard_same_text text :
  calculateTextSimilarity text text = 1%Qc.
Proof.
  unfold calculateTextSimilarity.
  destruct (Fields text) as [|w ws] eqn:E; [done|].
  cbn [List.length]. rewrite filter_elem_of_elements,
    filter_not_elem_of_elements.
  change (Z.of_nat (S (List.length ws)) =? 0) with false. cbn [andb orb].
  cbn [List.length]. rewrite Z.add_0_r.
  change (List.length (elements (list_to_set (w :: ws) : gset string)))
    with (size (list_to_set (w :: ws) : gset string)).
  assert (Hpos : size (list_to_set (w :: ws) : gset string) <> 0%nat).
  { apply size_non_empty_iff. set_solver. }
  destruct (Z.eqb_spec (Z.of_nat (size (list_to_set (w :: ws) : gset string))) 0);
    [lia|].
  apply KernelFacts.Qc_of_Z_div_same. lia.
Qed.

Lemma calculateContentSimilarity_same msgs :
  calculateContentSimilarity msgs msgs = 1%Qc.
Proof.
  unfold calculateContentSimilarity.
  destruct (Z.of_nat (List.length msgs) =? 0); [done|].
  apply jaccard_same_text.
Qed.

(** Two requests with the same model and the same messages have
    similarity 1, whatever their other fields. *)
Lemma calculateSimilarity_same_model_messages req1 req2 :
  Model req1 = Model req2 -> Messages req1 = Messages req2 ->
  calculateSimilarity req1 req2 = 1%Qc.
Proof.
  intros Hm Hms. unfold calculateSimilarity.
  rewrite Hm, Hms, String.eqb_refl, Z.eqb_refl,
    calculateContentSimilarity_same.
  apply Qc_is_canon. reflexivity.
Qed.

End Similar.

#[local] Existing Instance Demo.hashing.
#[local] Existing Instance Demo.strings.

(** C1 (the code departs from it): a response is stored for the request
    ["m1", "ping", max_tokens 100]; one nanosecond later [Get] is asked
    for the same model and messages with max_tokens 200. The key differs,
    the stored entry is live, the similarity of the two requests is 1,
    above the threshold 0.8, and [Get] reports a miss. *)
Lemma Get_misses_a_similar_request :
  let stored := Demo.request "m1" 100 [Demo.userMsg "ping"] in
  let asked := Demo.request "m1" 200 [Demo.userMsg "ping"] in
  let pc := Set_ 0 predictiveCache stored (Some "pong") in
  cache pc !! generateKey asked = None /\
  (exists entry, cache pc !! generateKey stored = Some entry /\
                 isExpired 1 entry = false) /\
  calculateSimilarity asked stored = 1%Qc /\
  (similarityThreshold pc <= calculateSimilarity asked stored)%Qc /\
  Get (map_to_list (cache pc)) 1 pc asked = (None, false, 0%Qc, pc).
Proof.
  intros stored asked pc.
  assert (Hsim : calculateSimilarity asked stored = 1%Qc)
    by (by apply calculateSimilarity_same_model_messages).
  split; [by vm_compute|]. split.
  { eexists. split; [apply lookup_insert_eq|reflexivity]. }
  split; [done|]. split.
  { rewrite Hsim. by vm_compute. }
  apply Get_without_exact_match. intros entry Hentry.
  assert (E : cache pc !! generateKey asked = None) by (by vm_compute).
  congruence.
Qed.

End PredictiveCacheFacts.

Module KeyFacts.

Section Keys.
Context `{Hashing} `{GoStrings}.

Lemma generateCacheKey_fields r1 r2 :
  Stream r1 = Stream r2 -> Model r1 = Model r2 ->
  Messages r1 = Messages r2 -> MaxTokens r1 = MaxTokens r2 ->
  ResponseCache.generateCacheKey r1 = ResponseCache.generateCacheKey r2.
Proof.
  intros Hs Hm Hms Ht. unfold ResponseCache.generateCacheKey.
  by rewrite Hs, Hm, Hms, Ht.
Qed.

Lemma generateKey_fields r1 r2 :
  Model r1 = Model r2 -> Messages r1 = Messages r2 ->
  MaxTokens r1 = MaxTokens r2 ->
  PredictiveCache.generateKey r1 = PredictiveCache.generateKey r2.
Proof.
  intros Hm Hms Ht. unfold PredictiveCache.generateKey.
  by rewrite Hm, Hms, Ht.
Qed.

(** C10: the key of the response cache and the key of the predictive
    cache are functions of model, messages and max-tokens alone: two
    non-streaming requests that agree on these three fields have the
    same keys, whatever their system prompt, tools, temperature and
    metadata; so a response stored for one of them is what [Get]
    returns for the other while the entry is live. *)
Theorem cache_keys_ignore_other_fields r1 r2 :
  Stream r1 = false -> Stream r2 = false ->
  Model r1 = Model r2 -> Messages r1 = Messages r2 ->
  MaxTokens r1 = MaxTokens r2 ->
  ResponseCache.generateCacheKey r1 = ResponseCache.generateCacheKey r2 /\
  PredictiveCache.generateKey r1 = PredictiveCache.generateKey r2 /\
  (forall visit now now' rc response,
     ResponseCache.generateCacheKey r1 <> "" ->
     now' - now <= ResponseCache.ttl rc ->
     (ResponseCache.Get now' (ResponseCache.Set_ visit now rc r1 response) r2).1
     = (response, true)) /\
  (forall visit now now' pc response,
     now' - now <= 10 * PredictiveCache.minute ->
     (PredictiveCache.Get visit now'
        (PredictiveCache.Set_ now pc r1 response) r2).1
     = (response, true, 1%Qc)).
Proof.
  intros Hs1 Hs2 Hm Hms Ht.
  assert (Hk : ResponseCache.generateCacheKey r1
               = ResponseCache.generateCacheKey r2)
    by (apply generateCacheKey_fields; congruence).
  assert (Hp : PredictiveCache.generateKey r1
               = PredictiveCache.generateKey r2)
    by (by apply generateKey_fields).
  split; [done|]. split; [done|]. split.
  - intros visit now now' rc response Hne Httl.
    unfold ResponseCache.Set_, ResponseCache.Get. rewrite Hs1, Hs2, <- Hk.
    apply String.eqb_neq in Hne. rewrite Hne. cbn [ResponseCache.cache].
    rewrite lookup_insert_eq. cbn.
    destruct (Z.gtb_spec (now' - now) (ResponseCache.ttl rc)); [lia|done].
  - intros visit now now' pc response Httl.
    unfold PredictiveCache.Set_, PredictiveCache.Get. rewrite <- Hp.
    cbn [PredictiveCache.cache]. rewrite lookup_insert_eq.
    unfold PredictiveCache.isExpired. cbn.
    destruct (Z.gtb_spec (now' - now) (10 * PredictiveCache.minute));
      [lia|done].
Qed.

End Keys.

#[local] Existing Instance Demo.hashing.
#[local] Existing Instance Demo.strings.

Lemma cache_keys_ignore_other_fields_witness :
  Demo.plainRequest <> Demo.dressedRequest /\
  ResponseCache.generateCacheKey Demo.plainRequest = ResponseCache.generateCacheKey Demo.dressedRequest /\
  PredictiveCache.generateKey Demo.plainRequest = PredictiveCache.generateKey Demo.dressedRequest /\
  (ResponseCache.Get 5
     (ResponseCache.Set_ [] 0 ResponseCache.responseCache Demo.dressedRequest (Some "bonjour"))
     Demo.plainRequest).1 = (Some "bonjour", true) /\
  (PredictiveCache.Get [] 5
     (PredictiveCache.Set_ 0 PredictiveCache.predictiveCache Demo.dressedRequest (Some "bonjour"))
     Demo.plainRequest).1 = (Some "bonjour", true, 1%Qc).
Proof.
  destruct (cache_keys_ignore_other_fields Demo.dressedRequest Demo.plainRequest
              eq_refl eq_refl eq_refl eq_refl eq_refl)
    as (Hk & Hp & Hget & Hpget).
  split; [discriminate|]. split; [by symmetry|]. split; [by symmetry|]. split.
  - apply Hget; [by vm_compute|by vm_compute].
  - apply Hpget. by vm_compute.
Defined.

End KeyFacts.

Module DedupFacts.
Import Dedup.

(** *** Channels *)

Lemma deliver_spec ch v chans chans' :
  deliver ch v chans = Some chans' ->
  chans !! ch = Some emptyChannel /\ chans' = <[ch := answered v]> chans.
Proof.
  unfold deliver, send, close. intros Hd.
  destruct (chans !! ch) as [[buf cl]|] eqn:E; [|done].
  cbn in Hd. destruct cl; [done|]. destruct buf; [|done].
  cbn in Hd. rewrite lookup_insert_eq in Hd. cbn in Hd.
  injection Hd as <-. split; [done|]. by rewrite insert_insert_eq.
Qed.

Lemma deliver_fresh ch v chans :
  chans !! ch = Some emptyChannel ->
  deliver ch v chans = Some (<[ch := answered v]> chans).
Proof.
  intros E. unfold deliver, send, close. rewrite E. cbn.
  rewrite lookup_insert_eq. cbn. by rewrite insert_insert_eq.
Qed.

(** A loop of sends that goes through leaves [v], and a closed channel,
    at every subscriber of the list, and keeps what was answered
    before. *)
Lemma fanOut_spec subscribers v : forall chans chans',
  fanOut subscribers v chans = Some chans' ->
  (forall ch, ch ∈ subscribers -> chans' !! ch = Some (answered v)) /\
  (forall ch, chans !! ch = Some (answered v) ->
              chans' !! ch = Some (answered v)) /\
  (forall ch, ch ∉ subscribers -> chans' !! ch = chans !! ch).
Proof.
  induction subscribers as [|s rest IH]; intros chans chans' Hf.
  - injection Hf as <-. split; [|done]. intros ch Hin. by apply elem_of_nil in Hin.
  - cbn [fanOut] in Hf.
    destruct (deliver s v chans) as [chans1|] eqn:Hd; [|done]. cbn in Hf.
    apply deliver_spec in Hd as [Hs ->].
    destruct (IH _ _ Hf) as (Hall & Hkeep & Hframe).
    split; [|split].
    + intros ch Hin. apply elem_of_cons in Hin as [->|Hin]; [|by apply Hall].
      apply Hkeep. apply lookup_insert_eq.
    + intros ch Hch. apply Hkeep.
      destruct (decide (s = ch)) as [<-|Hne]; [|by rewrite lookup_insert_ne].
      by rewrite Hs in Hch.
    + intros ch Hnin. apply not_elem_of_cons in Hnin as [Hne Hnin].
      rewrite Hframe by done. by apply lookup_insert_ne.
Qed.

Section Deduplicator.
Context `{Hashing}.

(** *** [ProcessRequest] on a hash that has an active record *)

(** The call registers one more subscriber channel on the record and
    changes nothing else: no record, no execution is added. *)
Lemma ProcessRequest_subscribes now rd req p :
  activeRequests rd !! generateRequestHash req = Some p ->
  let '(ch, rd') := ProcessRequest now rd req in
  ch = nextName rd /\
  activeRequests rd' = activeRequests rd /\
  executions rd' = executions rd /\
  recentRequests rd' = recentRequests rd /\
  mergeableGroups rd' = mergeableGroups rd /\
  channels rd' = <[ch := emptyChannel]> (channels rd) /\
  forall a, objects rd !! p = Some a ->
    exists a', objects rd' !! p = Some a' /\
               Subscribers a' = Subscribers a ++ [ch] /\
               ResponseCh a' = ResponseCh a /\ Request a' = Request a.
Proof.
  intros Hact. unfold ProcessRequest. rewrite Hact. cbn.
  repeat split. intros a Ha. rewrite lookup_alter_eq, Ha. cbn. eauto.
Qed.

(** An execution is started only for a hash without an active
    record. *)
Lemma ProcessRequest_starts_only_without_record now rd req :
  executions (ProcessRequest now rd req).2 <> executions rd ->
  activeRequests rd !! generateRequestHash req = None.
Proof.
  intros Hne. destruct (activeRequests rd !! generateRequestHash req) eqn:E;
    [|done].
  exfalso. apply Hne. unfold ProcessRequest. by rewrite E.
Qed.

(** *** The sends of [executeRequest] *)

(** The primary channel and every subscriber that the record lists
    when the sends are made receive the same response and error. *)
Lemma publish_answers_listed p response err rd rd' a :
  objects rd !! p = Some a ->
  publish p response err rd = Some rd' ->
  executions rd' !! p = Some (Published response err) /\
  recentRequests rd' = recentRequests rd /\
  mergeableGroups rd' = mergeableGroups rd /\
  activeRequests rd' = activeRequests rd /\
  forall ch, ch ∈ ResponseCh a :: Subscribers a ->
    channels rd' !! ch
    = Some (answered {| Response := response; Error := err;
                        FromCache := false; Merged := false |}).
Proof.
  intros Ha Hp. unfold publish in Hp. rewrite Ha in Hp.
  destruct (executions rd !! p) as [[|]|]; try done.
  destruct (deliver _ _ _) as [chans1|] eqn:Hd; [|done]. cbn in Hp.
  destruct (fanOut _ _ _) as [chans2|] eqn:Hf; [|done]. cbn in Hp.
  injection Hp as <-. cbn.
  split; [apply lookup_insert_eq|]. repeat split.
  apply deliver_spec in Hd as [_ ->].
  destruct (fanOut_spec _ _ _ _ Hf) as (Hall & Hkeep & _).
  intros ch Hin. apply elem_of_cons in Hin as [->|Hin]; [|by apply Hall].
  apply Hkeep, lookup_insert_eq.
Qed.

(** *** The bookkeeping of [executeRequest] *)

Lemma updateMergeableGroup_error now groups req response e :
  updateMergeableGroup now groups req response (Some e) = groups.
Proof. reflexivity. Qed.

Lemma updateMergeableGroup_success now groups req response :
  exists g,
    updateMergeableGroup now groups req response None
    = <[generateMergeKey req := g]> groups /\
    ResponseCache g = response /\ LastMerged g = now /\
    match groups !! generateMergeKey req with
    | Some old => BaseRequest g = BaseRequest old /\
                  Variations g = Variations old /\
                  MergeCount g = MergeCount old
    | None => BaseRequest g = req /\ Variations g = [req] /\
              MergeCount g = 1
    end.
Proof.
  unfold updateMergeableGroup.
  destruct (groups !! generateMergeKey req) as [old|]; eexists;
    (split; [reflexivity|]); cbn; auto.
Qed.

(** C4: when the execution of a request has ended with an error, its
    bookkeeping writes no recent record and leaves every mergeable
    group as it was; when it has ended without error, it writes the
    recent record of the hash, with the response, and the group under
    the family signature of the request holds the response as its
    cached response. In both cases the bookkeeping goes through. *)
Theorem completion_caches_only_success now p rd response err a :
  executions rd !! p = Some (Published response err) ->
  objects rd !! p = Some a ->
  exists rd',
    finish now p rd = Some rd' /\
    activeRequests rd' = delete (RequestHash a) (activeRequests rd) /\
    (err <> None ->
       recentRequests rd' = recentRequests rd /\
       mergeableGroups rd' = mergeableGroups rd) /\
    (err = None ->
       recentRequests rd'
       = <[RequestHash a :=
             {| RecentReq := Request a; RecentResponse := response;
                Timestamp := now; Hash := RequestHash a |}]>
           (recentRequests rd) /\
       exists g,
         mergeableGroups rd' !! generateMergeKey (Request a) = Some g /\
         ResponseCache g = response /\
         forall k, k <> generateMergeKey (Request a) ->
           mergeableGroups rd' !! k = mergeableGroups rd !! k).
Proof.
  intros Hex Hobj. unfold finish. rewrite Hex, Hobj.
  eexists. split; [reflexivity|]. cbn. split; [done|]. split.
  - intros Herr. by destruct err.
  - intros ->. split; [done|].
    destruct (updateMergeableGroup_success now (mergeableGroups rd)
                (Request a) response) as (g & -> & Hg & _).
    exists g. split; [apply lookup_insert_eq|]. split; [done|].
    intros k Hk. by apply lookup_insert_ne.
Qed.

(** *** Merging into a group *)

Lemma canMergeWithGroup_true req group :
  Model req = Model (BaseRequest group) ->
  Z.abs (Z.of_nat (List.length (Messages req))
         - Z.of_nat (List.length (Messages (BaseRequest group)))) <= 2 ->
  (Qc_of_Z 7 / Qc_of_Z 10
   < calculateContentSimilarity req (BaseRequest group))%Qc ->
  canMergeWithGroup req group = true.
Proof.
  intros Hm Hn Hs. unfold canMergeWithGroup.
  rewrite Hm, String.eqb_refl. cbn [negb].
  destruct (Z.gtb_spec (absInt (Z.of_nat (List.length (Messages req))
    - Z.of_nat (List.length (Messages (BaseRequest group))))) 2) as [Hgt|_].
  - exfalso. unfold absInt in Hgt.
    destruct (Z.ltb_spec (Z.of_nat (List.length (Messages req))
      - Z.of_nat (List.length (Messages (BaseRequest group)))) 0); lia.
  - by apply bool_decide_eq_true.
Qed.

(** When both requests have messages, or neither has, the content
    similarity is the text similarity of the last user messages. *)
Lemma calculateContentSimilarity_last_user req1 req2 :
  (Messages req1 = [] <-> Messages req2 = []) ->
  calculateContentSimilarity req1 req2
  = Kernel.calculateTextSimilarity
      (lastUserContent (Messages req1)) (lastUserContent (Messages req2)).
Proof.
  intros Hiff. unfold calculateContentSimilarity.
  destruct (Messages req1) as [|m1 l1] eqn:E1.
  - rewrite (proj1 Hiff eq_refl). reflexivity.
  - destruct (Messages req2) as [|m2 l2] eqn:E2; [|reflexivity].
    by destruct (proj2 Hiff eq_refl).
Qed.

(** The ring of variations: the request goes to the end, and of more
    than 10 the oldest goes. *)
Lemma pushVariation_ring vs req :
  (List.length vs <= 10)%nat ->
  (List.length (pushVariation vs req) <= 10)%nat /\
  ((List.length vs < 10)%nat -> pushVariation vs req = vs ++ [req]) /\
  (List.length vs = 10%nat -> pushVariation vs req = drop 1 vs ++ [req]).
Proof.
  intros Hlen. unfold pushVariation.
  assert (Happ : List.length (vs ++ [req]) = S (List.length vs))
    by (rewrite length_app; cbn; lia).
  destruct (Z.gtb_spec (Z.of_nat (List.length (vs ++ [req]))) 10) as [Hgt|Hle].
  - assert (List.length vs = 10%nat) as Hten by lia.
    split; [rewrite length_drop; lia|].
    split; [lia|]. intros _. destruct vs; [done|]. reflexivity.
  - split; [lia|]. split; [done|lia].
Qed.

Lemma tryMergeRequest_merges now groups req group :
  groups !! generateMergeKey req = Some group ->
  canMergeWithGroup req group = true ->
  now - LastMerged group < 5 * minute ->
  tryMergeRequest now groups req
  = (match ResponseCache group with
     | Some _ => Some {| Response := ResponseCache group; Error := None;
                         FromCache := true; Merged := true |}
     | None => None
     end,
     <[generateMergeKey req :=
         {| BaseRequest := BaseRequest group;
            Variations := pushVariation (Variations group) req;
            LastMerged := now;
            MergeCount := MergeCount group + 1;
            ResponseCache := ResponseCache group |}]> groups).
Proof.
  intros Hg Hcan Hwin. unfold tryMergeRequest. rewrite Hg, Hcan.
  destruct (Z.ltb_spec (now - LastMerged group) (5 * minute)); [|lia].
  cbn [andb]. by destruct (ResponseCache group).
Qed.

(** C5: a request without an active record and without a fresh recent
    record, whose family signature leads to a group with a compatible
    base request (same model, message counts at most 2 apart, content
    similarity above 0.7) merged less than 5 minutes ago, joins the
    variations of the group (at most 10, the oldest dropped first),
    adds 1 to the merge counter, and, when the group holds a response,
    gets this response at once on a closed channel, marked from-cache
    and merged; no execution is started for it. *)
Theorem ProcessRequest_merges_into_group now rd req group :
  activeRequests rd !! generateRequestHash req = None ->
  (forall r, recentRequests rd !! generateRequestHash req = Some r ->
             2 * minute <= now - Timestamp r) ->
  mergeableGroups rd !! generateMergeKey req = Some group ->
  Model req = Model (BaseRequest group) ->
  Z.abs (Z.of_nat (List.length (Messages req))
         - Z.of_nat (List.length (Messages (BaseRequest group)))) <= 2 ->
  (Qc_of_Z 7 / Qc_of_Z 10
   < calculateContentSimilarity req (BaseRequest group))%Qc ->
  now - LastMerged group < 5 * minute ->
  let '(ch, rd') := ProcessRequest now rd req in
  (exists g',
     mergeableGroups rd' !! generateMergeKey req = Some g' /\
     BaseRequest g' = BaseRequest group /\
     ResponseCache g' = ResponseCache group /\
     MergeCount g' = MergeCount group + 1 /\
     Variations g' = pushVariation (Variations group) req /\
     ((List.length (Variations group) < 10)%nat ->
        Variations g' = Variations group ++ [req]) /\
     (List.length (Variations group) = 10%nat ->
        Variations g' = drop 1 (Variations group) ++ [req]) /\
     ((List.length (Variations group) <= 10)%nat ->
        (List.length (Variations g') <= 10)%nat)) /\
  (forall response, ResponseCache group = Some response ->
     channels rd' !! ch
     = Some (answered {| Response := Some response; Error := None;
                         FromCache := true; Merged := true |}) /\
     executions rd' = executions rd /\
     activeRequests rd' = activeRequests rd).
Proof.
  intros Hact Hrecent Hgroup Hmodel Hcount Hsim Hwin.
  pose proof (canMergeWithGroup_true _ _ Hmodel Hcount Hsim) as Hcan.
  pose proof (tryMergeRequest_merges _ _ _ _ Hgroup Hcan Hwin) as Hmerge.
  assert (Hring :
    ((List.length (Variations group) < 10)%nat ->
       pushVariation (Variations group) req = Variations group ++ [req]) /\
    (List.length (Variations group) = 10%nat ->
       pushVariation (Variations group) req = drop 1 (Variations group) ++ [req]) /\
    ((List.length (Variations group) <= 10)%nat ->
       (List.length (pushVariation (Variations group) req) <= 10)%nat)).
  { split; [|split]; intros Hlen;
      (destruct (pushVariation_ring (Variations group) req) as (? & ? & ?);
       [lia|auto]). }
  unfold ProcessRequest. rewrite Hact.
  assert (Hfresh :
    match recentRequests rd !! generateRequestHash req with
    | Some recentReq =>
        if now - Timestamp recentReq <? 2 * minute
        then Some {| Response := RecentResponse recentReq; Error := None;
                     FromCache := true; Merged := false |}
        else None
    | None => None
    end = None).
  { destruct (recentRequests rd !! generateRequestHash req) as [r|] eqn:E;
      [|done].
    specialize (Hrecent r eq_refl).
    destruct (Z.ltb_spec (now - Timestamp r) (2 * minute)); [lia|done]. }
  rewrite Hfresh, Hmerge.
  destruct (ResponseCache group) as [response|] eqn:Hresp; cbn.
  - split.
    + eexists. split; [apply lookup_insert_eq|]. cbn.
      destruct Hring as (? & ? & ?). by repeat split.
    + intros response' [= <-]. split; [apply lookup_insert_eq|done].
  - split; [|done].
    eexists. split; [apply lookup_insert_eq|]. cbn.
    destruct Hring as (? & ? & ?). by repeat split.
Qed.

End Deduplicator.

#[local] Existing Instance Demo.hashing.

(** C2 (the code departs from it): the request ["m1", "ping"] is
    processed and its execution started; the execution gets its result
    and makes its sends (step [Publish]); before the execution takes the
    lock, the same request is processed Demo.sortQuestionAgain: the active record is
    still there, so the second caller is registered as a subscriber and
    no execution is started; then the execution takes the lock and
    removes the record (step [Finish]). The first caller holds the
    response; the channel of the second caller is empty and open, and
    nothing is left that would send on it. *)
Lemma late_subscriber_is_never_answered :
  let req := Demo.request "m1" 100 [Demo.userMsg "ping"] in
  let hash := generateRequestHash req in
  let pong := {| Response := Some "pong"; Error := None;
                 FromCache := false; Merged := false |} in
  let first := ProcessRequest 0 requestDeduplicator req in
  exists p rd2 rd4,
    activeRequests first.2 !! hash = Some p /\
    executions first.2 = {[p := InFlight]} /\
    publish p (Some "pong") None first.2 = Some rd2 /\
    let second := ProcessRequest 1 rd2 req in
    activeRequests rd2 !! hash = Some p /\
    executions second.2 = executions rd2 /\
    (exists a, objects second.2 !! p = Some a /\
               Subscribers a = [second.1]) /\
    finish 2 p second.2 = Some rd4 /\
    first.1 <> second.1 /\
    channels rd4 !! first.1 = Some (answered pong) /\
    channels rd4 !! second.1 = Some emptyChannel /\
    activeRequests rd4 = ∅ /\
    executions rd4 = ∅.
Proof.
  intros req hash pong first.
  exists 1%nat. eexists. eexists.
  split; [by vm_compute|]. split; [by vm_compute|].
  split; [by vm_compute|]. cbv zeta.
  split; [by vm_compute|]. split; [by vm_compute|].
  split; [eexists; split; by vm_compute|].
  split; [by vm_compute|]. split; [by vm_compute|].
  split; [by vm_compute|]. split; [by vm_compute|].
  split; by vm_compute.
Qed.

(** The same run, step by step, through [run]. *)
Lemma late_subscriber_run :
  let req := Demo.request "m1" 100 [Demo.userMsg "ping"] in
  exists rd,
    run requestDeduplicator
      [Process 0 req; Publish 1 (Some "pong") None; Process 1 req; Finish 2 1]
    = Some rd /\
    channels rd !! 2%nat = Some emptyChannel /\
    executions rd = ∅.
Proof. eexists. split; [by vm_compute|]. split; by vm_compute. Qed.

Lemma completion_caches_only_success_witness :
  let req := Demo.request "m1" 100 [Demo.userMsg "ping"] in
  let started := (ProcessRequest 0 requestDeduplicator req).2 in
  let published := default started (publish 1 (Some "pong") None started) in
  exists rd',
    finish 5 1 published = Some rd' /\
    recentRequests rd' !! generateRequestHash req
    = Some {| RecentReq := req; RecentResponse := Some "pong";
              Timestamp := 5; Hash := generateRequestHash req |} /\
    exists g, mergeableGroups rd' !! generateMergeKey req = Some g /\
              ResponseCache g = Some "pong".
Proof.
  intros req started published.
  edestruct (completion_caches_only_success 5 1 published (Some "pong") None)
    as (rd' & Hfin & _ & _ & Hok);
    [vm_compute; reflexivity|vm_compute; reflexivity|].
  exists rd'. split; [exact Hfin|].
  destruct (Hok eq_refl) as (Hrecent & g & Hg & Hresp & _).
  split.
  - rewrite Hrecent. apply lookup_insert_eq.
  - exists g. split; [exact Hg|exact Hresp].
Defined.

Lemma ProcessRequest_merges_into_group_witness :
  let result := ProcessRequest minute Demo.withSortGroup Demo.sortQuestionAgain in
  channels result.2 !! result.1
  = Some (answered {| Response := Some "use sort"; Error := None;
                      FromCache := true; Merged := true |}) /\
  executions result.2 = ∅.
Proof.
  intros result.
  pose proof (ProcessRequest_merges_into_group minute Demo.withSortGroup Demo.sortQuestionAgain
    Demo.sortGroup) as Hthm.
  fold result in Hthm. destruct result as [ch rd'].
  destruct Hthm as [_ Hresp].
  - by vm_compute.
  - intros r Hr. vm_compute in Hr. discriminate Hr.
  - by vm_compute.
  - reflexivity.
  - by vm_compute.
  - rewrite calculateContentSimilarity_last_user by done.
    cbn. by vm_compute.
  - by vm_compute.
  - destruct (Hresp "use sort" eq_refl) as (Hch & Hex & _).
    split; [exact Hch|exact Hex].
Defined.

End DedupFacts.

Module CompressorFacts.
Import Compressor.

Section Compression.
Context `{Hashing} `{GoStrings} `{Sorting}.


(** *** The messages that are always kept *)

Lemma buildStep_keeps messages selected st i msg m :
  m ∈ finalMessages st ->
  m ∈ finalMessages (buildStep messages selected st i msg).
Proof.
  intros Hm. unfold buildStep.
  destruct (bool_decide (i ∈ selected)); [|done].
  destruct (Z.of_nat i >? lastIncluded st + 1).
  - destruct (createSummary _ _) as [summary cache].
    destruct (String.eqb summary ""); cbn; set_solver.
  - cbn. set_solver.
Qed.

Lemma buildStep_adds messages selected st i msg :
  i ∈ selected ->
  msg ∈ finalMessages (buildStep messages selected st i msg).
Proof.
  intros Hi. unfold buildStep. rewrite bool_decide_eq_true_2 by done.
  destruct (Z.of_nat i >? lastIncluded st + 1).
  - destruct (createSummary _ _) as [summary cache].
    destruct (String.eqb summary ""); cbn; set_solver.
  - cbn. set_solver.
Qed.

Lemma buildFrom_keeps messages selected rest : forall i st m,
  m ∈ finalMessages st ->
  m ∈ finalMessages (buildFrom messages selected st i rest).
Proof.
  induction rest as [|msg rest IH]; intros i st m Hm; [done|].
  cbn [buildFrom]. apply IH. by apply buildStep_keeps.
Qed.

Lemma buildFrom_adds messages selected rest : forall i st k msg,
  rest !! k = Some msg -> (i + k)%nat ∈ selected ->
  msg ∈ finalMessages (buildFrom messages selected st i rest).
Proof.
  induction rest as [|m rest IH]; intros i st k msg Hk Hsel; [done|].
  cbn [buildFrom]. destruct k as [|k].
  - injection Hk as ->. rewrite Nat.add_0_r in Hsel.
    apply buildFrom_keeps. by apply buildStep_adds.
  - apply (IH (S i) _ k); [done|].
    by replace (S i + k)%nat with (i + S k)%nat by lia.
Qed.

Lemma elem_of_systemIndices messages i msg :
  messages !! i = Some msg -> Role msg = "system" ->
  i ∈ systemIndices messages.
Proof.
  intros Hi Hrole. unfold systemIndices.
  apply elem_of_list_to_set, list_elem_of_omap.
  exists (i, msg). split.
  - by apply (elem_of_lookup_imap_2 pair).
  - cbn. by rewrite Hrole.
Qed.

Lemma elem_of_essential messages selectedIndices i msg :
  (2 <= List.length messages)%nat ->
  messages !! i = Some msg ->
  Role msg = "system" \/ (List.length messages - 2 <= i)%nat ->
  i ∈ essential messages selectedIndices.
Proof.
  intros Hlen Hi Hwhy. unfold essential.
  pose proof (lookup_lt_Some _ _ _ Hi) as Hlt.
  destruct (Z.geb_spec (Z.of_nat (List.length messages)) 2) as [_|?]; [|lia].
  destruct Hwhy as [Hsys|Hlast].
  - pose proof (elem_of_systemIndices _ _ _ Hi Hsys). set_solver.
  - destruct (decide (i = (List.length messages - 1)%nat)) as [->|Hne];
      [set_solver|].
    assert (i = (List.length messages - 2)%nat) as -> by lia. set_solver.
Qed.

(** The last loop keeps every message whose index is in the map
    [selected], whatever indices the scores had chosen. *)
Lemma ensureEssentialMessages_keeps summaries0 messages selectedIndices i msg :
  (2 <= List.length messages)%nat ->
  messages !! i = Some msg ->
  Role msg = "system" \/ (List.length messages - 2 <= i)%nat ->
  msg ∈ (ensureEssentialMessages summaries0 messages selectedIndices).1.
Proof.
  intros Hlen Hi Hwhy. unfold ensureEssentialMessages. cbn [fst].
  apply (buildFrom_adds messages _ messages 0 _ i msg); [done|].
  cbn. by apply (elem_of_essential _ _ _ msg).
Qed.

Lemma performCompression_keeps cc messages i msg :
  (2 < List.length messages)%nat ->
  messages !! i = Some msg ->
  Role msg = "system" \/ (List.length messages - 2 <= i)%nat ->
  msg ∈ (performCompression cc messages).1.
Proof.
  intros Hlen Hi Hwhy. unfold performCompression.
  destruct (Z.leb_spec (Z.of_nat (List.length messages)) 2); [lia|].
  apply (ensureEssentialMessages_keeps _ _ _ i); [lia|done|done].
Qed.

(** C6: when a request with more than 2 messages and over the budget
    is compressed, every message of role [system] and the last two
    messages of the request are among the messages of the result,
    whatever the scores and the order the sort gives them. *)
Theorem compression_keeps_system_and_last_two now cc req i msg :
  (2 < List.length (Messages req))%nat ->
  maxContextLength cc < calculateTotalLength (Messages req) ->
  compressionCache cc !! generateCompressionKey (Messages req) = None ->
  Messages req !! i = Some msg ->
  Role msg = "system" \/ (List.length (Messages req) - 2 <= i)%nat ->
  msg ∈ Messages (CompressRequest now cc req).1.
Proof.
  intros Hlen Hbudget Hmiss Hi Hwhy. unfold CompressRequest.
  destruct (Z.leb_spec (Z.of_nat (List.length (Messages req))) 2); [lia|].
  destruct (Z.leb_spec (calculateTotalLength (Messages req))
                       (maxContextLength cc)); [lia|].
  rewrite Hmiss.
  pose proof (performCompression_keeps cc _ _ _ Hlen Hi Hwhy) as Hin.
  destruct (performCompression cc (Messages req)) as [compressed summaries'].
  exact Hin.
Qed.

(** *** What a summary names *)













(** *** The placeholder of an excluded run *)
















End Compression.

#[local] Existing Instance Demo.hashing.
#[local] Existing Instance Demo.strings.
#[local] Existing Instance Demo.sorting.


Lemma compression_keeps_system_and_last_two_witness :
  Demo.systemMsg "be terse"
    ∈ Messages (CompressRequest 0 Demo.tightCompressor (Demo.request "m1" 100 Demo.talk)).1.
Proof.
  apply (compression_keeps_system_and_last_two 0 Demo.tightCompressor
           (Demo.request "m1" 100 Demo.talk) 0).
  - cbn. lia.
  - by vm_compute.
  - reflexivity.
  - reflexivity.
  - by left.
Defined.


(** The same failure with repeated words: the pass excludes the second
    message of [Demo.talk]; "zulu" is its most frequent term, and the
    placeholder names "alpha", "bravo" and "charlie", the first three of
    the repeated words in byte order. *)
Lemma placeholder_omits_most_frequent_term :
  Messages (CompressRequest 0 Demo.tightCompressor (Demo.request "m1" 100 Demo.talk)).1
  = [ Demo.systemMsg "be terse";
      placeholder "跳过了1条关于alpha、bravo、charlie的消息";
      Demo.assistantMsg "fine"; Demo.userMsg "next"; Demo.assistantMsg "done" ] /\
  CompressorSpec.frequency (take 1 (drop 1 Demo.talk)) "zulu" = 3%nat /\
  CompressorSpec.amongTop3 (take 1 (drop 1 Demo.talk)) "zulu" = true /\
  Contains "[摘要: 跳过了1条关于alpha、bravo、charlie的消息]" "zulu" = false.
Proof. repeat split; by vm_compute. Qed.

#[local] Existing Instance Demo.Message_eq_dec.
#[local] Existing Instance Demo.Message_countable.



End CompressorFacts.

(** * Further properties of the code *)

Module RatioFacts.

(** A ratio of integers [0 <= d <= m], [0 < m], lies between 0 and 1. *)
Lemma ratio_bounds d m :
  0 <= d <= m -> 0 < m ->
  (0 <= Qc_of_Z d / Qc_of_Z m)%Qc /\ (Qc_of_Z d / Qc_of_Z m <= 1)%Qc.
Proof.
  intros [Hd Hdm] Hm.
  pose proof (proj1 (Z2Qc_inj_lt 0 m) Hm) as Hpos. rewrite Z2Qc_inj_0 in Hpos.
  assert (Hne : Qc_of_Z m <> 0%Qc).
  { intros E. rewrite E in Hpos. by apply Qclt_not_eq in Hpos. }
  assert (Hmul : (Qc_of_Z d / Qc_of_Z m * Qc_of_Z m = Qc_of_Z d)%Qc)
    by (rewrite Qcmult_comm; by apply Qcmult_div_r).
  split.
  - apply (Qcmult_le_mono_pos_r _ _ (Qc_of_Z m) Hpos).
    rewrite Hmul, Qcmult_0_l, <- Z2Qc_inj_0. by apply (proj1 (Z2Qc_inj_le 0 d)).
  - apply (Qcmult_le_mono_pos_r _ _ (Qc_of_Z m) Hpos).
    rewrite Hmul, Qcmult_1_l. by apply (proj1 (Z2Qc_inj_le d m)).
Qed.

Lemma one_minus_ratio_bounds d m :
  0 <= d <= m -> 0 < m ->
  (0 <= 1 - Qc_of_Z d / Qc_of_Z m)%Qc /\ (1 - Qc_of_Z d / Qc_of_Z m <= 1)%Qc.
Proof.
  intros Hd Hm. destruct (ratio_bounds d m Hd Hm) as [H0 H1]. split.
  - apply Qcle_minus_iff in H1. exact H1.
  - apply Qcle_minus_iff.
    replace (1 + - (1 - Qc_of_Z d / Qc_of_Z m))%Qc
      with (Qc_of_Z d / Qc_of_Z m)%Qc by ring.
    exact H0.
Qed.

End RatioFacts.

Module KernelMore.
Import Kernel KernelFacts.

Lemma lev_le_max a b i : forall j, lev a b i j <= Z.of_nat (Nat.max i j).
Proof.
  induction i as [|i IHi]; intros j; [rewrite lev_0; lia|].
  induction j as [|j IHj]; [rewrite lev_S_0; lia|].
  rewrite lev_S_S. pose proof (IHi j).
  unfold cost. destruct (Ascii.eqb _ _); lia.
Qed.

Lemma cost_sym x y : cost x y = cost y x.
Proof. unfold cost. by rewrite Ascii.eqb_sym. Qed.

(** The recurrence is symmetric in its two texts. *)
Lemma lev_sym a b i : forall j, lev a b i j = lev b a j i.
Proof.
  induction i as [|i IHi]; intros j.
  - rewrite lev_0. by rewrite lev_i_0.
  - induction j as [|j IHj]; [rewrite lev_S_0; by rewrite lev_0|].
    rewrite !lev_S_S, (IHi (S j)), (IHi j), IHj, cost_sym. lia.
Qed.

Lemma truncate500_nonempty s : s <> "" -> truncate500 s <> "".
Proof.
  intros Hs Ht. apply len_0 in Ht. rewrite len_truncate500 in Ht.
  pose proof (len_nonneg s). destruct (decide (len s = 0)) as [E|]; [|lia].
  by apply len_0 in E.
Qed.

Lemma editDistance_spec_sym a b : editDistance_spec a b = editDistance_spec b a.
Proof. unfold editDistance_spec. apply lev_sym. Qed.

Lemma editDistance_spec_bounds a b :
  0 <= editDistance_spec a b <= Z.max (len a) (len b).
Proof.
  unfold editDistance_spec. split; [apply lev_nonneg|].
  etrans; [apply lev_le_max|].
  pose proof (length_list_ascii (truncate500 a)).
  pose proof (length_list_ascii (truncate500 b)).
  pose proof (len_truncate500 a). pose proof (len_truncate500 b). lia.
Qed.

(** The distance does not depend on the order of its arguments. *)
Lemma levenshteinDistance_sym s1 s2 :
  levenshteinDistance s1 s2 = levenshteinDistance s2 s1.
Proof.
  destruct (decide (s1 = "")) as [->|H1].
  { by rewrite levenshteinDistance_empty_l, levenshteinDistance_empty_r. }
  destruct (decide (s2 = "")) as [->|H2].
  { by rewrite levenshteinDistance_empty_l, levenshteinDistance_empty_r. }
  rewrite !levenshteinDistance_editDistance by done. apply editDistance_spec_sym.
Qed.

(** X1. The text similarity does not depend on the order of the two
    texts. *)
Theorem calculateTextSimilarity_sym a b :
  calculateTextSimilarity a b = calculateTextSimilarity b a.
Proof.
  unfold calculateTextSimilarity.
  rewrite (String.eqb_sym b a), (orb_comm (String.eqb b "")),
    (levenshteinDistance_sym b a).
  unfold max. by rewrite (Z.max_comm (len b)).
Qed.

(** X2. The text similarity of any two texts lies between 0 and 1. *)
Theorem calculateTextSimilarity_bounds a b :
  (0 <= calculateTextSimilarity a b)%Qc /\ (calculateTextSimilarity a b <= 1)%Qc.
Proof.
  destruct (decide (a = b)) as [->|Hab].
  { rewrite calculateTextSimilarity_same. by split. }
  destruct (decide (a = "")) as [->|Ha].
  { rewrite calculateTextSimilarity_empty_l by done. by split. }
  destruct (decide (b = "")) as [->|Hb].
  { rewrite calculateTextSimilarity_empty_r by done. by split. }
  rewrite calculateTextSimilarity_ne, levenshteinDistance_editDistance by done.
  pose proof (editDistance_spec_bounds a b).
  apply RatioFacts.one_minus_ratio_bounds; unfold max; [done|].
  pose proof (len_nonneg a). pose proof (len_nonneg b).
  destruct (decide (len a = 0)) as [E|]; [by apply len_0 in E|lia].
Qed.

(** X3. Only the first 500 bytes of a text are compared: two texts with
    the same first 500 bytes have similarity 1, equal or not. *)
Theorem calculateTextSimilarity_same_prefix a b :
  a <> "" -> truncate500 a = truncate500 b ->
  calculateTextSimilarity a b = 1%Qc.
Proof.
  intros Ha Hpre.
  assert (Hb : b <> "").
  { intros ->. apply (truncate500_nonempty a Ha). by rewrite Hpre. }
  destruct (decide (a = b)) as [->|Hab]; [apply calculateTextSimilarity_same|].
  rewrite calculateTextSimilarity_ne, levenshteinDistance_editDistance by done.
  unfold editDistance_spec. rewrite Hpre, lev_diag, Z2Qc_inj_0.
  unfold Qcdiv. rewrite Qcmult_0_l. ring.
Qed.

Lemma calculateTextSimilarity_same_prefix_witness :
  Demo.xs 501 <> (Demo.xs 500 ++ "y")%string /\
  calculateTextSimilarity (Demo.xs 501) (Demo.xs 500 ++ "y") = 1%Qc.
Proof.
  split; [by vm_compute|].
  apply calculateTextSimilarity_same_prefix; by vm_compute.
Defined.

End KernelMore.

Module ResponseCacheMore.
Import ResponseCache ResponseCacheSweep ResponseCacheFacts.

Section Reading.
Context `{Hashing}.

(** X4. A [Get] hits exactly on a stored entry that is at most [ttl] old: it
    returns the response of the entry and counts one access on it, leaving
    the rest of the cache alone. On an absent entry and on an entry older
    than [ttl] it reports a miss and leaves the cache as it is: the expired
    entry is still stored. *)
Theorem Get_hits_live_entries_only now rc req :
  Stream req = false -> generateCacheKey req <> "" ->
  match cache rc !! generateCacheKey req with
  | Some entry =>
      if decide (now - CreatedAt entry <= ttl rc)
      then Get now rc req
           = (Response entry, true,
              {| cache := <[generateCacheKey req :=
                              {| Response := Response entry;
                                 CreatedAt := CreatedAt entry;
                                 AccessCount := AccessCount entry + 1 |}]>
                            (cache rc);
                 maxSize := maxSize rc; ttl := ttl rc |})
      else Get now rc req = (None, false, rc)
  | None => Get now rc req = (None, false, rc)
  end.
Proof.
  intros Hs Hk. unfold Get. rewrite Hs.
  apply String.eqb_neq in Hk. rewrite Hk.
  destruct (cache rc !! generateCacheKey req) as [entry|]; [|done].
  destruct (decide (now - CreatedAt entry <= ttl rc));
    destruct (Z.gtb_spec (now - CreatedAt entry) (ttl rc)); (done || lia).
Qed.

(** X5. A streaming request and a request without messages are never stored
    and never found, whatever the cache holds. *)
Theorem streaming_and_empty_requests_bypass_cache visit now rc req response :
  Stream req = true \/ Messages req = [] ->
  Set_ visit now rc req response = rc /\
  Get now rc req = (None, false, rc).
Proof.
  intros Hwhy.
  assert (Hkey : Stream req = true \/ generateCacheKey req = "").
  { destruct Hwhy as [Hs|Hm]; [by left|right].
    unfold generateCacheKey. rewrite Hm. cbn. by rewrite orb_true_r. }
  unfold Set_, Get. destruct Hkey as [-> | ->]; [done|].
  by destruct (Stream req).
Qed.

End Reading.

(** The loop of the sweep: an entry is gone once a visited copy of it is
    expired, and all the others stay. *)
Lemma sweep_fold now ttl0 (l : list (string * CacheEntry)) :
  forall (c : gmap string CacheEntry) k,
    fold_left (sweepStep now ttl0) l c !! k
    = if decide (Exists (fun kv => kv.1 = k /\ now - CreatedAt kv.2 > ttl0) l)
      then None else c !! k.
Proof.
  induction l as [|[k0 e0] l IH]; intros c k.
  - cbn. rewrite decide_False; [done|]. by intros ?%Exists_nil.
  - cbn [fold_left]. rewrite IH. unfold sweepStep.
    destruct (decide (Exists _ l)) as [Hl|Hl].
    + rewrite decide_True; [done|]. by apply Exists_cons_tl.
    + destruct (Z.gtb_spec (now - CreatedAt e0) ttl0) as [Hexp|Hlive].
      * destruct (decide (k0 = k)) as [->|Hne].
        -- rewrite lookup_delete_eq. rewrite decide_True; [done|].
           apply Exists_cons_hd. cbn. split; [done|lia].
        -- rewrite lookup_delete_ne by done. rewrite decide_False; [done|].
           intros [[? ?]|?]%Exists_cons; [by cbn in *|done].
      * rewrite decide_False; [done|].
        intros [[? ?]|?]%Exists_cons; [cbn in *; lia|done].
Qed.

(** X6. The sweep deletes the entries older than [ttl], and only those,
    whatever the order in which the map is visited. *)
Theorem cleanup_removes_expired_entries visit now rc k :
  visit ≡ₚ map_to_list (cache rc) ->
  cache (cleanup visit now rc) !! k
  = match cache rc !! k with
    | Some entry =>
        if decide (now - CreatedAt entry <= ttl rc) then Some entry else None
    | None => None
    end.
Proof.
  intros Hperm. unfold cleanup. cbn [cache]. rewrite sweep_fold.
  destruct (cache rc !! k) as [entry|] eqn:E.
  - destruct (decide (now - CreatedAt entry <= ttl rc)) as [Hlive|Hexp].
    + rewrite decide_False; [done|]. intros Hex.
      apply Exists_exists in Hex as ([k' e'] & Hin & Hk & Hold). cbn in *.
      subst k'. rewrite Hperm in Hin. apply elem_of_map_to_list in Hin.
      rewrite E in Hin. injection Hin as <-. lia.
    + rewrite decide_True; [done|]. apply Exists_exists.
      exists (k, entry). split; [|cbn; split; [done|lia]].
      rewrite Hperm. by apply elem_of_map_to_list.
  - rewrite decide_False; [done|]. intros Hex.
    apply Exists_exists in Hex as ([k' e'] & Hin & Hk & _). cbn in *.
    subst k'. rewrite Hperm in Hin. apply elem_of_map_to_list in Hin.
    congruence.
Qed.

Section Writing.
Context `{Hashing}.

(** X7. The size check of [Set] does not look whether the key is stored
    already: writing a stored key into a full cache evicts a least entry
    all the same, and when that entry is another one the cache ends up one
    entry short of its capacity. *)
Theorem Set_of_stored_key_at_capacity_evicts visit now rc req response old :
  wf (cache rc) ->
  visit ≡ₚ map_to_list (cache rc) ->
  1 <= maxSize rc ->
  Z.of_nat (size (cache rc)) = maxSize rc ->
  Stream req = false ->
  cache rc !! generateCacheKey req = Some old ->
  exists k e,
    cache rc !! k = Some e /\ least (cache rc) e /\
    cache (Set_ visit now rc req response)
    = <[generateCacheKey req :=
          {| Response := response; CreatedAt := now; AccessCount := 1 |}]>
        (delete k (cache rc)) /\
    (k <> generateCacheKey req ->
     cache (Set_ visit now rc req response) !! k = None /\
     Z.of_nat (size (cache (Set_ visit now rc req response))) = maxSize rc - 1).
Proof.
  intros Hwf Hperm Hmax Hfull Hs Hold.
  assert (Hk : generateCacheKey req <> "") by (by destruct (Hwf _ _ Hold)).
  rewrite Set_cache_fresh by done.
  destruct (Z.geb_spec (Z.of_nat (size (cache rc))) (maxSize rc)); [|lia].
  destruct (evictLRU_spec visit (cache rc)) as (k & e & Hke & Hleast & ->);
    [done|done| |].
  { apply map_size_non_empty_iff. lia. }
  exists k, e. split; [done|]. split; [done|]. split; [done|].
  intros Hne. split.
  - rewrite lookup_insert_ne by done. apply lookup_delete_eq.
  - rewrite map_size_insert_Some
      by (rewrite lookup_delete_ne by done; eauto).
    rewrite map_size_delete_Some by eauto.
    assert (size (cache rc) <> 0%nat) by lia. lia.
Qed.

End Writing.

#[local] Existing Instance Demo.hashing.

Lemma pingCache_wf : wf (cache Examples.pingCache).
Proof.
  intros k e. cbn [cache Examples.pingCache]. rewrite lookup_insert.
  case_decide.
  - intros [= <-]. split; [subst; by vm_compute|cbn; lia].
  - rewrite lookup_insert. case_decide; [|by rewrite lookup_empty].
    intros [= <-]. split; [by subst|cbn; lia].
Qed.

Lemma Get_hits_live_entries_only_witness :
  Get (5 + 10 * minute) Examples.pingCache Demo.plainRequest
  = (Some "pong", true,
     {| cache := <[generateCacheKey Demo.plainRequest :=
                     {| Response := Some "pong"; CreatedAt := 5;
                        AccessCount := 4 |}]> (cache Examples.pingCache);
        maxSize := 2; ttl := 10 * minute |}) /\
  Get (6 + 10 * minute) Examples.pingCache Demo.plainRequest
  = (None, false, Examples.pingCache).
Proof.
  split.
  - pose proof (Get_hits_live_entries_only (5 + 10 * minute)
                  Examples.pingCache Demo.plainRequest) as Hit.
    change (cache Examples.pingCache !! generateCacheKey Demo.plainRequest)
      with (Some {| Response := Some "pong"; CreatedAt := 5;
                    AccessCount := 3 |}) in Hit.
    cbv beta iota in Hit.
    rewrite decide_True in Hit by (by vm_compute).
    apply Hit; [reflexivity|by vm_compute].
  - pose proof (Get_hits_live_entries_only (6 + 10 * minute)
                  Examples.pingCache Demo.plainRequest) as Miss.
    change (cache Examples.pingCache !! generateCacheKey Demo.plainRequest)
      with (Some {| Response := Some "pong"; CreatedAt := 5;
                    AccessCount := 3 |}) in Miss.
    cbv beta iota in Miss.
    rewrite decide_False in Miss by (by vm_compute).
    apply Miss; [reflexivity|by vm_compute].
Defined.

Lemma streaming_and_empty_requests_bypass_cache_witness :
  Set_ (map_to_list (cache Examples.pingCache)) 9 Examples.pingCache
    Examples.streamingRequest (Some "pong") = Examples.pingCache /\
  Get 9 Examples.pingCache Examples.streamingRequest
  = (None, false, Examples.pingCache).
Proof.
  apply streaming_and_empty_requests_bypass_cache. left. reflexivity.
Defined.

Lemma cleanup_removes_expired_entries_witness :
  let rc := cleanup (map_to_list (cache Examples.pingCache))
              (6 + 10 * minute) Examples.pingCache in
  cache rc !! generateCacheKey Demo.plainRequest = None /\
  cache rc !! "b"
  = Some {| Response := Some "rb"; CreatedAt := 7; AccessCount := 1 |}.
Proof.
  intros rc. unfold rc. split.
  - rewrite cleanup_removes_expired_entries by reflexivity. by vm_compute.
  - rewrite cleanup_removes_expired_entries by reflexivity. by vm_compute.
Defined.

Lemma Set_of_stored_key_at_capacity_evicts_witness :
  let rc' := Set_ (map_to_list (cache Examples.pingCache)) 9
               Examples.pingCache Demo.plainRequest (Some "pong again") in
  exists k e,
    cache Examples.pingCache !! k = Some e /\
    least (cache Examples.pingCache) e /\
    cache rc'
    = <[generateCacheKey Demo.plainRequest :=
          {| Response := Some "pong again"; CreatedAt := 9;
             AccessCount := 1 |}]>
        (delete k (cache Examples.pingCache)) /\
    (k <> generateCacheKey Demo.plainRequest ->
     cache rc' !! k = None /\
     Z.of_nat (size (cache rc')) = maxSize Examples.pingCache - 1).
Proof.
  intros rc'.
  apply (Set_of_stored_key_at_capacity_evicts
           (map_to_list (cache Examples.pingCache)) 9 Examples.pingCache
           Demo.plainRequest (Some "pong again")
           {| Response := Some "pong"; CreatedAt := 5; AccessCount := 3 |}).
  - apply pingCache_wf.
  - reflexivity.
  - by vm_compute.
  - by vm_compute.
  - reflexivity.
  - by vm_compute.
Defined.

End ResponseCacheMore.

Module PredictiveCacheFacts2.
Import PredictiveCache PredictiveCacheMore PredictiveCacheFacts.

Lemma length_filter_elements (P : string -> Prop) `{!forall x, Decision (P x)}
    (X : gset string) :
  List.length (filter P (elements X)) = size (filter P X).
Proof.
  symmetry. unfold filter at 1, set_filter.
  apply size_list_to_set, NoDup_filter, NoDup_elements.
Qed.

Section Jaccard.
Context `{GoStrings}.

Lemma calculateTextSimilarity_words text1 text2 :
  Fields text1 <> [] -> Fields text2 <> [] ->
  calculateTextSimilarity text1 text2
  = (Qc_of_Z (Z.of_nat (size (words text1 ∩ words text2)))
     / Qc_of_Z (Z.of_nat (size (words text1 ∪ words text2))))%Qc.
Proof.
  intros H1 H2. unfold calculateTextSimilarity. fold (words text1) (words text2).
  destruct (Fields text1) as [|w1 ws1] eqn:E1; [done|].
  destruct (Fields text2) as [|w2 ws2] eqn:E2; [done|].
  change (Z.of_nat (List.length (w1 :: ws1)) =? 0) with false.
  change (Z.of_nat (List.length (w2 :: ws2)) =? 0) with false. cbn [andb orb].
  rewrite !length_filter_elements.
  assert (Hi : filter (fun w => w ∈ words text1) (words text2)
               = words text1 ∩ words text2).
  { apply set_eq. intros w. rewrite elem_of_filter, elem_of_intersection. tauto. }
  assert (Hd : filter (fun w => w ∉ words text1) (words text2)
               = words text2 ∖ words text1).
  { apply set_eq. intros w. rewrite elem_of_filter, elem_of_difference. tauto. }
  rewrite Hi, Hd, <- Nat2Z.inj_add, <- size_union_alt.
  assert (Hpos : size (words text1 ∪ words text2) <> 0%nat).
  { apply size_non_empty_iff. intros Hempty.
    assert (Hw : w1 ∈ words text1 ∪ words text2).
    { apply elem_of_union_l. unfold words. rewrite E1.
      apply elem_of_list_to_set. by left. }
    rewrite Hempty in Hw. by apply elem_of_empty in Hw. }
  destruct (Z.eqb_spec (Z.of_nat (size (words text1 ∪ words text2))) 0); [lia|done].
Qed.

(** X8. On two texts that both have words, the similarity is the Jaccard
    index of their word sets: the number of words in both over the number
    of words in either, each distinct word counted once. *)
Theorem calculateTextSimilarity_jaccard text1 text2 :
  Fields text1 <> [] -> Fields text2 <> [] ->
  calculateTextSimilarity text1 text2
  = (Qc_of_Z (Z.of_nat (size (words text1 ∩ words text2)))
     / Qc_of_Z (Z.of_nat (size (words text1 ∪ words text2))))%Qc.
Proof. apply calculateTextSimilarity_words. Qed.

Lemma calculateTextSimilarity_words_sym text1 text2 :
  calculateTextSimilarity text1 text2 = calculateTextSimilarity text2 text1.
Proof.
  destruct (Fields text1) as [|w1 ws1] eqn:E1;
    destruct (Fields text2) as [|w2 ws2] eqn:E2.
  - unfold calculateTextSimilarity. by rewrite E1, E2.
  - unfold calculateTextSimilarity. by rewrite E1, E2.
  - unfold calculateTextSimilarity. by rewrite E1, E2.
  - rewrite !calculateTextSimilarity_words by (by rewrite ?E1, ?E2).
    by rewrite (comm_L (∩) (words text2)), (comm_L (∪) (words text2)).
Qed.

Lemma calculateTextSimilarity_words_bounds text1 text2 :
  (0 <= calculateTextSimilarity text1 text2)%Qc /\
  (calculateTextSimilarity text1 text2 <= 1)%Qc.
Proof.
  destruct (Fields text1) as [|w1 ws1] eqn:E1;
    destruct (Fields text2) as [|w2 ws2] eqn:E2.
  - unfold calculateTextSimilarity. rewrite E1, E2. by split.
  - unfold calculateTextSimilarity. rewrite E1, E2. by split.
  - unfold calculateTextSimilarity. rewrite E1, E2. by split.
  - rewrite calculateTextSimilarity_words by (by rewrite ?E1, ?E2).
    apply RatioFacts.ratio_bounds.
    + split; [lia|]. apply inj_le, subseteq_size.
      intros w Hw. apply elem_of_intersection in Hw as [Hw _].
      by apply elem_of_union_l.
    + assert (size (words text1 ∪ words text2) <> 0%nat); [|lia].
      apply size_non_empty_iff. intros Hempty.
      assert (Hw : w1 ∈ words text1 ∪ words text2).
      { apply elem_of_union_l. unfold words. rewrite E1.
        apply elem_of_list_to_set. by left. }
      rewrite Hempty in Hw. by apply elem_of_empty in Hw.
Qed.

Lemma calculateContentSimilarity_sym msgs1 msgs2 :
  calculateContentSimilarity msgs1 msgs2 = calculateContentSimilarity msgs2 msgs1.
Proof.
  unfold calculateContentSimilarity.
  rewrite (andb_comm (Z.of_nat (List.length msgs2) =? 0)),
    (orb_comm (Z.of_nat (List.length msgs2) =? 0)).
  by rewrite (calculateTextSimilarity_words_sym (extractTextFromMessages msgs2)).
Qed.

Lemma calculateContentSimilarity_bounds msgs1 msgs2 :
  (0 <= calculateContentSimilarity msgs1 msgs2)%Qc /\
  (calculateContentSimilarity msgs1 msgs2 <= 1)%Qc.
Proof.
  unfold calculateContentSimilarity.
  destruct ((Z.of_nat (List.length msgs1) =? 0) && (Z.of_nat (List.length msgs2) =? 0));
    [by split|].
  destruct ((Z.of_nat (List.length msgs1) =? 0) || (Z.of_nat (List.length msgs2) =? 0));
    [by split|].
  apply calculateTextSimilarity_words_bounds.
Qed.

Lemma weights_sum : (0 + w03 + w02 + w05 = 1)%Qc.
Proof. apply Qc_is_canon. reflexivity. Qed.

(** The score before the division: a part in [0, 1/2] for model and
    message count, and half the content similarity. *)
Lemma calculateSimilarity_parts req1 req2 :
  exists c, (0 <= c)%Qc /\ (c <= w05)%Qc /\
    calculateSimilarity req1 req2
    = (c + calculateContentSimilarity (Messages req1) (Messages req2) * w05)%Qc /\
    c = ((if String.eqb (Model req1) (Model req2) then w03 else 0)
         + (if Z.of_nat (List.length (Messages req1))
               =? Z.of_nat (List.length (Messages req2)) then w02 else 0))%Qc.
Proof.
  exists ((if String.eqb (Model req1) (Model req2) then w03 else 0)
          + (if Z.of_nat (List.length (Messages req1))
                =? Z.of_nat (List.length (Messages req2)) then w02 else 0))%Qc.
  split; [|split; [|split; [|reflexivity]]].
  - destruct (String.eqb _ _), (Z.eqb _ _); by vm_compute.
  - destruct (String.eqb _ _), (Z.eqb _ _); by vm_compute.
  - unfold calculateSimilarity. rewrite weights_sum, (right_id_L 1%Qc Qcdiv).
    destruct (String.eqb _ _), (Z.eqb _ _); ring.
Qed.

(** X9. The request similarity does not depend on the order of the two
    requests and lies between 0 and 1. *)
Theorem calculateSimilarity_sym_bounds req1 req2 :
  calculateSimilarity req1 req2 = calculateSimilarity req2 req1 /\
  (0 <= calculateSimilarity req1 req2)%Qc /\
  (calculateSimilarity req1 req2 <= 1)%Qc.
Proof.
  destruct (calculateSimilarity_parts req1 req2) as (c & Hc0 & Hc1 & -> & Hc).
  destruct (calculateSimilarity_parts req2 req1) as (c' & _ & _ & -> & Hc').
  destruct (calculateContentSimilarity_bounds (Messages req1) (Messages req2))
    as [Hs0 Hs1].
  assert (Hw : (0 <= w05)%Qc) by (by vm_compute).
  split; [|split].
  - rewrite Hc, Hc', (String.eqb_sym (Model req2)),
      (Z.eqb_sym (Z.of_nat (List.length (Messages req2)))).
    by rewrite (calculateContentSimilarity_sym (Messages req2)).
  - apply Qcplus_nonneg_nonneg; [done|]. by apply Qcmult_nonneg_nonneg.
  - replace 1%Qc with (w05 + 1 * w05)%Qc by (apply Qc_is_canon; reflexivity).
    apply Qcplus_le_compat; [done|]. by apply Qcmult_le_mono_nonneg_r.
Qed.

End Jaccard.

Section Lifetime.
Context `{Hashing} `{GoStrings}.

(** X10. An entry written by [Set] is served for 10 minutes, an entry written
    by the prefetcher for 30 minutes; both are served with confidence 1,
    whatever confidence the prefetcher stored; after that time [Get]
    misses. *)
Theorem entry_lifetime_and_confidence visit now now' pc req response confidence :
  (now' - now <= 10 * minute ->
   (Get visit now' (Set_ now pc req response) req).1
   = (response, true, 1%Qc)) /\
  (10 * minute < now' - now ->
   Get visit now' (Set_ now pc req response) req
   = (None, false, 0%Qc, Set_ now pc req response)) /\
  (now' - now <= 30 * minute ->
   (Get visit now' (setPrefetchCache now pc req response confidence) req).1
   = (response, true, 1%Qc)) /\
  (30 * minute < now' - now ->
   Get visit now' (setPrefetchCache now pc req response confidence) req
   = (None, false, 0%Qc, setPrefetchCache now pc req response confidence)).
Proof.
  split; [|split; [|split]]; intros Hage.
  - unfold Get, Set_. cbn [cache]. rewrite lookup_insert_eq.
    unfold isExpired. cbn.
    destruct (Z.gtb_spec (now' - now) (10 * minute)); [lia|done].
  - apply Get_without_exact_match. intros entry. unfold Set_. cbn [cache].
    rewrite lookup_insert_eq. intros [= <-]. unfold isExpired. cbn.
    destruct (Z.gtb_spec (now' - now) (10 * minute)); [done|lia].
  - unfold Get, setPrefetchCache. cbn [cache]. rewrite lookup_insert_eq.
    unfold isExpired. cbn.
    destruct (Z.gtb_spec (now' - now) (30 * minute)); [lia|done].
  - apply Get_without_exact_match. intros entry. unfold setPrefetchCache.
    cbn [cache]. rewrite lookup_insert_eq. intros [= <-]. unfold isExpired. cbn.
    destruct (Z.gtb_spec (now' - now) (30 * minute)); [done|lia].
Qed.

End Lifetime.

Lemma sweepCache_fold now (l : list (string * PredictiveCacheEntry)) :
  forall (c : gmap string PredictiveCacheEntry) k,
    fold_left (sweepStep now) l c !! k
    = if decide (Exists (fun kv => kv.1 = k /\ isExpired now kv.2 = true) l)
      then None else c !! k.
Proof.
  induction l as [|[k0 e0] l IH]; intros c k.
  - cbn. rewrite decide_False; [done|]. by intros ?%Exists_nil.
  - cbn [fold_left]. rewrite IH. unfold sweepStep.
    destruct (decide (Exists _ l)) as [Hl|Hl].
    + rewrite decide_True; [done|]. by apply Exists_cons_tl.
    + destruct (isExpired now e0) eqn:Hexp.
      * destruct (decide (k0 = k)) as [->|Hne].
        -- rewrite lookup_delete_eq. rewrite decide_True; [done|].
           by apply Exists_cons_hd.
        -- rewrite lookup_delete_ne by done. rewrite decide_False; [done|].
           intros [[? ?]|?]%Exists_cons; [by cbn in *|done].
      * rewrite decide_False; [done|].
        intros [[? ?]|?]%Exists_cons; [cbn in *; congruence|done].
Qed.

(** X11. The sweep of the predictive cache deletes the expired entries, each
    by its own time to live, and only those. *)
Theorem sweepCache_removes_expired_entries visit now pc k :
  visit ≡ₚ map_to_list (cache pc) ->
  cache (sweepCache visit now pc) !! k
  = match cache pc !! k with
    | Some entry => if isExpired now entry then None else Some entry
    | None => None
    end.
Proof.
  intros Hperm. unfold sweepCache. cbn [cache]. rewrite sweepCache_fold.
  destruct (cache pc !! k) as [entry|] eqn:E.
  - destruct (isExpired now entry) eqn:Hexp.
    + rewrite decide_True; [done|]. apply Exists_exists.
      exists (k, entry). split; [|done].
      rewrite Hperm. by apply elem_of_map_to_list.
    + rewrite decide_False; [done|]. intros Hex.
      apply Exists_exists in Hex as ([k' e'] & Hin & Hk & Hold). cbn in *.
      subst k'. rewrite Hperm in Hin. apply elem_of_map_to_list in Hin.
      congruence.
  - rewrite decide_False; [done|]. intros Hex.
    apply Exists_exists in Hex as ([k' e'] & Hin & Hk & _). cbn in *.
    subst k'. rewrite Hperm in Hin. apply elem_of_map_to_list in Hin.
    congruence.
Qed.

Section Learning.
Context `{Hashing} `{PatternHashing}.

Lemma learnAll_snoc patterns seen now req :
  learnAll patterns (seen ++ [(now, req)])
  = learnPattern now (learnAll patterns seen) req.
Proof. unfold learnAll. by rewrite fold_left_app. Qed.

Lemma last10_snoc {A} (l : list A) (x : A) :
  (let vs := drop (List.length l - 10) l ++ [x] in
   if Z.of_nat (List.length vs) >? 10 then drop 1 vs else vs)
  = drop (List.length (l ++ [x]) - 10) (l ++ [x]).
Proof.
  cbv zeta. rewrite !length_app, length_drop. cbn [List.length].
  destruct (Z.gtb_spec (Z.of_nat (List.length l - (List.length l - 10) + 1)) 10)
    as [Hgt|Hle].
  - assert (10 <= List.length l)%nat by lia.
    rewrite drop_app_le by (rewrite length_drop; lia).
    rewrite drop_drop, drop_app_le by lia. do 2 f_equal. lia.
  - assert (List.length l < 10)%nat by lia.
    replace (List.length l - 10)%nat with 0%nat by lia.
    replace (List.length l + 1 - 10)%nat with 0%nat by lia. done.
Qed.

(** X12. After the requests [seen], all of one pattern key that was not known
    before, the pattern counts them, keeps the first as its base, the time
    of the last, and the last 10 in their order. *)
Theorem learnPattern_counts_and_keeps_last_10 patterns key first rest :
  patterns !! key = None ->
  (forall tr, tr ∈ first :: rest -> generatePatternKey tr.2 = key) ->
  exists p,
    learnAll patterns (first :: rest) !! key = Some p /\
    Frequency p = Z.of_nat (List.length (first :: rest)) /\
    BaseRequest p = first.2 /\
    LastSeen p = (List.last rest first).1 /\
    Variations p
    = drop (List.length (first :: rest) - 10) ((first :: rest).*2).
Proof.
  intros Hnew. induction rest as [|[now req] rest IH] using rev_ind; intros Hkey.
  - exists {| BaseRequest := first.2; Variations := [first.2]; Frequency := 1;
              LastSeen := first.1; NextPredicted := first.1 + hour;
              SuccessRate := 1%Qc |}.
    split; [|done]. unfold learnAll, learnPattern. cbn [fold_left].
    rewrite (Hkey first) by (by left). rewrite Hnew. apply lookup_insert_eq.
  - destruct IH as (p & Hp & Hfreq & Hbase & Hlast & Hvars).
    { intros tr Hin. apply Hkey. rewrite app_comm_cons.
      apply elem_of_app. by left. }
    assert (Hk : generatePatternKey req = key).
    { apply (Hkey (now, req)). rewrite app_comm_cons.
      apply elem_of_app. right. by left. }
    rewrite app_comm_cons, learnAll_snoc. unfold learnPattern at 1.
    rewrite Hk, Hp. eexists. split; [apply lookup_insert_eq|].
    cbn [Frequency BaseRequest LastSeen Variations].
    split; [rewrite Hfreq, !length_app; cbn [List.length]; lia|].
    split; [done|]. split; [by rewrite last_last|].
    rewrite Hvars, fmap_app. change ([(now, req)].*2) with [req].
    pose proof (last10_snoc ((first :: rest).*2) req) as Hring.
    cbv zeta in Hring.
    rewrite (length_app ((first :: rest).*2) [req]), !length_fmap in Hring.
    rewrite (length_app (first :: rest) [(now, req)]). exact Hring.
Qed.

End Learning.

Section Confidence.
Context `{GoStrings}.

(** X13. The confidence of a prediction lies between 0 and the success rate of
    the pattern, for a pattern seen in the past with a frequency and a
    success rate that are not negative. *)
Theorem calculatePredictionConfidence_bounds now current predicted pattern :
  0 <= Frequency pattern -> LastSeen pattern <= now ->
  (0 <= SuccessRate pattern)%Qc ->
  (0 <= calculatePredictionConfidence now current predicted pattern)%Qc /\
  (calculatePredictionConfidence now current predicted pattern
   <= SuccessRate pattern)%Qc.
Proof.
  intros Hfreq Hseen Hrate. unfold calculatePredictionConfidence.
  set (f := if bool_decide (1 < Qc_of_Z (Frequency pattern) / Qc_of_Z 100)%Qc
            then 1%Qc else (Qc_of_Z (Frequency pattern) / Qc_of_Z 100)%Qc).
  set (t := if bool_decide
                 (1 - Qc_of_Z (now - LastSeen pattern) / Qc_of_Z hour / Qc_of_Z 24 < 0)%Qc
            then 0%Qc
            else (1 - Qc_of_Z (now - LastSeen pattern) / Qc_of_Z hour / Qc_of_Z 24)%Qc).
  assert (Hf : (0 <= f)%Qc /\ (f <= 1)%Qc).
  { unfold f. case_bool_decide as Hcap; [by split|]. split.
    - unfold Qcdiv. apply Qcmult_nonneg_nonneg; [|by vm_compute].
      rewrite <- Z2Qc_inj_0. by apply (proj1 (Z2Qc_inj_le 0 _)).
    - by apply Qcnot_lt_le. }
  assert (Ht : (0 <= t)%Qc /\ (t <= 1)%Qc).
  { unfold t. case_bool_decide as Hneg; [by split|]. split.
    - by apply Qcnot_lt_le.
    - apply Qcle_minus_iff.
      replace (1 + - (1 - Qc_of_Z (now - LastSeen pattern) / Qc_of_Z hour / Qc_of_Z 24))%Qc
        with (Qc_of_Z (now - LastSeen pattern) / Qc_of_Z hour / Qc_of_Z 24)%Qc by ring.
      unfold Qcdiv. apply Qcmult_nonneg_nonneg; [|by vm_compute].
      apply Qcmult_nonneg_nonneg; [|by vm_compute].
      rewrite <- Z2Qc_inj_0. apply (proj1 (Z2Qc_inj_le 0 _)). lia. }
  destruct (calculateSimilarity_sym_bounds current predicted) as (_ & Hs0 & Hs1).
  destruct Hf as [Hf0 Hf1], Ht as [Ht0 Ht1].
  assert (H4 : (0 <= Qc_of_Z 4 / Qc_of_Z 10)%Qc) by (by vm_compute).
  assert (H3 : (0 <= Qc_of_Z 3 / Qc_of_Z 10)%Qc) by (by vm_compute).
  split.
  - apply Qcmult_nonneg_nonneg; [|done].
    repeat apply Qcplus_nonneg_nonneg; by apply Qcmult_nonneg_nonneg.
  - rewrite <- (Qcmult_1_l (SuccessRate pattern)) at 2.
    apply Qcmult_le_mono_nonneg_r; [done|].
    replace 1%Qc with (1 * (Qc_of_Z 4 / Qc_of_Z 10) + 1 * (Qc_of_Z 3 / Qc_of_Z 10)
                       + 1 * (Qc_of_Z 3 / Qc_of_Z 10))%Qc
      by (apply Qc_is_canon; reflexivity).
    repeat apply Qcplus_le_compat; by apply Qcmult_le_mono_nonneg_r.
Qed.

End Confidence.

#[local] Existing Instance Demo.hashing.
#[local] Existing Instance Demo.strings.
#[local] Existing Instance Examples.patternHashing.

Lemma calculateTextSimilarity_jaccard_witness :
  calculateTextSimilarity "how do I sort" "how do you sort"
  = (Qc_of_Z (Z.of_nat (size (words "how do I sort" ∩ words "how do you sort")))
     / Qc_of_Z (Z.of_nat (size (words "how do I sort" ∪ words "how do you sort"))))%Qc.
Proof.
  apply calculateTextSimilarity_jaccard; by vm_compute.
Defined.

Lemma entry_lifetime_and_confidence_witness :
  (Get [] (10 * minute) (Set_ 0 predictiveCache Demo.plainRequest (Some "pong"))
     Demo.plainRequest).1 = (Some "pong", true, 1%Qc) /\
  (Get [] (30 * minute)
     (setPrefetchCache 0 predictiveCache Demo.plainRequest (Some "pong")
        (Qc_of_Z 1 / Qc_of_Z 2)%Qc)
     Demo.plainRequest).1 = (Some "pong", true, 1%Qc).
Proof.
  destruct (entry_lifetime_and_confidence [] 0 (10 * minute) predictiveCache
              Demo.plainRequest (Some "pong") 0%Qc) as (Hset & _).
  destruct (entry_lifetime_and_confidence [] 0 (30 * minute) predictiveCache
              Demo.plainRequest (Some "pong") (Qc_of_Z 1 / Qc_of_Z 2)%Qc)
    as (_ & _ & Hpre & _).
  split; [apply Hset; by vm_compute|apply Hpre; by vm_compute].
Defined.

Lemma sweepCache_removes_expired_entries_witness :
  let pc := Set_ 0 predictiveCache Demo.plainRequest (Some "pong") in
  cache (sweepCache (map_to_list (cache pc)) (11 * minute) pc)
    !! generateKey Demo.plainRequest = None.
Proof.
  intros pc. unfold pc.
  rewrite sweepCache_removes_expired_entries by reflexivity. by vm_compute.
Defined.

Lemma learnPattern_counts_and_keeps_last_10_witness :
  exists p,
    learnAll ∅ [(1, Demo.plainRequest); (2, Demo.dressedRequest)]
      !! generatePatternKey Demo.plainRequest = Some p /\
    Frequency p = 2 /\
    BaseRequest p = Demo.plainRequest /\
    LastSeen p = 2 /\
    Variations p = [Demo.plainRequest; Demo.dressedRequest].
Proof.
  apply (learnPattern_counts_and_keeps_last_10 ∅
           (generatePatternKey Demo.plainRequest)
           (1, Demo.plainRequest) [(2, Demo.dressedRequest)]).
  - apply lookup_empty.
  - intros tr Hin. apply elem_of_cons in Hin as [->|Hin]; [reflexivity|].
    apply list_elem_of_singleton in Hin as ->. reflexivity.
Defined.

Lemma calculatePredictionConfidence_bounds_witness :
  (0 <= calculatePredictionConfidence hour Demo.plainRequest
          Demo.dressedRequest Examples.pattern)%Qc /\
  (calculatePredictionConfidence hour Demo.plainRequest
     Demo.dressedRequest Examples.pattern <= 1)%Qc.
Proof.
  apply (calculatePredictionConfidence_bounds hour Demo.plainRequest
           Demo.dressedRequest Examples.pattern); by vm_compute.
Defined.

End PredictiveCacheFacts2.

Module DedupMore.
Import Dedup DedupSweep DedupFacts.

(** *** Sends that go through *)

Lemma fanOut_fresh subscribers v : forall chans,
  NoDup subscribers ->
  (forall ch, ch ∈ subscribers -> chans !! ch = Some emptyChannel) ->
  is_Some (fanOut subscribers v chans).
Proof.
  induction subscribers as [|s rest IH]; intros chans Hnd Hall; [by eexists|].
  apply NoDup_cons in Hnd as [Hs Hnd]. cbn [fanOut].
  rewrite deliver_fresh by (apply Hall; left). cbn.
  apply IH; [done|]. intros ch Hin.
  rewrite lookup_insert_ne; [apply Hall; by right|]. intros <-. by apply Hs.
Qed.

(** Answering every channel of a record whose channels are distinct,
    empty and open goes through, and touches no other channel. *)
Lemma answer_waiters a v chans :
  NoDup (waiters a) ->
  (forall ch, ch ∈ waiters a -> chans !! ch = Some emptyChannel) ->
  exists chans1 chans2,
    deliver (ResponseCh a) v chans = Some chans1 /\
    fanOut (Subscribers a) v chans1 = Some chans2 /\
    (forall ch, ch ∈ waiters a -> chans2 !! ch = Some (answered v)) /\
    (forall ch, ch ∉ waiters a -> chans2 !! ch = chans !! ch).
Proof.
  unfold waiters. intros Hnd Hall. apply NoDup_cons in Hnd as [Hrc Hnd].
  exists (<[ResponseCh a := answered v]> chans).
  destruct (fanOut_fresh (Subscribers a) v
              (<[ResponseCh a := answered v]> chans)) as [chans2 Hf];
    [done| |].
  { intros ch Hin. rewrite lookup_insert_ne; [apply Hall; by right|].
    intros <-. by apply Hrc. }
  exists chans2. split; [apply deliver_fresh, Hall; left|]. split; [done|].
  destruct (fanOut_spec _ _ _ _ Hf) as (Hsubs & Hkeep & Hframe). split.
  - intros ch Hin. apply elem_of_cons in Hin as [->|Hin]; [|by apply Hsubs].
    apply Hkeep, lookup_insert_eq.
  - intros ch Hnin. apply not_elem_of_cons in Hnin as [Hne Hnin].
    rewrite Hframe by done. by apply lookup_insert_ne.
Qed.

Section Reachable.
Context `{Hashing}.

(** *** The invariant of the deduplicator *)

Lemma consistent_initial : consistent requestDeduplicator.
Proof. split; cbn; intros; by simplify_map_eq. Qed.

Lemma consistent_new_channel rd rd' c :
  consistent rd ->
  activeRequests rd' = activeRequests rd -> objects rd' = objects rd ->
  executions rd' = executions rd ->
  channels rd' = <[nextName rd := c]> (channels rd) ->
  nextName rd' = S (nextName rd) ->
  consistent rd'.
Proof.
  intros [I0 I1 I2 I3 I4 I5] Ha Ho He Hc Hn.
  split; rewrite ?Ha, ?Ho, ?He, ?Hc, ?Hn; try done.
  - intros p a Hp Hg. destruct (I3 p a Hp Hg) as [Hnd Hall]. split; [done|].
    intros ch Hin. rewrite lookup_insert_ne; [by apply Hall|].
    destruct (I4 p a Hp) as [_ Hb]. specialize (Hb ch Hin). lia.
  - intros p a Hp. destruct (I4 p a Hp) as [Hlt Hb]. split; [lia|].
    intros ch Hin. specialize (Hb ch Hin). lia.
Qed.

Lemma consistent_ProcessRequest now rd req :
  consistent rd -> consistent (ProcessRequest now rd req).2.
Proof.
  intros Hc. unfold ProcessRequest.
  destruct (activeRequests rd !! generateRequestHash req) as [p|] eqn:Hact.
  - (* one more subscriber on the record [p] *)
    cbn. destruct Hc as [I0 I1 I2 I3 I4 I5].
    match goal with |- context [alter ?f _ _] => set (subscribe := f) end.
    assert (Hold : forall q a', alter subscribe p (objects rd) !! q = Some a' ->
              exists a, objects rd !! q = Some a /\
                forall ch, ch ∈ waiters a' ->
                  ch ∈ waiters a \/ (ch = nextName rd /\ q = p)).
    { intros q a' Hq.
      apply lookup_alter_Some in Hq as [(<- & a & Ha & ->)|(Hne & Ha)].
      - exists a. split; [done|]. intros ch Hin.
        change (ch ∈ waiters a ++ [nextName rd]) in Hin.
        apply elem_of_app in Hin as [Hin|Hin]; [by left|].
        apply list_elem_of_singleton in Hin. by right.
      - exists a'. split; [done|]. by left. }
    assert (Hfresh : forall q a ch, objects rd !! q = Some a ->
              ch ∈ waiters a -> ch <> nextName rd).
    { intros q a ch Ha Hin. destruct (I4 q a Ha) as [_ Hb].
      specialize (Hb ch Hin). lia. }
    split; cbn.
    + intros q a' Hq.
      apply lookup_alter_Some in Hq as [(<- & a & Ha & ->)|(Hne & Ha)];
        [apply (I0 p a Ha)|apply (I0 q a' Ha)].
    + intros h q Hq. destruct (I1 h q Hq) as (a & Ha & Hh & He).
      destruct (decide (q = p)) as [->|Hne].
      * eexists. rewrite lookup_alter_eq, Ha. by cbn.
      * exists a. by rewrite lookup_alter_ne.
    + intros q g Hq. destruct (I2 q g Hq) as (a & Ha & Hh).
      destruct (decide (q = p)) as [->|Hne].
      * eexists. rewrite lookup_alter_eq, Ha. by cbn.
      * exists a. by rewrite lookup_alter_ne.
    + intros q a' Hq Hg.
      apply lookup_alter_Some in Hq as [(<- & a & Ha & ->)|(Hne & Ha)].
      * destruct (I3 p a Ha Hg) as [Hnd Hall].
        change (waiters (subscribe a)) with (waiters a ++ [nextName rd]).
        split.
        -- apply NoDup_app. split; [done|]. split; [|apply NoDup_singleton].
           intros ch Hin Hin'. apply list_elem_of_singleton in Hin'.
           by apply (Hfresh p a ch).
        -- intros ch Hin. apply elem_of_app in Hin as [Hin|Hin].
           ++ rewrite lookup_insert_ne; [by apply Hall|].
              intros E. by apply (Hfresh p a ch).
           ++ apply list_elem_of_singleton in Hin as ->.
              apply lookup_insert_eq.
      * destruct (I3 q a' Ha Hg) as [Hnd Hall]. split; [done|].
        intros ch Hin. rewrite lookup_insert_ne; [by apply Hall|].
        intros E. by apply (Hfresh q a' ch).
    + intros q a' Hq. destruct (Hold q a' Hq) as (a & Ha & Hw).
      destruct (I4 q a Ha) as [Hlt Hb]. split; [lia|].
      intros ch Hin. destruct (Hw ch Hin) as [Hin'|[-> _]]; [|lia].
      specialize (Hb ch Hin'). lia.
    + intros q1 q2 a1 a2 ch Hne H1 H2 Hin1 Hin2.
      destruct (Hold q1 a1 H1) as (b1 & Hb1 & Hw1).
      destruct (Hold q2 a2 H2) as (b2 & Hb2 & Hw2).
      destruct (Hw1 ch Hin1) as [Hin1'|[E1 E1']];
        destruct (Hw2 ch Hin2) as [Hin2'|[E2 E2']].
      * by apply (I5 q1 q2 b1 b2 ch).
      * by apply (Hfresh q1 b1 ch).
      * by apply (Hfresh q2 b2 ch).
      * congruence.
  - set (fresh := match recentRequests rd !! generateRequestHash req with
                  | Some recentReq => _ | None => _ end).
    destruct fresh as [resp|].
    { by eapply consistent_new_channel. }
    destruct (tryMergeRequest now (mergeableGroups rd) req)
      as [[mergedResponse|] groups'].
    { by eapply consistent_new_channel. }
    (* a new record and a new execution *)
    cbn. destruct Hc as [I0 I1 I2 I3 I4 I5].
    assert (Hobj : objects rd !! S (nextName rd) = None).
    { destruct (objects rd !! S (nextName rd)) as [a|] eqn:E; [|done].
      destruct (I4 _ a E). lia. }
    assert (Hexe : executions rd !! S (nextName rd) = None).
    { destruct (executions rd !! S (nextName rd)) as [g|] eqn:E; [|done].
      destruct (I2 _ g E) as (a & Ha & _). by rewrite Hobj in Ha. }
    assert (Hfresh : forall q a ch, objects rd !! q = Some a ->
              ch ∈ waiters a -> ch <> nextName rd).
    { intros q a ch Ha Hin. destruct (I4 q a Ha) as [_ Hb].
      specialize (Hb ch Hin). lia. }
    split; cbn.
    + intros q a Hq. apply lookup_insert_Some in Hq as [[<- <-]|[Hne Hq]];
        [done|by apply (I0 q a)].
    + intros h q Hq. apply lookup_insert_Some in Hq as [[<- <-]|[Hne Hq]].
      * eexists. rewrite !lookup_insert_eq. by cbn.
      * destruct (I1 h q Hq) as (a & Ha & Hh & He). exists a.
        assert (S (nextName rd) <> q) by (intros <-; by rewrite Hobj in Ha).
        by rewrite !lookup_insert_ne.
    + intros q g Hq. apply lookup_insert_Some in Hq as [[<- <-]|[Hne Hq]].
      * eexists. rewrite lookup_insert_eq. split; [done|]. cbn.
        apply lookup_insert_eq.
      * destruct (I2 q g Hq) as (a & Ha & Hh). exists a.
        rewrite lookup_insert_ne by done. split; [done|].
        rewrite lookup_insert_ne; [done|]. intros E. by rewrite <- E, Hact in Hh.
    + intros q a Hq Hg. apply lookup_insert_Some in Hq as [[<- <-]|[Hne Hq]].
      * cbn. split; [apply NoDup_singleton|].
        intros ch Hin. apply list_elem_of_singleton in Hin as ->.
        apply lookup_insert_eq.
      * rewrite lookup_insert_ne in Hg by done.
        destruct (I3 q a Hq Hg) as [Hnd Hall]. split; [done|].
        intros ch Hin. rewrite lookup_insert_ne; [by apply Hall|].
        intros E. by apply (Hfresh q a ch).
    + intros q a Hq. apply lookup_insert_Some in Hq as [[<- <-]|[Hne Hq]].
      * cbn. split; [lia|]. intros ch Hin.
        apply list_elem_of_singleton in Hin as ->. cbn. lia.
      * destruct (I4 q a Hq) as [Hlt Hb]. split; [lia|].
        intros ch Hin. specialize (Hb ch Hin). lia.
    + intros q1 q2 a1 a2 ch Hne H1 H2 Hin1 Hin2.
      apply lookup_insert_Some in H1 as [[<- <-]|[Hne1 H1]];
        apply lookup_insert_Some in H2 as [[<- <-]|[Hne2 H2]].
      * done.
      * cbn in Hin1. apply list_elem_of_singleton in Hin1 as ->.
        by apply (Hfresh q2 a2 (nextName rd)).
      * cbn in Hin2. apply list_elem_of_singleton in Hin2 as ->.
        by apply (Hfresh q1 a1 (nextName rd)).
      * by apply (I5 q1 q2 a1 a2 ch).
Qed.

Lemma consistent_publish p response err rd rd' :
  consistent rd -> publish p response err rd = Some rd' -> consistent rd'.
Proof.
  intros [I0 I1 I2 I3 I4 I5] Hp. unfold publish in Hp.
  destruct (executions rd !! p) as [[|]|] eqn:Hg; try done.
  destruct (objects rd !! p) as [a|] eqn:Ha; [|done].
  destruct (deliver _ _ _) as [chans1|] eqn:Hd; [|done]. cbn in Hp.
  destruct (fanOut _ _ _) as [chans2|] eqn:Hf; [|done]. cbn in Hp.
  injection Hp as <-. split; cbn; try done.
  - intros h q Hq. destruct (I1 h q Hq) as (b & Hb & Hh & He).
    exists b. split; [done|]. split; [done|].
    destruct (decide (p = q)) as [->|Hne];
      [by rewrite lookup_insert_eq|by rewrite lookup_insert_ne].
  - intros q g Hq. apply lookup_insert_Some in Hq as [[<- <-]|[Hne Hq]].
    + by apply (I2 p InFlight).
    + by apply (I2 q g).
  - intros q b Hb Hq. apply lookup_insert_Some in Hq as [[_ ?]|[Hne Hq]];
      [done|].
    destruct (I3 q b Hb Hq) as [Hnd Hall]. split; [done|].
    intros ch Hin. rewrite <- (Hall ch Hin).
    assert (Hnin : ch ∉ waiters a) by by apply (I5 q p b a ch).
    apply not_elem_of_cons in Hnin as [Hne' Hnin].
    apply deliver_spec in Hd as [_ ->].
    destruct (fanOut_spec _ _ _ _ Hf) as (_ & _ & Hframe).
    rewrite Hframe by done. by apply lookup_insert_ne.
Qed.

Lemma consistent_finish now p rd rd' :
  consistent rd -> finish now p rd = Some rd' -> consistent rd'.
Proof.
  intros [I0 I1 I2 I3 I4 I5] Hp. unfold finish in Hp.
  destruct (executions rd !! p) as [[|response err]|] eqn:Hg; try done.
  destruct (objects rd !! p) as [a|] eqn:Ha; [|done].
  injection Hp as <-.
  destruct (I2 p _ Hg) as (a0 & Ha0 & Hact).
  assert (a0 = a) as -> by congruence.
  split; cbn; try done.
  - intros h q Hq. apply lookup_delete_Some in Hq as [Hne Hq].
    destruct (I1 h q Hq) as (b & Hb & Hh & He).
    exists b. split; [done|]. split; [done|].
    rewrite lookup_delete_ne; [done|]. intros <-. congruence.
  - intros q g Hq. apply lookup_delete_Some in Hq as [Hne Hq].
    destruct (I2 q g Hq) as (b & Hb & Hh). exists b. split; [done|].
    rewrite lookup_delete_ne; [done|]. intros E. rewrite <- E in Hh. congruence.
  - intros q b Hb Hq. apply lookup_delete_Some in Hq as [Hne Hq].
    by apply (I3 q b).
Qed.

Lemma consistent_run steps : forall rd rd',
  consistent rd -> run rd steps = Some rd' -> consistent rd'.
Proof.
  induction steps as [|s rest IH]; intros rd rd' Hc Hr.
  - by injection Hr as <-.
  - cbn [run] in Hr. destruct (run1 rd s) as [rd1|] eqn:H1; [|done].
    cbn in Hr. apply (IH rd1); [|done].
    destruct s as [now req|p response err|now p]; cbn in H1.
    + injection H1 as <-. by apply consistent_ProcessRequest.
    + by eapply consistent_publish.
    + by eapply consistent_finish.
Qed.

Lemma reachable_consistent rd : reachable rd -> consistent rd.
Proof. intros [steps Hr]. eapply consistent_run; [apply consistent_initial|done]. Qed.

(** *** Executions in reachable states *)

(** X14. In every state reached by calls of [ProcessRequest] and steps
    of [executeRequest], no two executions that have not finished are
    for requests with the same hash. *)
Theorem one_execution_per_hash rd p q a b :
  reachable rd ->
  is_Some (executions rd !! p) -> is_Some (executions rd !! q) ->
  objects rd !! p = Some a -> objects rd !! q = Some b ->
  generateRequestHash (Request a) = generateRequestHash (Request b) ->
  p = q.
Proof.
  intros Hr [g Hg] [g' Hg'] Ha Hb Hh.
  destruct (reachable_consistent rd Hr) as [I0 _ I2 _ _ _].
  destruct (I2 p g Hg) as (a0 & Ha0 & Hp).
  destruct (I2 q g' Hg') as (b0 & Hb0 & Hq).
  assert (a0 = a) as -> by congruence. assert (b0 = b) as -> by congruence.
  rewrite (I0 p a Ha) in Hp. rewrite (I0 q b Hb), <- Hh in Hq. congruence.
Qed.

(** X15. In every state reached by calls of [ProcessRequest] and steps
    of [executeRequest], the sends of an execution in flight go through
    (none of its channels is closed or full), and so does the
    bookkeeping after them. *)
Theorem execution_steps_go_through rd p :
  reachable rd ->
  (executions rd !! p = Some InFlight ->
   forall response err, is_Some (publish p response err rd)) /\
  (forall response err now,
     executions rd !! p = Some (Published response err) ->
     is_Some (finish now p rd)).
Proof.
  intros Hr. destruct (reachable_consistent rd Hr) as [_ _ I2 I3 _ _]. split.
  - intros Hg response err. destruct (I2 p _ Hg) as (a & Ha & _).
    destruct (I3 p a Ha Hg) as [Hnd Hall].
    destruct (answer_waiters a
                {| Response := response; Error := err;
                   FromCache := false; Merged := false |}
                (channels rd) Hnd Hall) as (chans1 & chans2 & Hd & Hf & _).
    unfold publish. rewrite Hg, Ha, Hd. cbn. rewrite Hf. cbn. by eexists.
  - intros response err now Hg. destruct (I2 p _ Hg) as (a & Ha & _).
    unfold finish. rewrite Hg, Ha. by eexists.
Qed.

(** *** The timeout sweep *)

Lemma expire_fold now : forall visit st,
  NoDup visit.*1 -> NoDup visit.*2 ->
  (forall h p, (h, p) ∈ visit -> exists a, objects st !! p = Some a /\
     (now - StartTime a > 2 * minute ->
      NoDup (waiters a) /\
      forall ch, ch ∈ waiters a -> channels st !! ch = Some emptyChannel)) ->
  (forall p q a b ch, p <> q ->
     objects st !! p = Some a -> objects st !! q = Some b ->
     ch ∈ waiters a -> ch ∉ waiters b) ->
  exists st', fold_left (expireStep now) visit (Some st) = Some st' /\
    objects st' = objects st /\ executions st' = executions st /\
    recentRequests st' = recentRequests st /\
    mergeableGroups st' = mergeableGroups st /\
    (forall h p a, (h, p) ∈ visit -> objects st !! p = Some a ->
       now - StartTime a > 2 * minute -> activeRequests st' !! h = None) /\
    (forall h, (forall p a, (h, p) ∈ visit -> objects st !! p = Some a ->
                  ~ now - StartTime a > 2 * minute) ->
       activeRequests st' !! h = activeRequests st !! h) /\
    (forall h p a ch, (h, p) ∈ visit -> objects st !! p = Some a ->
       now - StartTime a > 2 * minute -> ch ∈ waiters a ->
       channels st' !! ch = Some (answered timeoutResp)) /\
    (forall ch, (forall h p a, (h, p) ∈ visit -> objects st !! p = Some a ->
                   now - StartTime a > 2 * minute -> ch ∉ waiters a) ->
       channels st' !! ch = channels st !! ch).
Proof.
  induction visit as [|[h p] rest IH]; intros st Hnd1 Hnd2 Hobj Hdis.
  { exists st. cbn. repeat split; try done.
    intros ? ? ? Hin. by apply elem_of_nil in Hin. 
    intros ? ? ? ? Hin. by apply elem_of_nil in Hin. }
  cbn in Hnd1, Hnd2.
  apply NoDup_cons in Hnd1 as [Hh Hnd1]. apply NoDup_cons in Hnd2 as [Hp Hnd2].
  destruct (Hobj h p) as (a & Ha & Hfresh); [left|].
  assert (Hrest : forall h' p', (h', p') ∈ rest -> h' <> h /\ p' <> p).
  { intros h' p' Hin. split; intros ->.
    - apply Hh. apply list_elem_of_fmap. by exists (h, p').
    - apply Hp. apply list_elem_of_fmap. by exists (h', p). }
  cbn [fold_left]. unfold expireStep at 2. cbn. rewrite Ha.
  destruct (now - StartTime a >? 2 * minute) eqn:Hstale.
  - assert (Hgt : now - StartTime a > 2 * minute) by lia.
    destruct (Hfresh Hgt) as [Hnd Hall].
    destruct (answer_waiters a timeoutResp (channels st) Hnd Hall)
      as (chans1 & chans2 & Hd & Hf & Hans & Hframe).
    rewrite Hd. cbn. rewrite Hf. cbn.
    match goal with |- context [fold_left _ _ (Some ?st1)] =>
      destruct (IH st1) as (st' & Hfold & Ho & He & Hr & Hg & Hnone & Hsame
                            & Hansw & Hfr) end; cbn; [done|done| |done|].
    { intros h' p' Hin. destruct (Hobj h' p') as (a' & Ha' & Hfresh');
        [by right|].
      exists a'. split; [done|]. intros Hgt'.
      destruct (Hfresh' Hgt') as [Hnd' Hall']. split; [done|].
      intros ch Hin'. rewrite Hframe; [by apply Hall'|].
      apply (Hdis p' p a' a ch); [|done..]. by apply (Hrest h' p'). }
    cbn in *. exists st'. split; [done|]. repeat split; try done.
    + intros h0 p0 a0 Hin Ha0 Hgt0.
      apply elem_of_cons in Hin as [[= -> ->]|Hin]; [|by apply (Hnone h0 p0 a0)].
      rewrite Hsame; [apply lookup_delete_eq|].
      intros p' a' Hin. by destruct (Hrest _ _ Hin).
    + intros h0 Hall0.
      assert (h0 <> h).
      { intros ->. apply (Hall0 p a); [left|done..]. }
      rewrite Hsame; [by apply lookup_delete_ne|].
      intros p' a' Hin. apply (Hall0 p' a'). by right.
    + intros h0 p0 a0 ch Hin Ha0 Hgt0 Hch.
      apply elem_of_cons in Hin as [[= -> ->]|Hin];
        [|by apply (Hansw h0 p0 a0)].
      assert (a0 = a) as -> by congruence.
      rewrite Hfr; [by apply Hans|].
      intros h' p' a' Hin Ha' _.
      apply (Hdis p p' a a' ch); [|done..].
      intros ->. by destruct (Hrest _ _ Hin).
    + intros ch Hch. rewrite Hfr.
      * apply Hframe. apply (Hch h p a); [left|done..].
      * intros h' p' a' Hin Ha' Hgt'. apply (Hch h' p' a'); [by right|done..].
  - assert (Hle : ~ now - StartTime a > 2 * minute) by lia.
    destruct (IH st) as (st' & Hfold & Ho & He & Hr & Hg & Hnone & Hsame
                         & Hansw & Hfr); [done|done| |done|].
    { intros h' p' Hin. apply (Hobj h' p'). by right. }
    exists st'. split; [done|]. repeat split; try done.
    + intros h0 p0 a0 Hin Ha0 Hgt0.
      apply elem_of_cons in Hin as [[= -> ->]|Hin]; [|by apply (Hnone h0 p0 a0)].
      assert (a0 = a) as -> by congruence. done.
    + intros h0 Hall0. apply Hsame. intros p' a' Hin.
      apply (Hall0 p' a'). by right.
    + intros h0 p0 a0 ch Hin Ha0 Hgt0 Hch.
      apply elem_of_cons in Hin as [[= -> ->]|Hin];
        [|by apply (Hansw h0 p0 a0)].
      assert (a0 = a) as -> by congruence. done.
    + intros ch Hch. apply Hfr. intros h' p' a' Hin Ha' Hgt'.
      apply (Hch h' p' a'); [by right|done..].
Qed.

(** X16. The sweep on a state reached without one, when every
    execution older than 2 minutes is still in flight: the sweep goes
    through; the record of such an execution is dropped and all its
    channels hold the timeout error and are closed, so that the sends of
    the execution, which is still running, cannot go through any more; a
    younger record stays. *)
Theorem cleanup_times_out_stale_executions rd visit now :
  reachable rd ->
  visit ≡ₚ map_to_list (activeRequests rd) ->
  (forall p a g, executions rd !! p = Some g -> objects rd !! p = Some a ->
     now - StartTime a > 2 * minute -> g = InFlight) ->
  exists rd', cleanup visit now rd = Some rd' /\
    executions rd' = executions rd /\
    forall h p a,
      activeRequests rd !! h = Some p -> objects rd !! p = Some a ->
      (now - StartTime a > 2 * minute ->
         activeRequests rd' !! h = None /\
         (forall ch, ch ∈ waiters a ->
            channels rd' !! ch = Some (answered timeoutResp)) /\
         forall response err, publish p response err rd' = None) /\
      (~ now - StartTime a > 2 * minute ->
         activeRequests rd' !! h = Some p).
Proof.
  intros Hr Hperm Hflight.
  destruct (reachable_consistent rd Hr) as [I0 I1 I2 I3 I4 I5].
  assert (Hin : forall h p, (h, p) ∈ visit <-> activeRequests rd !! h = Some p).
  { intros h p. rewrite Hperm. apply elem_of_map_to_list. }
  assert (Hnd1 : NoDup visit.*1).
  { rewrite Hperm. apply NoDup_fst_map_to_list. }
  assert (Hnd2 : NoDup visit.*2).
  { apply NoDup_fmap_2_strong.
    - intros [h1 p1] [h2 p2] H1 H2 E. cbn in E. subst p2.
      apply Hin in H1, H2.
      destruct (I1 _ _ H1) as (a1 & Ha1 & <- & _).
      destruct (I1 _ _ H2) as (a2 & Ha2 & <- & _). congruence.
    - rewrite Hperm. apply NoDup_map_to_list. }
  unfold cleanup.
  match goal with |- context [fold_left _ _ (Some ?st0)] =>
    destruct (expire_fold now visit st0 Hnd1 Hnd2)
      as (rd' & Hfold & Ho & He & _ & _ & Hnone & Hsame & Hansw & _) end;
    cbn.
  { intros h p Hhp. apply Hin in Hhp.
    destruct (I1 h p Hhp) as (a & Ha & _ & [g Hg]). exists a. split; [done|].
    intros Hgt. apply (I3 p a Ha). by rewrite (Hflight p a g Hg Ha Hgt) in Hg. }
  { done. }
  cbn in *. exists rd'. split; [done|]. split; [done|].
  intros h p a Hact Ha. split.
  - intros Hgt. split; [by apply (Hnone h p a); [apply Hin|..]|].
    assert (Hch : forall ch, ch ∈ waiters a ->
              channels rd' !! ch = Some (answered timeoutResp)).
    { intros ch Hch. by apply (Hansw h p a ch); [apply Hin|..]. }
    split; [done|]. intros response err.
    destruct (I1 h p Hact) as (a0 & Ha0 & _ & [g Hg]).
    rewrite (Hflight p a g Hg Ha Hgt) in Hg.
    unfold publish. rewrite He, Hg, Ho, Ha.
    unfold deliver, send. rewrite (Hch (ResponseCh a)) by left. done.
  - intros Hle. rewrite Hsame; [done|].
    intros p' a' Hhp Ha'. apply Hin in Hhp.
    assert (p' = p) as -> by congruence. by assert (a' = a) as -> by congruence.
Qed.

(** *** A request and its repeat *)

(** The call that starts the execution [p]: what it found and what it
    leaves. *)
Lemma ProcessRequest_start now rd req p :
  executions rd !! p = None ->
  executions (ProcessRequest now rd req).2 !! p = Some InFlight ->
  p = S (nextName rd) /\
  activeRequests rd !! generateRequestHash req = None /\
  (forall r, recentRequests rd !! generateRequestHash req = Some r ->
     (now - Timestamp r <? 2 * minute) = false) /\
  exists groups',
    tryMergeRequest now (mergeableGroups rd) req = (None, groups') /\
    ProcessRequest now rd req =
    (nextName rd,
     {| activeRequests := <[generateRequestHash req := p]> (activeRequests rd);
        recentRequests := recentRequests rd;
        mergeableGroups := groups';
        objects := <[p := {| Request := req; ResponseCh := nextName rd;
                             Subscribers := []; StartTime := now;
                             RequestHash := generateRequestHash req |}]>
                     (objects rd);
        channels := <[nextName rd := emptyChannel]> (channels rd);
        executions := <[p := InFlight]> (executions rd);
        nextName := S (S (nextName rd)) |}).
Proof.
  intros Hnone. unfold ProcessRequest.
  destruct (activeRequests rd !! generateRequestHash req) as [q|] eqn:Hact;
    [cbn; congruence|].
  destruct (recentRequests rd !! generateRequestHash req) as [r|] eqn:Hrec.
  - destruct (now - Timestamp r <? 2 * minute) eqn:Ht; [cbn; congruence|].
    destruct (tryMergeRequest now (mergeableGroups rd) req)
      as [[mergedResponse|] groups'] eqn:Hm; [cbn; congruence|].
    cbn. intros Hp. apply lookup_insert_Some in Hp as [[<- _]|[_ Hp]];
      [|congruence].
    split; [done|]. split; [done|]. split; [congruence|].
    by exists groups'.
  - destruct (tryMergeRequest now (mergeableGroups rd) req)
      as [[mergedResponse|] groups'] eqn:Hm; [cbn; congruence|].
    cbn. intros Hp. apply lookup_insert_Some in Hp as [[<- _]|[_ Hp]];
      [|congruence].
    split; [done|]. split; [done|]. split; [done|].
    by exists groups'.
Qed.

(** A merge that gave no response gives none later either. *)
Lemma tryMergeRequest_none_again now t' groups groups' req :
  tryMergeRequest now groups req = (None, groups') -> now <= t' ->
  exists groups'', tryMergeRequest t' groups' req = (None, groups'').
Proof.
  unfold tryMergeRequest. intros Hm Hle.
  destruct (groups !! generateMergeKey req) as [g|] eqn:Hg.
  - destruct (canMergeWithGroup req g && (now - LastMerged g <? 5 * minute))
      eqn:Hc.
    + destruct (ResponseCache g) eqn:Hr; [done|]. injection Hm as <-.
      rewrite lookup_insert_eq. cbn [ResponseCache].
      cbn. match goal with |- context [if ?c then _ else _] => destruct c end;
        by eexists.
    + injection Hm as <-. rewrite Hg.
      assert (canMergeWithGroup req g && (t' - LastMerged g <? 5 * minute)
              = false) as ->; [|by eexists].
      apply andb_false_iff in Hc as [Hc|Hc]; [by rewrite Hc|].
      apply andb_false_iff. right. lia.
  - injection Hm as <-. rewrite Hg. by eexists.
Qed.

(** X17. A request that started an execution, the execution's success,
    and the same request again less than 2 minutes after the
    bookkeeping: the repeat is answered from the recent record, with the
    same response, and runs nothing. *)
Theorem completed_request_is_replayed now t t' rd req p response :
  executions rd !! p = None ->
  executions (ProcessRequest now rd req).2 !! p = Some InFlight ->
  t' - t < 2 * minute ->
  exists rd2 rd3,
    publish p response None (ProcessRequest now rd req).2 = Some rd2 /\
    finish t p rd2 = Some rd3 /\
    let '(ch, rd4) := ProcessRequest t' rd3 req in
    channels rd4 !! ch
    = Some (answered {| Response := response; Error := None;
                        FromCache := true; Merged := false |}) /\
    executions rd4 = executions rd /\
    activeRequests rd4 = activeRequests rd.
Proof.
  intros Hnone Hstart Ht.
  destruct (ProcessRequest_start now rd req p Hnone Hstart)
    as (-> & Hact & _ & groups' & _ & ->).
  cbn [snd]. unfold publish. cbn. rewrite !lookup_insert_eq.
  rewrite deliver_fresh by apply lookup_insert_eq. cbn.
  eexists _, _. split; [done|].
  unfold finish. cbn. rewrite !lookup_insert_eq. split; [done|].
  unfold ProcessRequest. cbn. rewrite lookup_delete_eq, lookup_insert_eq. cbn.
  assert ((t' - t <? 2 * minute) = true) as -> by lia. cbn.
  split; [apply lookup_insert_eq|]. split.
  - rewrite insert_insert_eq, delete_insert_eq. by apply delete_id.
  - rewrite delete_insert_eq. by apply delete_id.
Qed.

(** X18. A request that started an execution, the execution's
    failure, and the same request again at any later time: the failure
    leaves no recent record, and the repeat starts a new execution. *)
Theorem failed_request_is_executed_again now t t' rd req p response e :
  executions rd !! p = None ->
  executions (ProcessRequest now rd req).2 !! p = Some InFlight ->
  now <= t' ->
  exists rd2 rd3,
    publish p response (Some e) (ProcessRequest now rd req).2 = Some rd2 /\
    finish t p rd2 = Some rd3 /\
    recentRequests rd3 = recentRequests rd /\
    let '(ch, rd4) := ProcessRequest t' rd3 req in
    channels rd4 !! ch = Some emptyChannel /\
    exists p', p' <> p /\
               executions rd4 !! p' = Some InFlight /\
               activeRequests rd4 !! generateRequestHash req = Some p'.
Proof.
  intros Hnone Hstart Ht.
  destruct (ProcessRequest_start now rd req p Hnone Hstart)
    as (-> & Hact & Hrec & groups' & Hm & ->).
  destruct (tryMergeRequest_none_again now t' _ groups' req Hm Ht)
    as [groups'' Hm'].
  cbn [snd]. unfold publish. cbn. rewrite !lookup_insert_eq.
  rewrite deliver_fresh by apply lookup_insert_eq. cbn.
  eexists _, _. split; [done|].
  unfold finish. cbn. rewrite !lookup_insert_eq. split; [done|].
  cbn. split; [done|].
  unfold ProcessRequest. cbn. rewrite lookup_delete_eq.
  assert (match recentRequests rd !! generateRequestHash req with
          | Some recentReq =>
              if t' - Timestamp recentReq <? 2 * minute
              then Some {| Response := RecentResponse recentReq; Error := None;
                           FromCache := true; Merged := false |}
              else None
          | None => None
          end = None) as ->.
  { destruct (recentRequests rd !! generateRequestHash req) as [r|] eqn:Hr;
      [|done].
    specialize (Hrec r eq_refl).
    assert ((t' - Timestamp r <? 2 * minute) = false) as -> by lia. done. }
  rewrite Hm'. cbn. split; [apply lookup_insert_eq|].
  exists (S (S (S (nextName rd)))). split; [|split].
  - lia.
  - apply lookup_insert_eq.
  - apply lookup_insert_eq.
Qed.

(** *** The merge key *)

Lemma sliceTo_all n s : (String.length s <= n)%nat -> sliceTo n s = s.
Proof.
  unfold sliceTo. revert n.
  induction s as [|c s IH]; intros [|n] Hl; cbn in *; try done; try lia.
  f_equal. apply IH. lia.
Qed.

(** X19. The merge key reads the model, the number of messages and the
    first 100 bytes of the last user message, and nothing else of the
    request. *)
Theorem generateMergeKey_reads req1 req2 :
  Model req1 = Model req2 ->
  List.length (Messages req1) = List.length (Messages req2) ->
  sliceTo 100 (lastUserContent (Messages req1))
  = sliceTo 100 (lastUserContent (Messages req2)) ->
  generateMergeKey req1 = generateMergeKey req2.
Proof.
  intros Hm Hn Hc. unfold generateMergeKey. rewrite Hm, Hn.
  assert (Hcut : forall c, (if len c >? 100 then sliceTo 100 c else c)
                           = sliceTo 100 c).
  { intros c. destruct (len c >? 100) eqn:E; [done|].
    symmetry. apply sliceTo_all. unfold len in E. lia. }
  by rewrite !Hcut, Hc.
Qed.

End Reachable.
#[local] Existing Instance Demo.hashing.

Lemma one_execution_per_hash_witness :
  let rd := (ProcessRequest 0 requestDeduplicator Demo.plainRequest).2 in
  reachable rd /\ is_Some (executions rd !! 1%nat) /\ 1%nat = 1%nat.
Proof.
  intros rd.
  assert (Hr : reachable rd) by (exists [Process 0 Demo.plainRequest]; reflexivity).
  assert (Hg : is_Some (executions rd !! 1%nat)) by (by eexists).
  split; [exact Hr|]. split; [exact Hg|].
  apply (one_execution_per_hash rd 1 1
           {| Request := Demo.plainRequest; ResponseCh := 0; Subscribers := [];
              StartTime := 0;
              RequestHash := generateRequestHash Demo.plainRequest |}
           {| Request := Demo.plainRequest; ResponseCh := 0; Subscribers := [];
              StartTime := 0;
              RequestHash := generateRequestHash Demo.plainRequest |});
    [exact Hr|exact Hg|exact Hg|reflexivity|reflexivity|reflexivity].
Defined.

Lemma execution_steps_go_through_witness :
  let rd := (ProcessRequest 0 requestDeduplicator Demo.plainRequest).2 in
  reachable rd /\ is_Some (publish 1 (Some "pong") None rd).
Proof.
  intros rd.
  assert (Hr : reachable rd) by (exists [Process 0 Demo.plainRequest]; reflexivity).
  split; [exact Hr|].
  apply (proj1 (execution_steps_go_through rd 1 Hr)). reflexivity.
Defined.

Lemma cleanup_times_out_stale_executions_witness :
  let rd := (ProcessRequest 0 requestDeduplicator Demo.plainRequest).2 in
  exists rd',
    cleanup (map_to_list (activeRequests rd)) (3 * minute) rd = Some rd' /\
    executions rd' !! 1%nat = Some InFlight /\
    publish 1 (Some "pong") None rd' = None.
Proof.
  intros rd.
  destruct (cleanup_times_out_stale_executions rd
              (map_to_list (activeRequests rd)) (3 * minute))
    as (rd' & Hc & He & Hall).
  - exists [Process 0 Demo.plainRequest]. reflexivity.
  - reflexivity.
  - intros p a g Hg _ _.
    change (executions rd) with (<[1%nat := InFlight]> (∅ : gmap nat goroutine))
      in Hg.
    apply lookup_insert_Some in Hg as [[_ <-]|[_ Hg]]; [reflexivity|].
    by rewrite lookup_empty in Hg.
  - exists rd'. split; [exact Hc|]. split; [rewrite He; reflexivity|].
    destruct (Hall (generateRequestHash Demo.plainRequest) 1%nat
                {| Request := Demo.plainRequest; ResponseCh := 0;
                   Subscribers := []; StartTime := 0;
                   RequestHash := generateRequestHash Demo.plainRequest |})
      as [Hstale _]; [reflexivity|reflexivity|].
    destruct Hstale as (_ & _ & Hpub); [reflexivity|]. apply Hpub.
Defined.

Lemma completed_request_is_replayed_witness :
  let rd1 := (ProcessRequest 0 requestDeduplicator Demo.plainRequest).2 in
  exists rd2 rd3,
    publish 1 (Some "pong") None rd1 = Some rd2 /\
    finish 5 1 rd2 = Some rd3 /\
    let '(ch, rd4) := ProcessRequest 7 rd3 Demo.plainRequest in
    channels rd4 !! ch
    = Some (answered {| Response := Some "pong"; Error := None;
                        FromCache := true; Merged := false |}) /\
    executions rd4 = executions requestDeduplicator /\
    activeRequests rd4 = activeRequests requestDeduplicator.
Proof.
  intros rd1.
  apply (completed_request_is_replayed 0 5 7 requestDeduplicator
           Demo.plainRequest 1 (Some "pong"));
    [reflexivity|reflexivity|reflexivity].
Defined.

Lemma failed_request_is_executed_again_witness :
  let rd1 := (ProcessRequest 0 requestDeduplicator Demo.plainRequest).2 in
  exists rd2 rd3,
    publish 1 None (Some "HTTP 500") rd1 = Some rd2 /\
    finish 5 1 rd2 = Some rd3 /\
    recentRequests rd3 = recentRequests requestDeduplicator /\
    let '(ch, rd4) := ProcessRequest 7 rd3 Demo.plainRequest in
    channels rd4 !! ch = Some emptyChannel /\
    exists p', p' <> 1%nat /\
               executions rd4 !! p' = Some InFlight /\
               activeRequests rd4 !! generateRequestHash Demo.plainRequest
               = Some p'.
Proof.
  intros rd1.
  apply (failed_request_is_executed_again 0 5 7 requestDeduplicator
           Demo.plainRequest 1 None "HTTP 500");
    [reflexivity|reflexivity|lia].
Defined.

Lemma generateMergeKey_reads_witness :
  generateMergeKey Demo.plainRequest = generateMergeKey Demo.dressedRequest.
Proof.
  apply generateMergeKey_reads; reflexivity.
Defined.

End DedupMore.

Module CompressorMore.
Import Compressor CompressorSweep CompressorFacts.

Section Compression.
Context `{Hashing} `{GoStrings} `{Sorting}.

(** *** What [CompressRequest] touches *)

(** X20. [CompressRequest] changes the messages of the request and
    nothing else of it (model, token limit, system prompt, tools, stream
    flag, temperature and metadata come back as they went in), and
    leaves the budget and the ratio of the compressor. *)
Theorem CompressRequest_changes_messages_only now cc req :
  let '(req', cc') := CompressRequest now cc req in
  req' = withMessages req (Messages req') /\
  maxContextLength cc' = maxContextLength cc /\
  compressionRatio cc' = compressionRatio cc.
Proof.
  unfold CompressRequest.
  destruct (Z.of_nat (List.length (Messages req)) <=? 2);
    [by destruct req|].
  destruct (calculateTotalLength (Messages req) <=? maxContextLength cc);
    [by destruct req|].
  destruct (compressionCache cc !! generateCompressionKey (Messages req));
    [done|].
  by destruct (performCompression cc (Messages req)).
Qed.

(** X21. A request over the budget that is compressed a second time, at
    any later moment, comes back with the messages of the first time:
    they are read from the compression cache, the use counter of the
    entry goes up by one, and the summary cache is not touched. *)
Theorem CompressRequest_repeat now now' cc req :
  Z.of_nat (List.length (Messages req)) > 2 ->
  calculateTotalLength (Messages req) > maxContextLength cc ->
  let '(req1, cc1) := CompressRequest now cc req in
  let '(req2, cc2) := CompressRequest now' cc1 req in
  req2 = req1 /\
  summaryCache cc2 = summaryCache cc1 /\
  exists e1 e2,
    compressionCache cc1 !! generateCompressionKey (Messages req) = Some e1 /\
    compressionCache cc2 !! generateCompressionKey (Messages req) = Some e2 /\
    CompressedMessages e1 = Messages req1 /\
    CompressedMessages e2 = Messages req1 /\
    UsageCount e2 = UsageCount e1 + 1.
Proof.
  intros Hlen Hover. unfold CompressRequest.
  assert ((Z.of_nat (List.length (Messages req)) <=? 2) = false) as -> by lia.
  assert ((calculateTotalLength (Messages req) <=? maxContextLength cc)
          = false) as -> by lia.
  destruct (compressionCache cc !! generateCompressionKey (Messages req))
    as [e|].
  - cbn. assert ((calculateTotalLength (Messages req) <=? maxContextLength cc)
                 = false) as -> by lia.
    rewrite lookup_insert_eq. cbn. split; [done|]. split; [done|].
    eexists _, _. rewrite !lookup_insert_eq. by cbn.
  - destruct (performCompression cc (Messages req)) as [msgs summaries'].
    cbn. assert ((calculateTotalLength (Messages req) <=? maxContextLength cc)
                 = false) as -> by lia.
    rewrite lookup_insert_eq. cbn. split; [done|]. split; [done|].
    eexists _, _. rewrite !lookup_insert_eq. by cbn.
Qed.

(** *** The shape of a compressed conversation *)

Lemma buildStep_shape messages selected st i msg :
  let st' := buildStep messages selected st i msg in
  if bool_decide (i ∈ selected) then
    lastIncluded st' = Z.of_nat i /\
    (finalMessages st' = finalMessages st ++ [msg] \/
     Z.of_nat i > lastIncluded st + 1 /\
     exists s, finalMessages st' = finalMessages st ++ [placeholder s; msg])
  else st' = st.
Proof.
  unfold buildStep. destruct (bool_decide (i ∈ selected)); [|done].
  destruct (Z.of_nat i >? lastIncluded st + 1) eqn:Hgap.
  - destruct (createSummary _ _) as [summary cache].
    destruct (String.eqb summary ""); cbn; split; try done.
    + by left.
    + right. split; [lia|]. exists summary. by rewrite <- app_assoc.
  - cbn. split; [done|]. by left.
Qed.

Lemma buildFrom_shape messages selected rest : forall i st,
  lastIncluded st + 1 <= Z.of_nat i ->
  Z.of_nat (List.length (finalMessages st)) <= lastIncluded st + 1 ->
  exists ext,
    finalMessages (buildFrom messages selected st i rest)
    = finalMessages st ++ ext /\
    sublist (keptFrom selected i rest) ext /\
    (forall m, m ∈ ext -> m ∈ rest \/ exists s, m = placeholder s) /\
    Z.of_nat (List.length (finalMessages st ++ ext))
    <= Z.of_nat (i + List.length rest).
Proof.
  induction rest as [|msg rest IH]; intros i st Hlast Hlen.
  { exists []. cbn. rewrite app_nil_r. repeat split; [constructor| |lia].
    intros m Hm. by apply elem_of_nil in Hm. }
  cbn [buildFrom keptFrom].
  pose proof (buildStep_shape messages selected st i msg) as Hstep.
  cbn zeta in Hstep. destruct (bool_decide (i ∈ selected)).
  - destruct Hstep as [Hl Hfin].
    destruct (IH (S i) (buildStep messages selected st i msg))
      as (ext & Hext & Hsub & Hfrom & Hsize).
    { lia. }
    { destruct Hfin as [->|(Hgap & s & ->)]; rewrite length_app; cbn; lia. }
    destruct Hfin as [Hfin|(Hgap & s & Hfin)]; rewrite Hfin in Hext, Hsize.
    + exists (msg :: ext). rewrite Hext, <- app_assoc. split; [done|].
      split; [by apply sublist_skip|]. split.
      * intros m Hm. apply elem_of_cons in Hm as [->|Hm]; [left; left|].
        destruct (Hfrom m Hm) as [?|?]; [left; by right|by right].
      * rewrite <- app_assoc in Hsize. cbn in *. lia.
    + exists (placeholder s :: msg :: ext). rewrite Hext, <- app_assoc.
      split; [done|].
      split; [by apply sublist_cons, sublist_skip|]. split.
      * intros m Hm. apply elem_of_cons in Hm as [->|Hm]; [right; by exists s|].
        apply elem_of_cons in Hm as [->|Hm]; [left; left|].
        destruct (Hfrom m Hm) as [?|?]; [left; by right|by right].
      * rewrite <- app_assoc in Hsize. cbn in *. lia.
  - rewrite Hstep.
    destruct (IH (S i) st) as (ext & Hext & Hsub & Hfrom & Hsize);
      [lia|done|].
    exists ext. split; [done|]. split; [done|]. split.
    + intros m Hm. destruct (Hfrom m Hm) as [?|?]; [left; by right|by right].
    + cbn. lia.
Qed.

Lemma ensureEssentialMessages_builds summaries0 messages selectedIndices :
  let out := (ensureEssentialMessages summaries0 messages selectedIndices).1 in
  sublist (keptFrom (essential messages selectedIndices) 0 messages) out /\
  (forall m, m ∈ out -> m ∈ messages \/ exists s, m = placeholder s) /\
  (List.length out <= List.length messages)%nat.
Proof.
  unfold ensureEssentialMessages. cbn [fst].
  destruct (buildFrom_shape messages (essential messages selectedIndices)
              messages 0
              {| finalMessages := []; lastIncluded := -1;
                 summaries := summaries0 |})
    as (ext & -> & Hsub & Hfrom & Hsize); cbn; [lia|lia|].
  cbn in Hsize. split; [done|]. split; [done|]. lia.
Qed.

(** X22. The last loop of [ensureEssentialMessages] returns the
    messages of the essential indices in their original order, with
    nothing between them but placeholders, and no more messages than it
    was given. *)
Theorem ensureEssentialMessages_shape summaries0 messages selectedIndices :
  let out := (ensureEssentialMessages summaries0 messages selectedIndices).1 in
  sublist (keptFrom (essential messages selectedIndices) 0 messages) out /\
  (forall m, m ∈ out -> m ∈ messages \/ exists s, m = placeholder s) /\
  (List.length out <= List.length messages)%nat.
Proof. apply ensureEssentialMessages_builds. Qed.

(** X23. A compression never returns more messages than it was given. *)
Theorem performCompression_no_more_messages cc messages :
  (List.length (performCompression cc messages).1 <= List.length messages)%nat.
Proof.
  unfold performCompression.
  destruct (Z.of_nat (List.length messages) <=? 2); [done|].
  apply ensureEssentialMessages_builds.
Qed.

End Compression.

(** *** The cache sweep *)

Lemma dropOld_fold now (l : list (string * CompressedContext)) :
  forall (c : gmap string CompressedContext) k,
    fold_left (dropOld now) l c !! k
    = if decide (Exists (fun kv => kv.1 = k /\ now - CreatedAt kv.2 > hour) l)
      then None else c !! k.
Proof.
  induction l as [|[k0 e0] l IH]; intros c k.
  - cbn. rewrite decide_False; [done|]. by intros ?%Exists_nil.
  - cbn [fold_left]. rewrite IH. unfold dropOld. cbn [fst snd].
    destruct (decide (Exists _ l)) as [Hl|Hl].
    + rewrite decide_True; [done|]. by apply Exists_cons_tl.
    + destruct (Z.gtb_spec (now - CreatedAt e0) hour) as [Hexp|Hlive].
      * destruct (decide (k0 = k)) as [->|Hne].
        -- rewrite lookup_delete_eq. rewrite decide_True; [done|].
           apply Exists_cons_hd. cbn. split; [done|lia].
        -- rewrite lookup_delete_ne by done. rewrite decide_False; [done|].
           intros [[? ?]|?]%Exists_cons; [by cbn in *|done].
      * rewrite decide_False; [done|].
        intros [[? ?]|?]%Exists_cons; [cbn in *; lia|done].
Qed.

Lemma trimLoop_spec keys : forall count (m : gmap string string),
  NoDup keys -> (forall k, k ∈ keys -> is_Some (m !! k)) ->
  size m = List.length keys ->
  0 <= count < (count + Z.of_nat (size m) + 1) / 3 ->
  trimLoop keys count m ⊆ m /\
  Z.of_nat (size (trimLoop keys count m))
  = count + Z.of_nat (size m) - (count + Z.of_nat (size m) + 1) / 3.
Proof.
  induction keys as [|key rest IH]; intros count m Hnd Hin Hsize Hcount.
  { cbn in Hsize. rewrite Hsize in Hcount. cbn in Hcount.
    exfalso. destruct Hcount as [H0 Hlt].
    pose proof (Z.div_mod (count + 0 + 1) 3 ltac:(lia)).
    pose proof (Z.mod_pos_bound (count + 0 + 1) 3 ltac:(lia)). lia. }
  apply NoDup_cons in Hnd as [Hkey Hnd]. cbn [trimLoop].
  assert (Hdel : size (delete key m) = pred (size m)).
  { apply map_size_delete_Some, Hin. left. }
  cbn in Hsize.
  set (T := count + Z.of_nat (size m)) in *.
  assert (HT : count + 1 + Z.of_nat (size (delete key m)) = T).
  { unfold T. rewrite Hdel. lia. }
  assert (Hthird : 3 * ((T + 1) / 3) <= T + 1 < 3 * ((T + 1) / 3) + 3).
  { pose proof (Z.div_mod (T + 1) 3 ltac:(lia)).
    pose proof (Z.mod_pos_bound (T + 1) 3 ltac:(lia)). lia. }
  assert (Hhalf : let s := Z.of_nat (size (delete key m)) in
                  2 * (s / 2) <= s < 2 * (s / 2) + 2).
  { cbn. pose proof (Z.div_mod (Z.of_nat (size (delete key m))) 2 ltac:(lia)).
    pose proof (Z.mod_pos_bound (Z.of_nat (size (delete key m))) 2 ltac:(lia)).
    lia. }
  cbn in Hhalf.
  destruct (count + 1 >=? Z.of_nat (size (delete key m)) / 2) eqn:Hbreak.
  - split; [apply delete_subseteq|]. lia.
  - destruct (IH (count + 1) (delete key m)) as [Hsub Hsz].
    + done.
    + intros k Hk. rewrite lookup_delete_ne; [apply Hin; by right|].
      intros ->. done.
    + rewrite Hdel. lia.
    + rewrite HT. lia.
    + split; [etrans; [exact Hsub|apply delete_subseteq]|].
      rewrite Hsz, HT. done.
Qed.

(** X24. [CleanupCache]: the compression entries older than an hour go
    and the others stay; a summary cache of [n] entries is left alone up
    to [n = 1000], and above that it loses [(n + 1) / 3] of its
    entries (a third, because the bound of the loop shrinks with every
    deletion), whatever the order of the visit. *)
Theorem CleanupCache_spec visit keys now cc :
  visit ≡ₚ map_to_list (compressionCache cc) ->
  keys ≡ₚ (map_to_list (summaryCache cc)).*1 ->
  let cc' := CleanupCache visit keys now cc in
  (forall k e, compressionCache cc' !! k = Some e <->
               compressionCache cc !! k = Some e /\ now - CreatedAt e <= hour) /\
  summaryCache cc' ⊆ summaryCache cc /\
  Z.of_nat (size (summaryCache cc'))
  = let n := Z.of_nat (size (summaryCache cc)) in
    if n >? 1000 then n - (n + 1) / 3 else n.
Proof.
  intros Hvisit Hkeys. cbn. split; [|].
  - intros k e. rewrite dropOld_fold.
    destruct (decide (Exists _ visit)) as [Hex|Hex].
    + split; [done|]. intros [Hk Hle].
      apply Exists_exists in Hex as ([k' e'] & Hin & Hk' & Hold). cbn in *.
      subst k'. rewrite Hvisit in Hin. apply elem_of_map_to_list in Hin.
      assert (e' = e) as -> by congruence. lia.
    + split; [|by intros [? _]].
      intros Hk. split; [done|].
      destruct (Z.le_gt_cases (now - CreatedAt e) hour) as [|Hgt]; [done|].
      exfalso. apply Hex. apply Exists_exists. exists (k, e).
      split; [|cbn; split; [done|lia]].
      rewrite Hvisit. by apply elem_of_map_to_list.
  - destruct (Z.of_nat (size (summaryCache cc)) >? 1000) eqn:Hbig; [|done].
    assert (Hthird : let T := Z.of_nat (size (summaryCache cc)) in
                     3 * ((T + 1) / 3) <= T + 1 < 3 * ((T + 1) / 3) + 3).
    { cbn.
      pose proof (Z.div_mod (Z.of_nat (size (summaryCache cc)) + 1) 3
                    ltac:(lia)).
      pose proof (Z.mod_pos_bound (Z.of_nat (size (summaryCache cc)) + 1) 3
                    ltac:(lia)). lia. }
    cbn in Hthird.
    destruct (trimLoop_spec keys 0 (summaryCache cc)) as [Hsub Hsz].
    + rewrite Hkeys. apply NoDup_fst_map_to_list.
    + intros k Hk. rewrite Hkeys in Hk.
      apply list_elem_of_fmap in Hk as ([k' v] & -> & Hk).
      apply elem_of_map_to_list in Hk. by exists v.
    + rewrite Hkeys, length_fmap. symmetry. apply length_map_to_list.
    + rewrite Z.add_0_l. lia.
    + split; [done|]. by rewrite Hsz, Z.add_0_l.
Qed.

#[local] Existing Instance Demo.hashing.
#[local] Existing Instance Demo.strings.
#[local] Existing Instance Demo.sorting.

Lemma ensureEssentialMessages_shape_witness :
  let out := (ensureEssentialMessages ∅ Demo.talk [3%nat]).1 in
  sublist (keptFrom (essential Demo.talk [3%nat]) 0 Demo.talk) out /\
  (forall m, m ∈ out -> m ∈ Demo.talk \/ exists s, m = placeholder s) /\
  (List.length out <= List.length Demo.talk)%nat.
Proof.
  exact (ensureEssentialMessages_shape ∅ Demo.talk [3%nat]).
Defined.

Lemma CompressRequest_repeat_witness :
  let req := Demo.request "m1" 100 Demo.talk in
  let '(req1, cc1) := CompressRequest 0 Demo.tightCompressor req in
  let '(req2, cc2) := CompressRequest 9 cc1 req in
  req2 = req1 /\
  summaryCache cc2 = summaryCache cc1 /\
  exists e1 e2,
    compressionCache cc1 !! generateCompressionKey (Messages req) = Some e1 /\
    compressionCache cc2 !! generateCompressionKey (Messages req) = Some e2 /\
    CompressedMessages e1 = Messages req1 /\
    CompressedMessages e2 = Messages req1 /\
    UsageCount e2 = UsageCount e1 + 1.
Proof.
  intros req.
  apply (CompressRequest_repeat 0 9 Demo.tightCompressor req); by vm_compute.
Defined.

Lemma CleanupCache_spec_witness :
  let cc' := CleanupCache (map_to_list (compressionCache Examples.crowded))
               (map_to_list (summaryCache Examples.crowded)).*1 0
               Examples.crowded in
  size (summaryCache Examples.crowded) = 1001%nat /\
  Z.of_nat (size (summaryCache cc')) = 667.
Proof.
  intros cc'.
  assert (Hn : size (summaryCache Examples.crowded) = 1001%nat)
    by (by vm_compute).
  split; [exact Hn|].
  destruct (CleanupCache_spec
              (map_to_list (compressionCache Examples.crowded))
              (map_to_list (summaryCache Examples.crowded)).*1 0
              Examples.crowded) as (_ & _ & Hsize); [reflexivity|reflexivity|].
  unfold cc'. rewrite Hsize, Hn. by vm_compute.
Defined.

End CompressorMore.

Module BatcherFacts.
Import Batcher.

Section Queue.
Context `{Hashing}.

(** X25. The channel that [AddRequest] returns is the channel of the
    entry queued under the hash of the request, and the next
    [processBatch] hands that entry to [executeBatch] and leaves the
    queue empty. *)
Theorem AddRequest_channel_is_queued now rb req :
  let '(ch, rb') := AddRequest now rb req in
  exists e batch,
    pendingReqs rb' !! generateRequestHash req = Some e /\
    ResponseCh e = ch /\
    (processBatch rb').1 = Some batch /\
    batch !! generateRequestHash req = Some e /\
    pendingReqs (processBatch rb').2 = ∅.
Proof.
  assert (Hbatch : forall rb' e,
            pendingReqs rb' !! generateRequestHash req = Some e ->
            exists batch, (processBatch rb').1 = Some batch /\
              batch !! generateRequestHash req = Some e /\
              pendingReqs (processBatch rb').2 = ∅).
  { intros rb' e He. unfold processBatch.
    destruct (Z.of_nat (size (pendingReqs rb')) =? 0) eqn:Hsize.
    - assert (Hz : size (pendingReqs rb') = 0%nat) by lia.
      apply map_size_empty_inv in Hz. rewrite Hz, lookup_empty in He. done.
    - by exists (pendingReqs rb'). }
  unfold AddRequest.
  destruct (pendingReqs rb !! generateRequestHash req) as [existingReq|] eqn:He.
  - destruct (now - CreatedAt existingReq <? 5 * second).
    + destruct (Hbatch rb existingReq He) as (batch & ?).
      by exists existingReq, batch.
    + cbn -[processBatch generateRequestHash].
      match goal with |- context [processBatch ?rb1] =>
        destruct (Hbatch rb1 {| Request := req; ResponseCh := made rb;
                                CreatedAt := now;
                                RequestHash := generateRequestHash req |})
          as (batch & Hb) end; [apply lookup_insert_eq|].
      eexists _, batch. split; [apply lookup_insert_eq|]. split; [done|].
      exact Hb.
  - cbn -[processBatch generateRequestHash].
    match goal with |- context [processBatch ?rb1] =>
      destruct (Hbatch rb1 {| Request := req; ResponseCh := made rb;
                              CreatedAt := now;
                              RequestHash := generateRequestHash req |})
        as (batch & Hb) end; [apply lookup_insert_eq|].
    eexists _, batch. split; [apply lookup_insert_eq|]. split; [done|].
    exact Hb.
Qed.


End Queue.

#[local] Existing Instance Demo.hashing.


End BatcherFacts.
